(** * MITuna: job scheduling, result ingestion and worker orchestration

    A shallow embedding of the scheduling core of MITuna
    (tuna/miopen/miopen_lib.py, tuna/utils/db_utility.py,
    tuna/rocmlir/rocmlir_worker.py) and the properties of it that the
    specification states.

    Python values are modelled as follows: [int] as [Z], [str] as
    [string], lists as [list], a dict used for its keys as the list of its
    keys, [None] as [None].  The relational store is explicit state: a
    [DbSession] holds the tables as committed and as seen by the open
    transaction.  Calls into parts of the system that are external (the
    store raising, the worker payload, the command that is run) are inputs
    of the functions that make them. *)

From Stdlib Require Import List String Ascii ZArith Bool Lia DecimalString.
From Stdlib Require Import Sorting.Sorted Btauto.
From Stdlib Require DecimalZ DecimalPos.
Import ListNotations.
Local Open Scope string_scope.
Local Open Scope Z_scope.

(* ===================================================================== *)
(** * The store *)
(* ===================================================================== *)

(** A row of the job table (the columns the scheduler reads or writes). *)
Record Job := mkJob {
  id : Z;
  config : Z;
  session : Z;
  state : string;
  valid : Z;
  retries : Z;
  reason : string;
  fin_step : string;
  result : string
}.

(** A row of the find-db table, with the columns tests/utils.py
    [build_fdb_entry] fills in. *)
Record FindDB := mkFindDB {
  fdb_config : Z;
  fdb_solver : Z;
  fdb_session : Z;
  fdb_key : string;
  alg_lib : string;
  params : string;
  workspace_sz : Z;
  fdb_valid : bool;
  kernel_time : Z;
  kernel_group : Z
}.

(** A row of the results table of the rocMLIR worker, with the columns
    [update_result_table] fills in. *)
Record Results := mkResults {
  res_valid : Z;
  res_session : Z;
  res_arch : string;
  res_config : Z;
  config_str : string;
  res_perf_config : string;
  kernel_tflops : string
}.

(** The tables of the store.  [fin_cache_table] holds, per row, the id of
    the job the cached kernel belongs to. *)
Record Tables := mkTables {
  job_table : list Job;
  find_db_table : list FindDB;
  fin_cache_table : list (Z * string);
  results_table : list Results
}.

(** Exceptions the modelled code can raise or let through. *)
Inductive Exn :=
| OperationalError
| PymysqlOperationalError
| IntegrityError
| DataError
| UnboundLocalError
| AttributeError
| AssertionError
| ParserError (msg : string)
| ValueError (msg : string)
| OtherError (msg : string).

(** How a call ends: it returns a value or raises. *)
Inductive Completion (A : Type) :=
| Return (a : A)
| Raise (e : Exn).
Arguments Return {A} a.
Arguments Raise {A} e.

(** A database session: the committed tables, the tables as the open
    transaction sees them, the ids of the job rows other transactions hold
    locked, the ids this transaction holds locked, and what the store does
    at each of the coming [execute] calls: [Some e] when it raises [e],
    [None] (or no entry) when it carries the statement out. *)
Record DbSession := mkSession {
  committed : Tables;
  working : Tables;
  locked : list Z;
  held : list Z;
  faults : list (option Exn)
}.

(** The fault, if any, of the next [execute], and the session after it. *)
Definition next_fault (sess : DbSession) : option Exn * DbSession :=
  match faults sess with
  | f :: rest =>
      (f, mkSession (committed sess) (working sess) (locked sess) (held sess)
                    rest)
  | [] => (None, sess)
  end.

(** [session.commit()]. *)
Definition commit (sess : DbSession) : DbSession :=
  mkSession (working sess) (working sess) (locked sess) [] (faults sess).

(** [session.rollback()]. *)
Definition rollback (sess : DbSession) : DbSession :=
  mkSession (committed sess) (committed sess) (locked sess) [] (faults sess).

Definition with_job_table (f : list Job -> list Job) (t : Tables) : Tables :=
  mkTables (f (job_table t)) (find_db_table t) (fin_cache_table t)
           (results_table t).

Definition with_find_db (f : list FindDB -> list FindDB) (t : Tables) : Tables :=
  mkTables (job_table t) (f (find_db_table t)) (fin_cache_table t)
           (results_table t).

Definition with_fin_cache (f : list (Z * string) -> list (Z * string))
    (t : Tables) : Tables :=
  mkTables (job_table t) (find_db_table t) (f (fin_cache_table t))
           (results_table t).

Definition with_results (f : list Results -> list Results) (t : Tables)
    : Tables :=
  mkTables (job_table t) (find_db_table t) (fin_cache_table t)
           (f (results_table t)).

Definition in_transaction (f : Tables -> Tables) (sess : DbSession) : DbSession :=
  mkSession (committed sess) (f (working sess)) (locked sess) (held sess)
            (faults sess).

(** The row with a given id, as a [SELECT ... WHERE id=jid] returns it. *)
Definition lookup_job (t : Tables) (jid : Z) : option Job :=
  find (fun j => id j =? jid) (job_table t).

(* ===================================================================== *)
(** * Result ingestion (miopen_lib.py) *)
(* ===================================================================== *)

Definition MAX_ERRORED_JOB_RETRIES : Z := 3.

(** Python's [key in fin_json] on the keys of a dict. *)
Definition has_key (k : string) (keys : list string) : bool :=
  existsb (String.eqb k) keys.

(** A worker's result payload: [None], or a dict given by its keys.
    [if fin_json:] holds for a dict that is not empty. *)
Definition FinJson := option (list string).

Definition truthy_json (fin_json : FinJson) : bool :=
  match fin_json with
  | Some (_ :: _) => true
  | _ => false
  end.

Definition json_has (k : string) (fin_json : FinJson) : bool :=
  match fin_json with
  | Some keys => has_key k keys
  | None => false
  end.

(** The context of a claimed job, as [build_context] makes it. *)
Record Context := mkContext {
  ctx_job : Job;
  ctx_config : Z;
  ctx_arch : string;
  ctx_num_cu : Z;
  fdb_attr : list string
}.

(** What the store-updating calls of an ingestion do ([process_fdb_w_kernels]
    or [process_pdb_compile], followed by [get_fin_result]): the rows they
    write to find-db inside the open transaction, and then either the
    exception raised or the pair [(success, result_str)] that
    [get_fin_result] makes of the status.  These functions live in
    tuna/miopen/utils/json_to_sql.py and tuna/miopen/worker/fin_utils.py and
    talk to the store; their behaviour is an input here. *)
Record Ingest := mkIngest {
  writes : list FindDB -> list FindDB;
  outcome : Exn + (bool * string)
}.

(** A job row with a new state, retry count and result text. *)
Definition with_state (row : Job) (st : string) (r : Z) (res : string) : Job :=
  mkJob (id row) (config row) (session row) st (valid row) r (reason row)
        (fin_step row) res.

(** Modelled from the spec: [set_job_state] of tuna/miopen/utils/helper.py is
    not among the sources.  Section 3 has [result] "overwritten on each
    transition" and section 4.2 has a failure below the ceiling "revert to the
    prior stable state and increment retries"; the call sites pass the new
    state, the flag [increment_retries] (absent means no increment) and the
    result text.  The update goes to the row whose id is the job's, writes
    the job object's retry count plus one when asked to, and is committed. *)
Definition set_job_state (sess : DbSession) (job : Job) (st : string)
    (increment_retries : bool) (res : string) : DbSession :=
  let upd (row : Job) :=
    if id row =? id job then
      with_state row st
        (if increment_retries then retries job + 1 else retries row) res
    else row in
  commit (in_transaction (with_job_table (map upd)) sess).

(** Modelled from the spec: [clean_cache_table] of
    tuna/miopen/utils/json_to_sql.py is not among the sources.  Section 4.5:
    "associated transient cache rows for that job are cleared". *)
Definition clean_cache_table (sess : DbSession) (job : Job) : DbSession :=
  commit (in_transaction
            (with_fin_cache (filter (fun r => negb (fst r =? id job)))) sess).

(** [process_eval_results]. *)
Definition process_eval_results (sess : DbSession) (fin_json : FinJson)
    (context : Context) (ing : Ingest) : Completion bool * DbSession :=
  let job := ctx_job context in
  let orig_state := "compiled" in
  (* the try block: the store calls, then the state transition *)
  let transition (sess : DbSession) (failed_job : bool) (result_str : string) :=
    if failed_job then
      if retries job >=? MAX_ERRORED_JOB_RETRIES - 1 then
        set_job_state sess job "errored" false result_str
      else
        set_job_state sess job orig_state true result_str
    else
      clean_cache_table (set_job_state sess job "evaluated" false result_str) job in
  if truthy_json fin_json then
    if json_has "miopen_find_eval_result" fin_json
       || json_has "miopen_perf_eval_result" fin_json then
      let sess1 := in_transaction (with_find_db (writes ing)) sess in
      match outcome ing with
      | inr (success, result_str) =>
          (Return true, transition sess1 (negb success) result_str)
      | inl OperationalError =>
          (Return true, set_job_state (rollback sess1) job "errored" false "")
      | inl IntegrityError =>
          (Return true, set_job_state (rollback sess1) job "errored" false "")
      | inl e => (Raise e, sess1)
      end
    else
      (* [status] was never assigned *)
      (Raise UnboundLocalError, sess)
  else
    (Return true, transition sess true "").

(** [process_compile_results]. *)
Definition process_compile_results (sess : DbSession) (fin_json : FinJson)
    (context : Context) (ing : Ingest) : Completion bool * DbSession :=
  let job := ctx_job context in
  let finish (sess : DbSession) (failed_job : bool) (result_str : string) :=
    if failed_job then set_job_state sess job "errored" false result_str
    else set_job_state sess job "compiled" false result_str in
  if truthy_json fin_json then
    let sess1 :=
      if json_has "miopen_find_compile_result" fin_json
         || json_has "miopen_perf_compile_result" fin_json
      then in_transaction (with_find_db (writes ing)) sess
      else sess in
    match outcome ing with
    | inr (success, result_str) =>
        (Return true, finish sess1 (negb success) result_str)
    | inl OperationalError => (Return true, finish (rollback sess1) true "")
    | inl IntegrityError => (Return true, finish (rollback sess1) true "")
    | inl DataError => (Return true, finish (rollback sess1) true "")
    | inl e => (Raise e, sess1)
    end
  else
    (Return true, finish sess false "").

(** One evaluation of the job [jid]: the job row is read in the open
    transaction into a context, the worker answers with [fin_json], and the
    answer is ingested.  Without such a row nothing happens. *)
Definition ingest_eval (sess : DbSession) (jid : Z) (run : FinJson * Ingest)
    : DbSession :=
  match lookup_job (working sess) jid with
  | Some row =>
      snd (process_eval_results sess (fst run)
             (mkContext row (config row) "" 0 []) (snd run))
  | None => sess
  end.

(** The payload is an evaluation result: it is not empty and has one of the
    two result keys. *)
Definition is_eval_result (fin_json : FinJson) : bool :=
  truthy_json fin_json
  && (json_has "miopen_find_eval_result" fin_json
      || json_has "miopen_perf_eval_result" fin_json).

(** The evaluation failed: the worker sent nothing, or a result that
    [get_fin_result] counts as no success. *)
Definition eval_failed (run : FinJson * Ingest) : bool :=
  negb (truthy_json (fst run))
  || (is_eval_result (fst run)
      && match outcome (snd run) with
         | inr (false, _) => true
         | _ => false
         end).

(** The evaluation succeeded. *)
Definition eval_succeeded (run : FinJson * Ingest) : bool :=
  is_eval_result (fst run)
  && match outcome (snd run) with
     | inr (true, _) => true
     | _ => false
     end.

(** Evaluations of one job in a row. *)
Definition ingest_evals (sess : DbSession) (jid : Z)
    (runs : list (FinJson * Ingest)) : DbSession :=
  fold_left (fun s run => ingest_eval s jid run) runs sess.

(** What an ingestion leaves when it rolls back and then records the job as
    errored: the find-db rows are the committed ones of before, the job's row
    is in state [errored] with the retry count it had, every other job row
    is as it was, and nothing is pending. *)
Definition rolled_back_to_errored (sess : DbSession) (job : Job)
    (after : DbSession) : Prop :=
  find_db_table (committed after) = find_db_table (committed sess)
  /\ (forall row,
        lookup_job (committed sess) (id job) = Some row ->
        exists row',
          lookup_job (committed after) (id job) = Some row'
          /\ state row' = "errored" /\ retries row' = retries row)
  /\ (forall jid,
        jid <> id job ->
        lookup_job (committed after) jid = lookup_job (committed sess) jid)
  /\ working after = committed after.

(* ===================================================================== *)
(** * The job claim protocol (miopen_lib.py, db_utility.py) *)
(* ===================================================================== *)

(** Python's [str] of an [int]. *)
Definition str_of_int (n : Z) : string :=
  NilZero.string_of_int (Z.to_int n).

(** A condition of the WHERE clause, as the store has it once it has read
    the text of a statement ([read_statement] below): [show_cond] is its SQL
    text and [eval_cond] is what it means on a row. *)
Inductive Cond :=
| CondSession (sid : Z)                (* session={dbt.session.id} *)
| CondValid                            (* valid=1 *)
| CondReason (label : string)          (* reason='{label}' *)
| CondRetries (bound : Z)              (* retries<{self.max_job_retries} *)
| CondStateIn (find_state : list string)  (* state in (...) *)
| CondFinStepLike (step : string)      (* fin_step like '%{fin_steps[0]}%' *)
| CondNotFin.                          (* fin_step='not_fin' *)

Definition quote (s : string) : string := "'" ++ s ++ "'".

(** [str(find_state).strip('{').strip('}')] for a set of state names, listed
    in the order the set iterates; the empty set prints as [set()].  A name
    is printed by [repr], which writes a name of printable characters
    without quote or backslash between single quotes as it is; the text is
    that of the source for such names. *)
Definition show_state_set (find_state : list string) : string :=
  match find_state with
  | [] => "set()"
  | _ => String.concat ", " (map quote find_state)
  end.

Definition show_cond (c : Cond) : string :=
  match c with
  | CondSession sid => "session=" ++ str_of_int sid
  | CondValid => "valid=1"
  | CondReason label => "reason=" ++ quote label
  | CondRetries bound => "retries<" ++ str_of_int bound
  | CondStateIn find_state => "state in (" ++ show_state_set find_state ++ ")"
  | CondFinStepLike step => "fin_step like '%" ++ step ++ "%'"
  | CondNotFin => "fin_step='not_fin'"
  end.

(** SQL [LIKE]: in the pattern [%] stands for any run of characters and [_]
    for any one character; every other character stands for itself. *)
Fixpoint sql_like (pat : string) : string -> bool :=
  match pat with
  | EmptyString => fun s => match s with EmptyString => true | _ => false end
  | String c pat' =>
      if Ascii.eqb c "%" then
        fix any_run (s : string) : bool :=
          sql_like pat' s
          || match s with
             | EmptyString => false
             | String _ s' => any_run s'
             end
      else if Ascii.eqb c "_" then
        fun s => match s with
                 | EmptyString => false
                 | String _ s' => sql_like pat' s'
                 end
      else
        fun s => match s with
                 | EmptyString => false
                 | String d s' => Ascii.eqb c d && sql_like pat' s'
                 end
  end.

Definition eval_cond (c : Cond) (j : Job) : bool :=
  match c with
  | CondSession sid => session j =? sid
  | CondValid => valid j =? 1
  | CondReason label => String.eqb (reason j) label
  | CondRetries bound => retries j <? bound
  | CondStateIn find_state => existsb (String.eqb (state j)) find_state
  | CondFinStepLike step => sql_like ("%" ++ step ++ "%") (fin_step j)
  | CondNotFin => String.eqb (fin_step j) "not_fin"
  end.

(** A select on the job table as the store has read it: the conditions
    joined by AND, [ORDER BY retries,config ASC], the LIMIT when there is
    one, and [FOR UPDATE SKIP LOCKED]. *)
Record Select := mkSelect {
  sel_conds : list Cond;
  sel_limit : option Z
}.

(** The text of such a statement, after the columns and the table: what
    [compose_work_objs] builds in [cond_str]. *)
Definition show_select (q : Select) : string :=
  let cond_str := String.concat " AND " (map show_cond (sel_conds q)) in
  let cond_str :=
    match cond_str with
    | EmptyString => cond_str
    | _ => "WHERE " ++ cond_str
    end in
  match sel_limit q with
  | Some claim_num =>
      cond_str ++ " ORDER BY retries,config ASC LIMIT " ++ str_of_int claim_num
               ++ " FOR UPDATE SKIP LOCKED"
  | None => cond_str ++ " ORDER BY retries,config ASC FOR UPDATE SKIP LOCKED"
  end.

(** ** How the store reads the text of a statement

    The code sends text.  The store reads it as follows: an integer is a run
    of digits with or without a sign; a text between single quotes ends at
    the next quote, and a text with a backslash in it is not of this form;
    the conditions are joined by [ AND ]; after them come the order, the
    LIMIT if any, and the locking clause.  A text that is not of this form
    is no statement for [read_statement]. *)

Fixpoint strip_prefix (p s : string) : option string :=
  match p with
  | EmptyString => Some s
  | String c p' =>
      match s with
      | EmptyString => None
      | String d s' => if Ascii.eqb c d then strip_prefix p' s' else None
      end
  end.

Definition is_int_char (c : ascii) : bool :=
  Ascii.eqb c "-" || ((48 <=? N_of_ascii c) && (N_of_ascii c <=? 57))%N.

Fixpoint span_int (s : string) : string * string :=
  match s with
  | EmptyString => (EmptyString, EmptyString)
  | String c s' =>
      if is_int_char c then
        let (tok, rest) := span_int s' in (String c tok, rest)
      else (EmptyString, s)
  end.

Definition read_int (s : string) : option (Z * string) :=
  let (tok, rest) := span_int s in
  match NilZero.int_of_string tok with
  | Some d => Some (Z.of_int d, rest)
  | None => None
  end.

(** The text up to the closing quote, and what follows the quote. *)
Fixpoint read_quoted (s : string) : option (string * string) :=
  match s with
  | EmptyString => None
  | String c s' =>
      if Ascii.eqb c "'" then Some (EmptyString, s')
      else if Ascii.eqb c "\" then None
      else match read_quoted s' with
           | Some (text, rest) => Some (String c text, rest)
           | None => None
           end
  end.

Fixpoint drop_last_percent (s : string) : option string :=
  match s with
  | EmptyString => None
  | String c EmptyString => if Ascii.eqb c "%" then Some EmptyString else None
  | String c s' =>
      match drop_last_percent s' with
      | Some t => Some (String c t)
      | None => None
      end
  end.

(** The step of a pattern [%step%]. *)
Definition like_step (pat : string) : option string :=
  match pat with
  | String c s => if Ascii.eqb c "%" then drop_last_percent s else None
  | EmptyString => None
  end.

(** The names of [state in ('a', 'b')], from the first quote on. *)
Fixpoint read_names (fuel : nat) (s : string)
    : option (list string * string) :=
  match fuel with
  | O => None
  | S fuel' =>
      match strip_prefix "'" s with
      | None => None
      | Some r =>
          match read_quoted r with
          | None => None
          | Some (name, r') =>
              match strip_prefix ", " r' with
              | Some r'' =>
                  match read_names fuel' r'' with
                  | Some (names, rest) => Some (name :: names, rest)
                  | None => None
                  end
              | None =>
                  match strip_prefix ")" r' with
                  | Some rest => Some ([name], rest)
                  | None => None
                  end
              end
          end
      end
  end.

Definition read_states (s : string) : option (list string * string) :=
  match strip_prefix "set())" s with
  | Some rest => Some ([], rest)
  | None => read_names (String.length s) s
  end.

Definition read_cond (s : string) : option (Cond * string) :=
  match strip_prefix "session=" s with
  | Some r =>
      match read_int r with
      | Some (sid, rest) => Some (CondSession sid, rest)
      | None => None
      end
  | None =>
  match strip_prefix "valid=1" s with
  | Some rest => Some (CondValid, rest)
  | None =>
  match strip_prefix "reason='" s with
  | Some r =>
      match read_quoted r with
      | Some (label, rest) => Some (CondReason label, rest)
      | None => None
      end
  | None =>
  match strip_prefix "retries<" s with
  | Some r =>
      match read_int r with
      | Some (bound, rest) => Some (CondRetries bound, rest)
      | None => None
      end
  | None =>
  match strip_prefix "state in (" s with
  | Some r =>
      match read_states r with
      | Some (find_state, rest) => Some (CondStateIn find_state, rest)
      | None => None
      end
  | None =>
  match strip_prefix "fin_step like '" s with
  | Some r =>
      match read_quoted r with
      | Some (pat, rest) =>
          match like_step pat with
          | Some step => Some (CondFinStepLike step, rest)
          | None => None
          end
      | None => None
      end
  | None =>
  match strip_prefix "fin_step='not_fin'" s with
  | Some rest => Some (CondNotFin, rest)
  | None => None
  end end end end end end end.

Fixpoint read_conds (fuel : nat) (s : string) : option (list Cond * string) :=
  match fuel with
  | O => None
  | S fuel' =>
      match read_cond s with
      | None => None
      | Some (c, rest) =>
          match strip_prefix " AND " rest with
          | Some rest' =>
              match read_conds fuel' rest' with
              | Some (cs, rest'') => Some (c :: cs, rest'')
              | None => None
              end
          | None => Some ([c], rest)
          end
      end
  end.

(** What follows the conditions: the limit, if the text is of the form. *)
Definition read_tail (s : string) : option (option Z) :=
  match strip_prefix " ORDER BY retries,config ASC" s with
  | None => None
  | Some r =>
      if String.eqb r " FOR UPDATE SKIP LOCKED" then Some None
      else
        match strip_prefix " LIMIT " r with
        | None => None
        | Some r' =>
            match read_int r' with
            | Some (n, r'') =>
                if String.eqb r'' " FOR UPDATE SKIP LOCKED" then Some (Some n)
                else None
            | None => None
            end
        end
  end.

Definition read_statement (cond_str : string) : option Select :=
  match strip_prefix "WHERE " cond_str with
  | None => None
  | Some s =>
      match read_conds (String.length s) s with
      | None => None
      | Some (conds, rest) =>
          match read_tail rest with
          | Some limit => Some (mkSelect conds limit)
          | None => None
          end
      end
  end.

(** [ORDER BY retries,config ASC]: by retry count, then by config id. *)
Definition claim_leb (a b : Job) : bool :=
  (retries a <? retries b)
  || ((retries a =? retries b) && (config a <=? config b)).

Fixpoint insert_job (j : Job) (l : list Job) : list Job :=
  match l with
  | [] => [j]
  | k :: l' => if claim_leb j k then j :: l else k :: insert_job j l'
  end.

Fixpoint order_by_retries_config (l : list Job) : list Job :=
  match l with
  | [] => []
  | j :: l' => insert_job j (order_by_retries_config l')
  end.

Definition is_locked (sess : DbSession) (j : Job) : bool :=
  existsb (Z.eqb (id j)) (locked sess).

(** The rows the WHERE clause keeps, leaving out rows locked elsewhere. *)
Definition matching_rows (sess : DbSession) (conds : list Cond) : list Job :=
  filter (fun j => forallb (fun c => eval_cond c j) conds
                   && negb (is_locked sess j))
         (job_table (working sess)).

Definition apply_limit (limit : option Z) (rows : list Job) : list Job :=
  match limit with
  | Some n => firstn (Z.to_nat n) rows
  | None => rows
  end.

(** What the store does not carry out: [state in (set())], which the empty
    set of states prints as, and a LIMIT below 0 are errors of syntax. *)
Definition statement_ok (q : Select) : bool :=
  forallb (fun c => match c with
                    | CondStateIn [] => false
                    | _ => true
                    end) (sel_conds q)
  && match sel_limit q with
     | Some n => 0 <=? n
     | None => true
     end.

(** What the store does with a statement it has read: the exception when it
    raises (a lost connection, a lock wait that times out), the error when
    it rejects the statement, and otherwise the rows the statement asks
    for. *)
Definition execute_select (sess : DbSession) (q : Select)
    : Completion (list Job) * DbSession :=
  match next_fault sess with
  | (Some e, sess') => (Raise e, sess')
  | (None, sess') =>
      if statement_ok q then
        (Return (apply_limit (sel_limit q)
                   (order_by_retries_config
                      (matching_rows sess' (sel_conds q)))), sess')
      else (Raise (OtherError "ProgrammingError"), sess')
  end.

(** What a store does with a text that [read_statement] does not read: the
    model does not say, every function that sends text takes it as
    [foreign]. *)
Definition Foreign : Type :=
  string -> DbSession -> Completion (list Job) * DbSession.

(** [session.execute(query)] for the select of the columns of the job table
    with the given [cond_str]. *)
Definition execute (foreign : Foreign) (sess : DbSession) (cond_str : string)
    : Completion (list Job) * DbSession :=
  match read_statement cond_str with
  | Some q => execute_select sess q
  | None => foreign cond_str sess
  end.

(** The [try] of [get_job_rows] on what the store answered: the rows, which
    the transaction now holds locked; when the store raised, the exception
    is logged, the result is [None] and the session is rolled back. *)
Definition rows_or_none (answer : Completion (list Job) * DbSession)
    : option (list Job) * DbSession :=
  match answer with
  | (Return rows, sess') =>
      (Some rows,
       mkSession (committed sess') (working sess') (locked sess')
                 (held sess' ++ map id rows)%list (faults sess'))
  | (Raise _, sess') => (None, rollback sess')
  end.

(** [get_job_rows], for the columns and the name of the job table. *)
Definition get_job_rows (foreign : Foreign) (sess : DbSession)
    (cond_str : string) : option (list Job) * DbSession :=
  rows_or_none (execute foreign sess cond_str).

(** [db_rows_to_obj]: one object per row, with the selected columns (here
    all the columns of [Job]). *)
Definition db_rows_to_obj (ret : list Job) : list Job :=
  map (fun row => mkJob (id row) (config row) (session row) (state row)
                        (valid row) (retries row) (reason row) (fin_step row)
                        (result row)) ret.

(** [gen_select_objs]: a result object is true whatever its rows, so only a
    failed query gives [None]. *)
Definition gen_select_objs (foreign : Foreign) (sess : DbSession)
    (cond_str : string) : option (list Job) * DbSession :=
  match get_job_rows foreign sess cond_str with
  | (Some ret, sess') => (Some (db_rows_to_obj ret), sess')
  | (None, sess') => (None, sess')
  end.

(** The same for a statement given as the store reads it. *)
Definition select_objs (sess : DbSession) (q : Select)
    : option (list Job) * DbSession :=
  match rows_or_none (execute_select sess q) with
  | (Some ret, sess') => (Some (db_rows_to_obj ret), sess')
  | (None, sess') => (None, sess')
  end.

(** Truth of an optional [int], [str] or list, as Python's [if x:]. *)
Definition truthy_int (x : option Z) : option Z :=
  match x with
  | Some n => if n =? 0 then None else Some n
  | None => None
  end.

Definition truthy_str (x : option string) : option string :=
  match x with
  | Some EmptyString => None
  | x => x
  end.

(** [compose_work_objs]; [conds] are the conditions as text. *)
Definition compose_work_objs (foreign : Foreign) (sess : DbSession)
    (conds : list string) (claim_num : option Z)
    (fin_steps : option (list string)) : option (list Job) * DbSession :=
  let conds :=
    match fin_steps with
    | Some (step :: _) => (conds ++ [("fin_step like '%" ++ step ++ "%'")%string])%list
    | _ => (conds ++ ["fin_step='not_fin'"])%list
    end in
  let cond_str := String.concat " AND " conds in
  let cond_str :=
    match cond_str with
    | EmptyString => cond_str
    | _ => "WHERE " ++ cond_str
    end in
  let cond_str :=
    match truthy_int claim_num with
    | Some claim_num =>
        cond_str ++ " ORDER BY retries,config ASC LIMIT "
                 ++ str_of_int claim_num ++ " FOR UPDATE SKIP LOCKED"
    | None => cond_str ++ " ORDER BY retries,config ASC FOR UPDATE SKIP LOCKED"
    end in
  gen_select_objs foreign sess cond_str.

(** [get_job_objs]; [session_id] is [dbt.session.id] and [max_job_retries]
    is [self.max_job_retries], a setting of the tuning interface. *)
Definition get_job_objs (foreign : Foreign) (max_job_retries : Z)
    (sess : DbSession) (find_state : list string) (label : option string)
    (session_id : Z) (claim_num : option Z) (fin_steps : option (list string))
    : option (list Job) * DbSession :=
  let conds := ["session=" ++ str_of_int session_id; "valid=1"] in
  let conds :=
    match truthy_str label with
    | Some label => (conds ++ [("reason='" ++ label ++ "'")%string])%list
    | None => conds
    end in
  let conds := (conds ++ [("retries<" ++ str_of_int max_job_retries)%string])%list in
  let conds :=
    (conds ++ [("state in (" ++ show_state_set find_state ++ ")")%string])%list in
  compose_work_objs foreign sess conds claim_num fin_steps.

(** A text with no single quote and no backslash in it: between quotes, the
    store reads it as it is. *)
Fixpoint no_quote (s : string) : bool :=
  match s with
  | EmptyString => true
  | String c s' =>
      negb (Ascii.eqb c "'") && negb (Ascii.eqb c "\") && no_quote s'
  end.

(** A name of printable characters of ASCII with no quote and no backslash:
    [repr] writes it between single quotes as it is. *)
Fixpoint plain_name (s : string) : bool :=
  match s with
  | EmptyString => true
  | String c s' =>
      ((32 <=? N_of_ascii c) && (N_of_ascii c <=? 126))%N
      && negb (Ascii.eqb c "'") && negb (Ascii.eqb c "\") && plain_name s'
  end.

(** The values a claim puts into its statement are read by the store as
    they are. *)
Definition plain_values (find_state : list string) (label : option string)
    (fin_steps : option (list string)) : bool :=
  forallb plain_name find_state
  && match truthy_str label with
     | Some l => no_quote l
     | None => true
     end
  && match fin_steps with
     | Some (step :: _) => no_quote step
     | _ => true
     end.

(** A condition whose quoted values the store reads as they are. *)
Definition cond_plain (c : Cond) : bool :=
  match c with
  | CondReason label => no_quote label
  | CondStateIn find_state => forallb no_quote find_state
  | CondFinStepLike step => no_quote step
  | _ => true
  end.

(** The conditions of a claim, as the store reads them when the values are
    plain. *)
Definition claim_conds (max_job_retries : Z) (find_state : list string)
    (label : option string) (session_id : Z)
    (fin_steps : option (list string)) : list Cond :=
  ([CondSession session_id; CondValid]
   ++ match truthy_str label with
      | Some label => [CondReason label]
      | None => []
      end
   ++ [CondRetries max_job_retries; CondStateIn find_state]
   ++ [match fin_steps with
       | Some (step :: _) => CondFinStepLike step
       | _ => CondNotFin
       end])%list.

(** What the store rejects of a claim: an empty set of states and a batch
    size below 0. *)
Definition claim_accepted (find_state : list string) (limit : option Z)
    : bool :=
  match find_state with
  | [] => false
  | _ => true
  end
  && match limit with
     | Some n => 0 <=? n
     | None => true
     end.

(** The rows a claim hands to its caller: none when the result is [None]. *)
Definition claimed_rows (entries : option (list Job)) : list Job :=
  match entries with
  | Some rows => rows
  | None => []
  end.


(** Eligibility of a row for a claim, condition by condition (section 4.1):
    valid, of the session, in an acceptable state, under the retry ceiling,
    of the label when one is given, of the fin step (or [not_fin] without
    one), and not locked by another claimant. *)
Definition eligible (max_job_retries : Z) (sess : DbSession)
    (find_state : list string) (label : option string) (session_id : Z)
    (fin_steps : option (list string)) (j : Job) : bool :=
  (valid j =? 1)
  && (session j =? session_id)
  && existsb (String.eqb (state j)) find_state
  && (retries j <? max_job_retries)
  && match truthy_str label with
     | Some l => String.eqb (reason j) l
     | None => true
     end
  && match fin_steps with
     | Some (step :: _) => sql_like ("%" ++ step ++ "%") (fin_step j)
     | _ => String.eqb (fin_step j) "not_fin"
     end
  && negb (is_locked sess j).


(* ===================================================================== *)
(** * The retry helper (db_utility.py) *)
(* ===================================================================== *)

(** What a worker process does besides changing the store. *)
Inductive Event :=
| Slept (secs : Z)
| RolledBack
| Warned (msg : string)
| Errored (msg : string)
| JobStateSet (st : string)
| RanCommand (attempt : nat)
| ParsedResult.

(** The world of a worker process: its database session, the numbers the
    random generator is going to draw from, and what happened so far. *)
Record World := mkWorld {
  db : DbSession;
  entropy : list Z;
  events : list Event
}.

Definition emit (e : Event) (w : World) : World :=
  mkWorld (db w) (entropy w) (events w ++ [e])%list.

Definition with_db (sess : DbSession) (w : World) : World :=
  mkWorld sess (entropy w) (events w).

(** [random.randint(a, b)]: a number from [a] to [b], both included. *)
Definition randint (a b : Z) (w : World) : Z * World :=
  match entropy w with
  | r :: rest => (a + r mod (b - a + 1), mkWorld (db w) rest (events w))
  | [] => (a, w)
  end.

Definition sleep (secs : Z) (w : World) : World := emit (Slept secs) w.

(** [session.rollback()] in a worker. *)
Definition session_rollback (w : World) : World :=
  emit RolledBack (with_db (rollback (db w)) w).

(** What [session_retry] returns: the value of [actuator(callback)], or
    [False]. *)
Inductive RetryResult (A : Type) :=
| Value (a : A)
| PyFalse.
Arguments Value {A} a.
Arguments PyFalse {A}.

(** The handler of [OperationalError] (of sqlalchemy or of pymysql): a
    warning, the rollback, and a sleep of [random.randint(1, 30)] seconds. *)
Definition backoff (w : World) : World :=
  let w := emit (Warned "DB contention sleeping") w in
  let w := session_rollback w in
  let (secs, w) := randint 1 30 w in
  sleep secs w.

(** The loop of [session_retry] with [todo] of its iterations left. *)
Fixpoint session_retry_loop {C A : Type} (todo : nat) (w : World) (callback : C)
    (actuator : C -> World -> Completion A * World)
    : Completion (RetryResult A) * World :=
  match todo with
  | O => (Return PyFalse, emit (Errored "All retries have failed.") w)
  | S todo' =>
      match actuator callback w with
      | (Return v, w') => (Return (Value v), w')
      | (Raise OperationalError, w') =>
          session_retry_loop todo' (backoff w') callback actuator
      | (Raise PymysqlOperationalError, w') =>
          session_retry_loop todo' (backoff w') callback actuator
      | (Raise IntegrityError, w') =>
          (Return PyFalse, session_rollback (emit (Errored "Query failed") w'))
      | (Raise e, w') => (Raise e, w')
      end
  end.

(** [session_retry]; [NUM_SQL_RETRIES] is a constant of tuna/utils/metadata.py,
    which is not among the sources. *)
Definition session_retry {C A : Type} (NUM_SQL_RETRIES : nat) (w : World)
    (callback : C) (actuator : C -> World -> Completion A * World)
    : Completion (RetryResult A) * World :=
  session_retry_loop NUM_SQL_RETRIES w callback actuator.

(** The world after [k] attempts in a row that raised an operational error,
    if that is how the first [k] attempts from [w] end. *)
Fixpoint after_failures {C A : Type} (k : nat) (w : World) (callback : C)
    (actuator : C -> World -> Completion A * World) : option World :=
  match k with
  | O => Some w
  | S k' =>
      match actuator callback w with
      | (Raise OperationalError, w') =>
          after_failures k' (backoff w') callback actuator
      | (Raise PymysqlOperationalError, w') =>
          after_failures k' (backoff w') callback actuator
      | _ => None
      end
  end.

(** The sleeps among some events. *)
Definition sleeps (evs : list Event) : list Z :=
  flat_map (fun e => match e with Slept secs => [secs] | _ => [] end) evs.

Definition rollbacks (evs : list Event) : nat :=
  List.length (filter (fun e => match e with RolledBack => true | _ => false end) evs).

(* ===================================================================== *)
(** * The rocMLIR worker (rocmlir_worker.py) *)
(* ===================================================================== *)

(** [s.replace(c, rep)] for a needle of one character. *)
Fixpoint replace_char (c : ascii) (rep : string) (s : string) : string :=
  match s with
  | EmptyString => EmptyString
  | String d s' =>
      if Ascii.eqb d c then rep ++ replace_char c rep s'
      else String d (replace_char c rep s')
  end.

(** What [obj.parse(result_str)] returns: arch, num_cu, config, perf_config
    and tflops; [perf_config] may be [None]. *)
Record ParseOutput := mkParsed {
  p_arch : string;
  p_num_cu : string;
  p_config : string;
  perf_config : option string;
  tflops : string
}.

(** The sanity check of [update_result_table]:
    [not perf_config or perf_config == 'None' or tflops == '-inf']. *)
Definition bad_data (p : ParseOutput) : bool :=
  match truthy_str (perf_config p) with
  | None => true
  | Some s => String.eqb s "None"
  end
  || String.eqb (tflops p) "-inf".

(** The worker: the session it tunes for and the GPU it drives. *)
Record Worker := mkWorker {
  session_id : Z;
  gpu_id : Z
}.

(** Modelled from the spec: [set_job_state] of the worker interface
    (tuna/worker_interface.py) is not among the sources.  It is the
    transition of section 4.2 on the worker's own job, done as
    [set_job_state] above does it. *)
Definition worker_set_job_state (w : World) (job : Job) (st : string)
    (res : string) : World :=
  emit (JobStateSet st) (with_db (set_job_state (db w) job st false res) w).

(** Modelled from the spec: [get_job] of the worker interface is not among
    the sources.  Section 4.6: the worker "claims exactly one job at a time
    (new -> running) using the same locking discipline as section 4.1". *)
Definition get_job (wk : Worker) (find_state set_state : string) (w : World)
    : option Job * World :=
  match select_objs (db w)
          (mkSelect [CondSession (session_id wk); CondValid;
                     CondStateIn [find_state]] (Some 1)) with
  | (Some (row :: _), sess) =>
      (Some row, with_db (set_job_state sess row set_state false "") w)
  | (_, sess) => (None, with_db sess w)
  end.

(** [update_result_table]; [parse] is the parser of the results class, which
    is not among the sources. *)
Definition update_result_table (wk : Worker) (job : Job)
    (parse : string -> Completion ParseOutput)
    (result_str : string) (w : World) : Completion bool * World :=
  match parse result_str with
  | Raise e => (Raise e, w)
  | Return p =>
      let w := emit ParsedResult w in
      if bad_data p then
        (Return true, emit (Warned "Bad data, skipping") w)
      else
        let obj :=
          mkResults 1 (session_id wk) (p_arch p) (config job) (p_config p)
                    (match perf_config p with Some s => s | None => "" end)
                    (tflops p) in
        (* session.execute(query); session.commit() *)
        match next_fault (db w) with
        | (Some e, sess) => (Raise e, with_db sess w)
        | (None, sess) =>
            (Return true,
             with_db (commit (in_transaction
                                (with_results (fun l => l ++ [obj])%list) sess))
                     w)
        end
  end.

Definition retry_true (ret : RetryResult bool) : bool :=
  match ret with
  | Value b => b
  | PyFalse => false
  end.

(** [process_result]. *)
Definition process_result (NUM_SQL_RETRIES : nat) (wk : Worker) (job : Job)
    (parse : string -> Completion ParseOutput)
    (result_str : string) (w : World)
    : Completion (RetryResult bool) * World :=
  let actuator (func : string -> World -> Completion bool * World) :=
    func result_str in
  match session_retry NUM_SQL_RETRIES w (update_result_table wk job parse)
                      actuator with
  | (Return ret, w') =>
      if retry_true ret then (Return ret, w')
      else (Return ret, emit (Warned "RocMLIR:  Unable to update database") w')
  | (Raise e, w') => (Raise e, w')
  end.

(** [Retrying(stop=stop_after_attempt(n), reraise=True,
    wait=wait_random(min=5, max=30))] around a body: the body is run until
    it ends without an exception; after an exception the loop sleeps and
    runs it again, and the exception of the last attempt allowed is raised.
    The source draws the wait as a float between 5 and 30; the model draws
    whole seconds. *)
Fixpoint retrying (left : nat) (idx : nat)
    (body : nat -> World -> Completion unit * World) (w : World)
    : Completion unit * World :=
  match left with
  | O => (Return tt, w)
  | S left' =>
      match body idx w with
      | (Return _, w') => (Return tt, w')
      | (Raise e, w') =>
          match left' with
          | O => (Raise e, w')
          | S _ =>
              let (secs, w'') := randint 5 30 w' in
              retrying left' (S idx) body (sleep secs w'')
          end
      end
  end.

(** [str(exc)], as far as the model tells exceptions apart. *)
Definition str_exn (e : Exn) : string :=
  match e with
  | ValueError msg => msg
  | OtherError msg => msg
  | ParserError msg => msg
  | OperationalError => "OperationalError"
  | PymysqlOperationalError => "OperationalError"
  | IntegrityError => "IntegrityError"
  | DataError => "DataError"
  | UnboundLocalError => "UnboundLocalError"
  | AttributeError => "AttributeError"
  | AssertionError => ""
  end.

(** One attempt of [step]: the body of [with attempt:].  [run_cmd] gives, for
    each attempt, how [self.run_cmd()] ends: with the exit code and the output
    of the command, or with an exception. *)
Definition attempt (NUM_SQL_RETRIES : nat) (wk : Worker) (job : Job)
    (parse : string -> Completion ParseOutput)
    (run_cmd : nat -> Completion (Z * string))
    (idx : nat) (w : World) : Completion unit * World :=
  let w := emit (RanCommand idx) w in
  match run_cmd idx with
  | Raise (ValueError verr) =>
      (Return tt, worker_set_job_state w job "error" verr)
  | Raise e => (Raise e, w)
  | Return (retcode, cmd_output) =>
      if negb (retcode =? 0) then
        let quoted_output := replace_char "'" "\'" cmd_output in
        let msg := "Error code " ++ str_of_int retcode ++ ", output "
                   ++ quoted_output in
        (Return tt, worker_set_job_state w job "error" msg)
      else
        let string := replace_char ":" "\:" cmd_output in
        let w := worker_set_job_state w job "completed" string in
        match process_result NUM_SQL_RETRIES wk job parse string w with
        | (Return _, w') => (Return tt, w')
        | (Raise e, w') => (Raise e, w')
        end
  end.

(** [step]. *)
Definition step (NUM_SQL_RETRIES : nat) (wk : Worker)
    (parse : string -> Completion ParseOutput)
    (run_cmd : nat -> Completion (Z * string)) (w : World)
    : Completion bool * World :=
  match get_job wk "new" "running" w with
  | (None, w) =>
      let (secs, w) := randint 1 10 w in
      (Return false, sleep secs w)
  | (Some job, w) =>
      let w := worker_set_job_state w job "running" "" in
      match retrying 3 0 (attempt NUM_SQL_RETRIES wk job parse run_cmd) w with
      | (Return _, w) => (Return true, w)
      | (Raise exc, w) =>
          (Return true,
           worker_set_job_state w job "error"
             (replace_char "'" "\'" (str_exn exc)))
      end
  end.

(* ===================================================================== *)
(** * Argument checking and worker-pool composition (miopen_lib.py) *)
(* ===================================================================== *)

(** Python's [needle in hay] on strings. *)
Fixpoint contains (needle hay : string) : bool :=
  prefix needle hay
  || match hay with
     | EmptyString => false
     | String _ hay' => contains needle hay'
     end.

(** [s.split(c)] for a separator of one character. *)
Fixpoint split_on (c : ascii) (s : string) : list string :=
  match s with
  | EmptyString => [EmptyString]
  | String d s' =>
      if Ascii.eqb d c then EmptyString :: split_on c s'
      else match split_on c s' with
           | piece :: pieces => String d piece :: pieces
           | [] => [String d EmptyString]
           end
  end.

Definition str_in (x : string) (l : list string) : bool :=
  existsb (String.eqb x) l.

(** [check_fin_args]: the new value of [self.args.fin_steps], or the error
    the parser exits with.  [valid_fin_steps] are the names of the members of
    the enumeration [FinStep], which is not among the sources. *)
Definition check_fin_args (valid_fin_steps : list string) (fin_steps : string)
    : Completion (list string) :=
  if contains "," fin_steps then
    Raise (ParserError "Multiple fin_steps currently not supported")
  else
    let f_steps := split_on "," fin_steps in
    if forallb (fun step => str_in step valid_fin_steps) f_steps then
      if (List.length f_steps =? 1)%nat then Return f_steps
      else Raise AssertionError
    else
      Raise (ParserError
               ("Supported fin steps are: ["
                ++ String.concat ", " (map quote valid_fin_steps) ++ "]")).

(** The arguments [compose_worker_list] reads. *)
Record Args := mkArgs {
  restart_machine : bool;
  fin_steps : option (list string);
  gpu_lim : option Z;
  update_applicability : bool;
  update_solvers : bool;
  check_status : bool;
  init_session : bool;
  execute_cmd : option string
}.

(** A machine, with what its collaborators answer when it is handled: the
    GPUs of [machine.get_avail_gpus()], the ids of [get_num_procs(machine)],
    the number of rows of [worker.query_cfgs(label).all()] at that time, and
    what [check_status] finds for a GPU. *)
Record Machine := mkMachine {
  machine_id : Z;
  avail_gpus : list Z;
  num_procs : list Z;
  cfg_rows : nat;
  status_ok : Z -> bool
}.

(** [worker_ids] is a list, or the [range(gpu_lim)] of the GPU limit. *)
Inductive WorkerIds :=
| IdList (l : list Z)
| IdRange (stop : Z).

(** [len(worker_ids)]. *)
Definition len (worker_ids : WorkerIds) : Z :=
  match worker_ids with
  | IdList l => Z.of_nat (List.length l)
  | IdRange stop => Z.max 0 stop
  end.

(** The ids in the order a [for] loop meets them. *)
Definition ids_of (worker_ids : WorkerIds) : list Z :=
  match worker_ids with
  | IdList l => l
  | IdRange stop => map Z.of_nat (seq 0 (Z.to_nat stop))
  end.

(** [len(worker_ids) > proc_lim] for [proc_lim = (len_rows + 99) / 100], a
    true division: the comparison of a whole number with a fraction, made
    here on whole numbers. *)
Definition over_proc_lim (n : Z) (len_rows : nat) : bool :=
  Z.of_nat len_rows + 99 <? 100 * n.

(** [while len(worker_ids) > proc_lim: worker_ids.pop()] on a list, with at
    most [todo] turns of the loop. *)
Fixpoint pop_to_limit (todo : nat) (l : list Z) (len_rows : nat) : list Z :=
  match todo with
  | O => l
  | S todo' =>
      if over_proc_lim (Z.of_nat (List.length l)) len_rows
      then pop_to_limit todo' (removelast l) len_rows
      else l
  end.

(** The worker ids of a machine, as the loop body has them when it reaches
    [if len(worker_ids) == 0].  A [range] has no [pop]. *)
Definition machine_worker_ids (args : Args) (machine : Machine)
    : Completion WorkerIds :=
  let worker_ids :=
    match fin_steps args with
    | Some (step :: _) =>
        if contains "eval" step then
          match truthy_int (gpu_lim args) with
          | Some lim =>
              if lim <? Z.of_nat (List.length (avail_gpus machine))
              then IdRange lim
              else IdList (avail_gpus machine)
          | None => IdList (avail_gpus machine)
          end
        else IdList (num_procs machine)
    | _ => IdList (num_procs machine)
    end in
  if update_applicability args then
    match worker_ids with
    | IdList l =>
        Return (IdList (pop_to_limit (List.length l) l (cfg_rows machine)))
    | IdRange stop =>
        if over_proc_lim (len worker_ids) (cfg_rows machine)
        then Raise AttributeError
        else Return worker_ids
    end
  else Return worker_ids.

(** A worker that was started, and the other things a composition does. *)
Inductive Effect :=
| RestartServer (mid : Z)
| FinWork (mid : Z)
| CheckStatus (mid gpu_idx : Z)
| AddSession (mid gpu_idx : Z)
| ExecCommand (mid gpu_idx : Z) (cmd : string).

Record Launched := mkLaunched {
  on_machine : Z;
  gpu_idx : Z;
  worker_fin_steps : list string
}.

(** [launch_worker]: the flag it returns, the worker list and the effects. *)
Definition launch_worker (args : Args) (machine : Machine) (gpu : Z)
    (worker_lst : list Launched) : bool * list Launched * list Effect :=
  if update_applicability args then
    (true,
     worker_lst ++ [mkLaunched (machine_id machine) gpu ["applicability"]],
     [])%list
  else if check_status args then
    (negb (status_ok machine gpu), worker_lst,
     [CheckStatus (machine_id machine) gpu])
  else if init_session args then
    (false, worker_lst, [AddSession (machine_id machine) gpu])
  else
    match execute_cmd args with
    | Some (String c cmd) =>
        (false, worker_lst,
         [ExecCommand (machine_id machine) gpu (String c cmd ++ " 2>&1 ")])
    | _ => (false, worker_lst, [])
    end.

(** [for gpu_idx in worker_ids: if not self.launch_worker(...): break]. *)
Fixpoint launch_all (args : Args) (machine : Machine) (ids : list Z)
    (worker_lst : list Launched) : list Launched * list Effect :=
  match ids with
  | [] => (worker_lst, [])
  | gpu :: ids' =>
      match launch_worker args machine gpu worker_lst with
      | (true, worker_lst', effs) =>
          let (worker_lst'', effs') := launch_all args machine ids' worker_lst' in
          (worker_lst'', effs ++ effs')%list
      | (false, worker_lst', effs) => (worker_lst', effs)
      end
  end.

(** The loop of [compose_worker_list] over the machines still to handle. *)
Fixpoint compose_loop (args : Args) (machines : list Machine)
    (worker_lst : list Launched) (fin_work_done : bool)
    : Completion (option (list Launched)) * list Effect :=
  match machines with
  | [] => (Return (Some worker_lst), [])
  | machine :: rest =>
      if restart_machine args then
        let (r, effs) := compose_loop args rest worker_lst fin_work_done in
        (r, RestartServer (machine_id machine) :: effs)
      else
        match machine_worker_ids args machine with
        | Raise e => (Raise e, [])
        | Return worker_ids =>
            if len worker_ids =? 0 then (Return None, [])
            else if update_solvers args && negb fin_work_done then
              (* do_fin_work, then break *)
              (Return (Some worker_lst), [FinWork (machine_id machine)])
            else
              let (worker_lst', effs) :=
                launch_all args machine (ids_of worker_ids) worker_lst in
              let (r, effs') := compose_loop args rest worker_lst' fin_work_done in
              (r, effs ++ effs')%list
        end
  end.

(** [compose_worker_list]: [Return None] is Python's [return None], and
    [Return (Some worker_lst)] is [return worker_lst]. *)
Definition compose_worker_list (args : Args) (machines : list Machine)
    : Completion (option (list Launched)) * list Effect :=
  compose_loop args machines [] false.

(** The least whole number of hundreds that holds [n]: ceil(n / 100). *)
Definition ceil_div_100 (n : nat) : Z :=
  Z.of_nat n / 100 + (if Z.of_nat n mod 100 =? 0 then 0 else 1).

(* ===================================================================== *)
(** * Stores and jobs used in examples *)
(* ===================================================================== *)

(** A new evaluation job of session 1 with label [tune]. *)
Definition eval_job (jid cfg r : Z) : Job :=
  mkJob jid cfg 1 "new" 1 r "tune" "miopen_find_eval" "".

(** Jobs with retries 2, 0 and 1 on the configs [A], [B] and [C]. *)
Definition three_jobs (A B C : Z) : Tables :=
  mkTables [eval_job 1 A 2; eval_job 2 B 0; eval_job 3 C 1] [] [] [].

(** A session on tables with nothing pending, nothing locked, and a store
    that raises nothing. *)
Definition session_of (t : Tables) : DbSession := mkSession t t [] [] [].

(** A store that rejects every text [read_statement] does not read. *)
Definition strict_store : Foreign :=
  fun _ sess => (Raise (OtherError "ProgrammingError"), sess).


(** A job that was claimed for evaluation, alone in its table. *)
Definition claimed_job : Job :=
  mkJob 7 1 1 "eval_start" 1 0 "tune" "miopen_find_eval" "".

Definition claimed_session : DbSession :=
  session_of (mkTables [claimed_job] [] [] []).

Definition claimed_context : Context :=
  mkContext claimed_job 1 "gfx90a" 104 [].

(** The payload of an evaluation, and three ways its ingestion can go: the
    store raises a contention error, the result is a failure, the result is
    a success. *)
Definition eval_payload : FinJson := Some ["miopen_find_eval_result"].

Definition contention : Ingest :=
  mkIngest (fun rows => rows) (inl OperationalError).

Definition failure : FinJson * Ingest :=
  (eval_payload, mkIngest (fun rows => rows) (inr (false, "no results"))).

Definition success : FinJson * Ingest :=
  (eval_payload, mkIngest (fun rows => rows) (inr (true, "ok"))).

(** A callback that sends one statement to the store and returns [True],
    called through the actuator [lambda x: x()]. *)
Definition one_statement (w : World) : Completion bool * World :=
  match next_fault (db w) with
  | (Some e, sess) => (Raise e, with_db sess w)
  | (None, sess) => (Return true, with_db sess w)
  end.

Definition call_it (func : World -> Completion bool * World) (w : World)
    : Completion bool * World :=
  func w.

(** A world whose store raises the given faults, with some entropy. *)
Definition world_with (t : Tables) (fs : list (option Exn)) : World :=
  mkWorld (mkSession t t [] [] fs) [41; 7; 100] [].

(** A rocMLIR worker of session 1 before a table with one new job; a tuning
    run that ends with exit code 0; a parser that finds no perf config in its
    output. *)
Definition roc_worker : Worker := mkWorker 1 0.

Definition roc_world : World :=
  world_with (mkTables [mkJob 5 9 1 "new" 1 0 "" "not_fin" ""] [] [] []) [].

Definition run_ok (idx : nat) : Completion (Z * string) :=
  Return (0, "arch: gfx90a").

Definition parse_nothing (result_str : string) : Completion ParseOutput :=
  Return (mkParsed "gfx90a" "104" "" None "0.0").

(** Arguments of an update of the solvers and of an update of the
    applicability; a machine with three process slots and one with none,
    before 150 pending configs. *)
Definition solver_args : Args :=
  mkArgs false None None false true false false None.

Definition applic_args : Args :=
  mkArgs false None None true false false false None.

Definition busy_machine : Machine :=
  mkMachine 1 [0; 1] [0; 1; 2] 150 (fun _ => true).

Definition idle_machine : Machine :=
  mkMachine 2 [] [] 150 (fun _ => true).

(** The names of the fin steps that miopen_lib.py itself lists. *)
Definition session_fin_steps : list string :=
  ["miopen_find_compile"; "miopen_find_eval"; "miopen_perf_compile";
   "miopen_perf_eval"; "get_applicability"; "find_compile"; "find_eval"].


(* ===================================================================== *)
(** * More of the retry helper and of the worker, for the further properties *)
(* ===================================================================== *)

(** The exceptions [session_retry] has a handler for. *)
Definition retry_handles (e : Exn) : bool :=
  match e with
  | OperationalError | PymysqlOperationalError | IntegrityError => true
  | _ => false
  end.

(** The row [update_result_table] inserts for a parsed result. *)
Definition result_row (wk : Worker) (job : Job) (p : ParseOutput) : Results :=
  mkResults 1 (session_id wk) (p_arch p) (config job) (p_config p)
            (match perf_config p with Some s => s | None => "" end)
            (tflops p).

(** A parser that finds a perf config and a rate. *)
Definition parse_fine (result_str : string) : Completion ParseOutput :=
  Return (mkParsed "gfx90a" "104" "conv -n 256" (Some "v2:64,64,4") "51.2").

(** A tuning run that ends with exit code 2, one that cannot find its
    config, and one that cannot find the tuning script. *)
Definition run_fails (idx : nat) : Completion (Z * string) :=
  Return (2, "can't tune").

Definition run_value_error (idx : nat) : Completion (Z * string) :=
  Raise (ValueError "More than one config matching ID 9").

Definition run_no_script (idx : nat) : Completion (Z * string) :=
  Raise (OtherError "tuningRunner.py not found;  wrong directory or missing setup").

(** The world of [roc_world] with a store that raises the given faults from
    its second statement on (the first is the claim of the job). *)
Definition roc_world_with (fs : list (option Exn)) : World :=
  world_with (mkTables [mkJob 5 9 1 "new" 1 0 "" "not_fin" ""] [] [] [])
             (None :: fs).


(* ===================================================================== *)
(** * More of the composition, for the further properties *)
(* ===================================================================== *)

(** The ids up to and with the first one that [ok] holds of. *)
Fixpoint until_ok (ok : Z -> bool) (ids : list Z) : list Z :=
  match ids with
  | [] => []
  | g :: ids' => if ok g then [g] else g :: until_ok ok ids'
  end.

(** Arguments of a restart, of a status check, of a new session and of a
    command to execute; an evaluation with a limit of two GPUs. *)
Definition restart_args : Args :=
  mkArgs true None None false false false false None.

Definition status_args : Args :=
  mkArgs false None None false false true false None.

Definition session_args : Args :=
  mkArgs false None None false false false true None.

Definition exec_args : Args :=
  mkArgs false None None false false false false (Some "uptime").

Definition eval_args : Args :=
  mkArgs false (Some ["miopen_find_eval"]) (Some 2) false false false false
         None.

(** A machine whose GPUs 4, 5 and 7 are available and whose first process
    slot fails the status check. *)
Definition gpu_machine : Machine :=
  mkMachine 3 [4; 5; 7] [0; 1; 2] 150 (fun g => negb (g =? 0)).


(* ===================================================================== *)
(** * Arguments, environment and operation (miopen_lib.py) *)
(* ===================================================================== *)

(** [check_blacklist]: the new value of [self.args.blacklist], or the error
    the parser exits with.  [MIOPEN_ALG_LIST] is a constant of
    tuna/miopen/utils/metadata.py, which is not among the sources. *)
Definition check_blacklist (MIOPEN_ALG_LIST : list string) (blacklist : string)
    : Completion (list string) :=
  let blacklist := split_on "," blacklist in
  if forallb (fun sol => str_in sol MIOPEN_ALG_LIST) blacklist
  then Return blacklist
  else Raise (ParserError "Incorrect blacklist value").

(** [get_envmt], from [self.args.find_mode] and [self.args.blacklist]. *)
Definition get_envmt (find_mode : option Z) (blacklist : option (list string))
    : list string :=
  let envmt := ["MIOPEN_LOG_LEVEL=4"; "MIOPEN_SQLITE_KERN_CACHE=ON";
                "MIOPEN_DEBUG_IMPLICIT_GEMM_FIND_ALL_SOLUTIONS=1"] in
  let envmt :=
    match truthy_int find_mode with
    | Some mode =>
        (envmt ++ [("MIOPEN_FIND_MODE=" ++ str_of_int mode)%string])%list
    | None => envmt
    end in
  match blacklist with
  | Some (arg :: args) =>
      let bk_str :=
        String.concat ", " (map (fun arg => arg ++ "=0") (arg :: args)) in
      (envmt ++ split_on "," bk_str)%list
  | _ => envmt
  end.

(** The operations of tuna/libraries.py that [update_operation] sets. *)
Inductive Operation := COMPILE | EVAL.

(** What [update_operation] writes of the tuning object: the set
    [fetch_state], [set_state] and [operation]. *)
Record Tuning := mkTuning {
  fetch_state : list string;
  set_state : option string;
  operation : option Operation
}.

(** [s.add(x)] on a set kept as a list without repetition. *)
Definition set_add (x : string) (s : list string) : list string :=
  if str_in x s then s else (s ++ [x])%list.

Definition steps_have (step : string) (fin_steps : option (list string)) : bool :=
  match fin_steps with
  | Some steps => str_in step steps
  | None => false
  end.

(** [update_operation]. *)
Definition update_operation (args : Args) (t : Tuning) : Tuning :=
  let t :=
    match fin_steps args with
    | Some (_ :: _) =>
        if steps_have "miopen_find_compile" (fin_steps args)
           || steps_have "miopen_perf_compile" (fin_steps args) then
          mkTuning (set_add "new" (fetch_state t)) (Some "compile_start")
                   (Some COMPILE)
        else if steps_have "miopen_find_eval" (fin_steps args)
                || steps_have "miopen_perf_eval" (fin_steps args) then
          mkTuning (set_add "compiled" (set_add "new" (fetch_state t)))
                   (Some "eval_start") (Some EVAL)
        else t
    | _ => t
    end in
  if update_applicability args then
    mkTuning (set_add "new" (fetch_state t)) (set_state t) (operation t)
  else t.

(** [MIOPEN_CELERY_STEPS] of tuna/miopen/metadata.py. *)
Definition MIOPEN_CELERY_STEPS : list string :=
  ["miopen_find_compile"; "miopen_find_eval"; "miopen_perf_compile";
   "miopen_perf_eval"].

(** [has_tunable_operation], as a truth value; [subcommand] and
    [shutdown_workers] are the arguments of those names. *)
Definition has_tunable_operation (subcommand : option string)
    (shutdown_workers : bool) (args : Args) : bool :=
  match truthy_str subcommand with
  | Some sub => if contains "load_job" sub then false
                else if shutdown_workers then true
                else match fin_steps args with
                     | Some (s :: l) =>
                         existsb (fun c => str_in c (s :: l)) MIOPEN_CELERY_STEPS
                     | _ => false
                     end
  | None => if shutdown_workers then true
            else match fin_steps args with
                 | Some (s :: l) =>
                     existsb (fun c => str_in c (s :: l)) MIOPEN_CELERY_STEPS
                 | _ => false
                 end
  end.

(** The names of some algorithms, for examples. *)
Definition some_algorithms : list string :=
  ["miopenConvolutionAlgoGEMM"; "miopenConvolutionAlgoDirect";
   "miopenConvolutionAlgoFFT"].

Definition fresh_tuning : Tuning := mkTuning [] None None.


(* ===================================================================== *)
(** * The fin steps of the job loader (miopen/subcmd/load_job.py) *)
(* ===================================================================== *)

(** [str.isspace] on the characters of ASCII: tab to carriage return, the
    four separators and the blank. *)
Definition is_space (c : ascii) : bool :=
  ((9 <=? N_of_ascii c) && (N_of_ascii c <=? 13))%N
  || ((28 <=? N_of_ascii c) && (N_of_ascii c <=? 32))%N.

Fixpoint lstrip (s : string) : string :=
  match s with
  | EmptyString => EmptyString
  | String c s' => if is_space c then lstrip s' else s
  end.

Fixpoint rstrip (s : string) : string :=
  match s with
  | EmptyString => EmptyString
  | String c s' =>
      match rstrip s' with
      | EmptyString => if is_space c then EmptyString else String c EmptyString
      | t => String c t
      end
  end.

(** [str.strip()]. *)
Definition strip (s : string) : string := rstrip (lstrip s).

Fixpoint insert_sorted (x : string) (l : list string) : list string :=
  match l with
  | [] => [x]
  | y :: l' => if String.leb x y then x :: l else y :: insert_sorted x l'
  end.

(** [sorted] on strings: ascending, character by character. *)
Definition sorted (l : list string) : list string :=
  fold_right insert_sorted [] l.

(** [arg_fin_steps]: the new value of [args.fin_steps].  The set is kept as
    the list of its members, each once; the warning for the empty argument
    is left out. *)
Definition arg_fin_steps (fin_steps : option string) : option (list string) :=
  match fin_steps with
  | Some EmptyString => Some []
  | Some s =>
      let steps := map strip (split_on "," s) in
      Some (nodup string_dec steps)
  | None => None
  end.

(** [fin_step_str] of [add_jobs], the text existing jobs are looked up by. *)
Definition fin_step_str (fin_steps : option (list string)) : string :=
  match fin_steps with
  | Some (step :: steps) => String.concat "," (sorted (step :: steps))
  | _ => "not_fin"
  end.


(* ===================================================================== *)
(** * Statements from objects (utils/db_utility.py) *)
(* ===================================================================== *)

Module DbUtility.

Definition bind {A B : Type} (c : Completion A) (k : A -> Completion B)
    : Completion B :=
  match c with
  | Return a => k a
  | Raise e => Raise e
  end.

Local Notation "x <- c ;; k" := (bind c (fun x => k))
  (at level 61, c at next level, right associativity).

(** The value of an attribute, by the cases [get_attr_vals] tells apart:
    [None], a string, a date and time with its text, bytes, and any other
    value with the text [str] gives for it. *)
Inductive Val :=
| VNone
| VStr (s : string)
| VDatetime (text : string)
| VBytes (b : string)
| VOther (text : string).

(** An object, as its attributes in the order they were set. *)
Definition Obj := list (string * Val).

Definition getattr (obj : Obj) (attr : string) : Completion Val :=
  match find (fun kv => String.eqb (fst kv) attr) obj with
  | Some (_, val) => Return val
  | None => Raise AttributeError
  end.

(** A dictionary from names to texts. *)
Definition Dict := list (string * string).

(** [d[k] = v]. *)
Fixpoint dict_set (k v : string) (d : Dict) : Dict :=
  match d with
  | [] => [(k, v)]
  | (k', v') :: d' =>
      if String.eqb k' k then (k, v) :: d' else (k', v') :: dict_set k v d'
  end.

(** [d[k]]. *)
Definition dict_get (d : Dict) (k : string) : Completion string :=
  match find (fun kv => String.eqb (fst kv) k) d with
  | Some (_, v) => Return v
  | None => Raise (OtherError "KeyError")
  end.

(** [l.remove(x)]: without the first [x]. *)
Fixpoint list_remove (x : string) (l : list string)
    : Completion (list string) :=
  match l with
  | [] => Raise (ValueError "list.remove(x): x not in list")
  | y :: l' =>
      if String.eqb y x then Return l'
      else l'' <- list_remove x l' ;; Return (y :: l'')
  end.

Section Codec.

(** [val.decode('utf-8')]. *)
Variable decode : string -> Completion string.

(** The text of a value in a statement, as the body of the loop of
    [get_attr_vals] gives it. *)
Definition sql_text (val : Val) : Completion string :=
  match val with
  | VNone => Return "NULL"
  | VStr s => Return (quote s)
  | VDatetime text => Return (quote text)
  | VBytes b => s <- decode b ;; Return (quote s)
  | VOther text => Return text
  end.

Fixpoint get_attr_vals_from (attr_vals : Dict) (obj : Obj)
    (attr_list : list string) : Completion Dict :=
  match attr_list with
  | [] => Return attr_vals
  | attr :: attr_list' =>
      val <- getattr obj attr ;;
      val <- sql_text val ;;
      get_attr_vals_from (dict_set attr val attr_vals) obj attr_list'
  end.

(** [get_attr_vals]. *)
Definition get_attr_vals (obj : Obj) (attr_list : list string)
    : Completion Dict :=
  get_attr_vals_from [] obj attr_list.

(** [[attr_vals[a] for a in attr_list]]. *)
Fixpoint values_of (attr_vals : Dict) (attr_list : list string)
    : Completion (list string) :=
  match attr_list with
  | [] => Return []
  | a :: attr_list' =>
      v <- dict_get attr_vals a ;;
      vs <- values_of attr_vals attr_list' ;;
      Return (v :: vs)
  end.

(** [gen_insert_query]. *)
Definition gen_insert_query (obj : Obj) (attribs : list string)
    (tablename : string) : Completion string :=
  attr_list <- list_remove "id" attribs ;;
  let attr_str := String.concat "," attr_list in
  attr_vals <- get_attr_vals obj attr_list ;;
  val_list <- values_of attr_vals attr_list ;;
  let val_str := String.concat "," val_list in
  Return ("INSERT INTO " ++ tablename ++ "(" ++ attr_str ++ ")"
          ++ " SELECT " ++ val_str ++ ";").

End Codec.

(** Bytes of ASCII decode to the same characters. *)
Definition decode_ascii (b : string) : Completion string := Return b.

(** A result object of the rocMLIR worker, for examples. *)
Definition result_obj : Obj :=
  [("valid", VOther "1"); ("session", VOther "4"); ("arch", VStr "gfx90a");
   ("config", VOther "3"); ("config_str", VNone);
   ("perf_config", VStr "v2:64,64,8")].

End DbUtility.

(* ===================================================================== *)
(** * Properties of the claim protocol *)
(* ===================================================================== *)

Section ClaimFacts.



Lemma In_insert_job (x j : Job) (l : list Job) :
  In x (insert_job j l) <-> x = j \/ In x l.
Proof.
  induction l as [| k l IH]; simpl.
  - intuition congruence.
  - destruct (claim_leb j k); simpl; rewrite ?IH; intuition congruence.
Qed.

Lemma In_order_by (x : Job) (l : list Job) :
  In x (order_by_retries_config l) <-> In x l.
Proof.
  induction l as [| j l IH]; simpl; [tauto |].
  rewrite In_insert_job, IH. intuition congruence.
Qed.

Lemma length_insert_job (j : Job) (l : list Job) :
  List.length (insert_job j l) = S (List.length l).
Proof.
  induction l as [| k l IH]; simpl; [reflexivity |].
  destruct (claim_leb j k); simpl; congruence.
Qed.

Lemma length_order_by (l : list Job) :
  List.length (order_by_retries_config l) = List.length l.
Proof.
  induction l as [| j l IH]; simpl; [reflexivity |].
  rewrite length_insert_job. congruence.
Qed.






Lemma In_apply_limit (limit : option Z) (x : Job) (l : list Job) :
  In x (apply_limit limit l) -> In x l.
Proof.
  destruct limit as [n |]; simpl; [| tauto].
  generalize (Z.to_nat n). intros k. revert l.
  induction k as [| k IH]; intros [| a l]; simpl; try tauto.
  intros [H | H]; [left; exact H | right; apply IH; exact H].
Qed.

Lemma db_rows_to_obj_same (ret : list Job) : db_rows_to_obj ret = ret.
Proof.
  unfold db_rows_to_obj. induction ret as [| [] ret IH]; simpl; congruence.
Qed.


Lemma string_app_assoc (a b c : string) : (a ++ b) ++ c = a ++ b ++ c.
Proof. induction a as [| d a IH]; simpl; [| rewrite IH]; reflexivity. Qed.

Lemma string_length_app (a b : string) :
  String.length (a ++ b) = (String.length a + String.length b)%nat.
Proof. induction a as [| d a IH]; simpl; [| rewrite IH]; reflexivity. Qed.

Lemma strip_prefix_app (p s : string) : strip_prefix p (p ++ s) = Some s.
Proof.
  induction p as [| c p IH]; simpl; [reflexivity |].
  rewrite Ascii.eqb_refl. exact IH.
Qed.

(** What may follow an integer: no digit and no sign. *)
Let ends_int (rest : string) : Prop :=
  match rest with
  | EmptyString => True
  | String c _ => is_int_char c = false
  end.

Lemma span_int_digits (d : Decimal.uint) (rest : string) :
  ends_int rest ->
  span_int (NilEmpty.string_of_uint d ++ rest)
  = (NilEmpty.string_of_uint d, rest).
Proof.
  intros Hrest. induction d; simpl; try (rewrite IHd; reflexivity).
  destruct rest as [| c r]; simpl; [reflexivity |].
  simpl in Hrest. rewrite Hrest. reflexivity.
Qed.

Lemma to_int_digits (z : Z) :
  exists d, d <> Decimal.Nil
            /\ (Z.to_int z = Decimal.Pos d \/ Z.to_int z = Decimal.Neg d).
Proof.
  destruct z as [| p | p]; simpl.
  - exists (Decimal.D0 Decimal.Nil). split; [discriminate | left; reflexivity].
  - exists (Pos.to_uint p).
    split; [apply DecimalPos.Unsigned.to_uint_nonnil | left; reflexivity].
  - exists (Pos.to_uint p).
    split; [apply DecimalPos.Unsigned.to_uint_nonnil | right; reflexivity].
Qed.

Lemma read_int_str (z : Z) (rest : string) :
  ends_int rest -> read_int (str_of_int z ++ rest) = Some (z, rest).
Proof.
  intros Hrest. unfold read_int.
  assert (Hspan : span_int (str_of_int z ++ rest) = (str_of_int z, rest)).
  { unfold str_of_int.
    destruct (to_int_digits z) as (d & Hd & [-> | ->]);
      unfold NilZero.string_of_int, NilZero.string_of_uint;
      destruct d; try congruence; simpl;
      rewrite span_int_digits by exact Hrest; reflexivity. }
  rewrite Hspan. unfold str_of_int.
  rewrite NilZero.isi.
  - rewrite DecimalZ.of_to. reflexivity.
  - destruct (to_int_digits z) as (d & Hd & [-> | ->]); congruence.
  - destruct (to_int_digits z) as (d & Hd & [-> | ->]); congruence.
Qed.

Lemma read_quoted_text (text rest : string) :
  no_quote text = true ->
  read_quoted (text ++ String "'" rest) = Some (text, rest).
Proof.
  induction text as [| c text IH]; simpl; intros H; [reflexivity |].
  apply andb_true_iff in H. destruct H as [H Ht].
  apply andb_true_iff in H. destruct H as [H1 H2].
  apply negb_true_iff in H1, H2. rewrite H1, H2, (IH Ht). reflexivity.
Qed.

Lemma drop_last_percent_app (step : string) :
  drop_last_percent (step ++ "%") = Some step.
Proof.
  induction step as [| c step IH]; [reflexivity |].
  cbn [append].
  assert (E : exists d t, step ++ "%" = String d t)
    by (destruct step; eexists; eexists; reflexivity).
  destruct E as (d & t & E). rewrite E in *.
  change (drop_last_percent (String c (String d t)))
    with (match drop_last_percent (String d t) with
          | Some t' => Some (String c t')
          | None => None
          end).
  rewrite IH. reflexivity.
Qed.

Lemma like_step_pattern (step : string) :
  like_step ("%" ++ step ++ "%") = Some step.
Proof. simpl. apply drop_last_percent_app. Qed.

Lemma quote_then (name rest : string) :
  quote name ++ rest = String "'" (name ++ String "'" rest).
Proof.
  unfold quote. simpl. rewrite string_app_assoc. reflexivity.
Qed.

Lemma strip_quote (x : string) : strip_prefix "'" (String "'" x) = Some x.
Proof. reflexivity. Qed.

Lemma strip_comma_blank (x : string) :
  strip_prefix ", " (String "," (String " " x)) = Some x.
Proof. reflexivity. Qed.

Lemma read_names_text (names : list string) (rest : string) :
  names <> [] -> forallb no_quote names = true ->
  forall fuel, (List.length names <= fuel)%nat ->
  read_names fuel (String.concat ", " (map quote names) ++ String ")" rest)
  = Some (names, rest).
Proof.
  induction names as [| n names IH]; [congruence |].
  intros _ Hplain fuel Hfuel. simpl in Hplain.
  apply andb_true_iff in Hplain. destruct Hplain as [Hn Hnames].
  destruct fuel as [| fuel]; [simpl in Hfuel; lia |].
  destruct names as [| m names].
  - simpl map. cbn [String.concat]. rewrite quote_then.
    cbn [read_names].
    rewrite (strip_quote (n ++ String "'" (String ")" rest))).
    rewrite (read_quoted_text n _ Hn). reflexivity.
  - change (String.concat ", " (map quote (n :: m :: names)))
      with (quote n ++ ", " ++ String.concat ", " (map quote (m :: names))).
    rewrite !string_app_assoc.
    set (more := String.concat ", " (map quote (m :: names)) ++ String ")" rest).
    change (", " ++ more) with (String "," (String " " more)).
    rewrite quote_then.
    cbn [read_names].
    rewrite (strip_quote (n ++ String "'" (String "," (String " " more)))).
    rewrite (read_quoted_text n _ Hn).
    rewrite (strip_comma_blank more). unfold more.
    rewrite IH; [reflexivity | discriminate | exact Hnames |].
    simpl in Hfuel |- *. lia.
Qed.

Lemma length_names_text (names : list string) :
  (List.length names
   <= String.length (String.concat ", " (map quote names)))%nat.
Proof.
  induction names as [| n names IH]; [simpl; lia |].
  destruct names as [| m names].
  - simpl. lia.
  - change (String.concat ", " (map quote (n :: m :: names)))
      with (quote n ++ ", " ++ String.concat ", " (map quote (m :: names))).
    rewrite !string_length_app. change (String.length ", ") with 2%nat.
    simpl List.length in *. lia.
Qed.

Lemma read_states_text (find_state : list string) (rest : string) :
  forallb no_quote find_state = true ->
  read_states (show_state_set find_state ++ String ")" rest)
  = Some (find_state, rest).
Proof.
  intros Hplain. destruct find_state as [| n names]; [reflexivity |].
  unfold read_states, show_state_set.
  assert (Hq : exists t, String.concat ", " (map quote (n :: names))
                         ++ String ")" rest = String "'" t).
  { destruct names as [| m names].
    - simpl map. cbn [String.concat]. rewrite quote_then. eexists. reflexivity.
    - change (String.concat ", " (map quote (n :: m :: names)))
        with (quote n ++ ", " ++ String.concat ", " (map quote (m :: names))).
      rewrite quote_then. eexists. reflexivity. }
  destruct Hq as [t Ht].
  assert (Hno : strip_prefix "set())"
                  (String.concat ", " (map quote (n :: names))
                   ++ String ")" rest) = None).
  { rewrite Ht. reflexivity. }
  rewrite Hno.
  apply read_names_text; [discriminate | exact Hplain |].
  rewrite string_length_app.
  pose proof (length_names_text (n :: names)). lia.
Qed.

Lemma read_cond_text (c : Cond) (r : string) :
  cond_plain c = true ->
  read_cond (show_cond c ++ String " " r) = Some (c, String " " r).
Proof.
  intros Hplain. unfold read_cond.
  destruct c as [sid | | label | bound | find_state | step |];
    cbn [show_cond cond_plain] in *.
  - rewrite string_app_assoc, strip_prefix_app.
    rewrite read_int_str by reflexivity. reflexivity.
  - reflexivity.
  - unfold quote. rewrite !string_app_assoc.
    change ("reason=" ++ "'" ++ label ++ "'" ++ String " " r)
      with ("reason='" ++ label ++ String "'" (String " " r)).
    assert (H1 : strip_prefix "session="
                   ("reason='" ++ label ++ String "'" (String " " r)) = None)
      by reflexivity.
    assert (H2 : strip_prefix "valid=1"
                   ("reason='" ++ label ++ String "'" (String " " r)) = None)
      by reflexivity.
    rewrite H1, H2, strip_prefix_app, (read_quoted_text label _ Hplain).
    reflexivity.
  - rewrite string_app_assoc.
    assert (H1 : strip_prefix "session="
                   ("retries<" ++ str_of_int bound ++ String " " r) = None)
      by reflexivity.
    assert (H2 : strip_prefix "valid=1"
                   ("retries<" ++ str_of_int bound ++ String " " r) = None)
      by reflexivity.
    assert (H3 : strip_prefix "reason='"
                   ("retries<" ++ str_of_int bound ++ String " " r) = None)
      by reflexivity.
    rewrite H1, H2, H3, strip_prefix_app.
    rewrite read_int_str by reflexivity. reflexivity.
  - rewrite !string_app_assoc.
    change (")" ++ String " " r) with (String ")" (String " " r)).
    set (text := show_state_set find_state ++ String ")" (String " " r)).
    assert (H1 : strip_prefix "session=" ("state in (" ++ text) = None)
      by reflexivity.
    assert (H2 : strip_prefix "valid=1" ("state in (" ++ text) = None)
      by reflexivity.
    assert (H3 : strip_prefix "reason='" ("state in (" ++ text) = None)
      by reflexivity.
    assert (H4 : strip_prefix "retries<" ("state in (" ++ text) = None)
      by reflexivity.
    rewrite H1, H2, H3, H4, strip_prefix_app. unfold text.
    rewrite (read_states_text find_state _ Hplain). reflexivity.
  - rewrite !string_app_assoc.
    set (pat := "%" ++ step ++ "%").
    assert (E : "fin_step like '%" ++ step ++ "%'" ++ String " " r
                = "fin_step like '" ++ pat ++ String "'" (String " " r)).
    { unfold pat. simpl. rewrite string_app_assoc. reflexivity. }
    rewrite E. clear E.
    assert (Hpat : no_quote pat = true).
    { unfold pat. simpl. clear - Hplain.
      induction step as [| c step IH]; simpl in *; [reflexivity |].
      apply andb_true_iff in Hplain. destruct Hplain as [-> Hs].
      simpl. exact (IH Hs). }
    set (text := pat ++ String "'" (String " " r)).
    assert (H1 : strip_prefix "session=" ("fin_step like '" ++ text) = None)
      by reflexivity.
    assert (H2 : strip_prefix "valid=1" ("fin_step like '" ++ text) = None)
      by reflexivity.
    assert (H3 : strip_prefix "reason='" ("fin_step like '" ++ text) = None)
      by reflexivity.
    assert (H4 : strip_prefix "retries<" ("fin_step like '" ++ text) = None)
      by reflexivity.
    assert (H5 : strip_prefix "state in (" ("fin_step like '" ++ text) = None)
      by reflexivity.
    rewrite H1, H2, H3, H4, H5, strip_prefix_app. unfold text.
    rewrite (read_quoted_text pat _ Hpat). unfold pat.
    rewrite like_step_pattern. reflexivity.
  - reflexivity.
Qed.


Lemma show_cond_starts (c : Cond) : exists a t, show_cond c = String a t.
Proof. destruct c; simpl; eexists; eexists; reflexivity. Qed.

Lemma conds_text_starts (conds : list Cond) :
  conds <> [] ->
  exists a t, String.concat " AND " (map show_cond conds) = String a t.
Proof.
  destruct conds as [| c conds]; [congruence |]. intros _.
  destruct (show_cond_starts c) as (a & t & E).
  destruct conds as [| c' conds]; simpl map; cbn [String.concat]; rewrite E.
  - eexists; eexists; reflexivity.
  - eexists; eexists; reflexivity.
Qed.

Lemma length_conds_text (conds : list Cond) :
  (List.length conds
   <= String.length (String.concat " AND " (map show_cond conds)))%nat.
Proof.
  induction conds as [| c conds IH]; [simpl; lia |].
  destruct (show_cond_starts c) as (a & t & E).
  destruct conds as [| c' conds].
  - simpl map. cbn [String.concat]. rewrite E. simpl. lia.
  - change (String.concat " AND " (map show_cond (c :: c' :: conds)))
      with (show_cond c ++ " AND "
            ++ String.concat " AND " (map show_cond (c' :: conds))).
    rewrite !string_length_app, E.
    change (String.length " AND ") with 5%nat.
    cbn [String.length List.length] in *. lia.
Qed.

Lemma read_conds_text (conds : list Cond) (r : string) :
  conds <> [] -> forallb cond_plain conds = true ->
  forall fuel, (List.length conds <= fuel)%nat ->
  read_conds fuel (String.concat " AND " (map show_cond conds)
                   ++ String " " (String "O" r))
  = Some (conds, String " " (String "O" r)).
Proof.
  induction conds as [| c conds IH]; [congruence |].
  intros _ Hplain fuel Hfuel. simpl in Hplain.
  apply andb_true_iff in Hplain. destruct Hplain as [Hc Hconds].
  destruct fuel as [| fuel]; [simpl in Hfuel; lia |].
  destruct conds as [| c' conds].
  - simpl map. cbn [String.concat read_conds].
    rewrite (read_cond_text c _ Hc). reflexivity.
  - change (String.concat " AND " (map show_cond (c :: c' :: conds)))
      with (show_cond c ++ " AND "
            ++ String.concat " AND " (map show_cond (c' :: conds))).
    rewrite !string_app_assoc.
    set (more := String.concat " AND " (map show_cond (c' :: conds))
                 ++ String " " (String "O" r)).
    change (" AND " ++ more) with (String " " ("AND " ++ more)).
    cbn [read_conds]. rewrite (read_cond_text c _ Hc).
    change (String " " ("AND " ++ more)) with (" AND " ++ more).
    rewrite (strip_prefix_app " AND " more). unfold more.
    rewrite IH; [reflexivity | discriminate | exact Hconds |].
    simpl in Hfuel |- *. lia.
Qed.

(** What [compose_work_objs] puts after the conditions. *)
Let tail_text (limit : option Z) : string :=
  match limit with
  | Some n => " ORDER BY retries,config ASC LIMIT " ++ str_of_int n
              ++ " FOR UPDATE SKIP LOCKED"
  | None => " ORDER BY retries,config ASC FOR UPDATE SKIP LOCKED"
  end.

Lemma read_tail_text (limit : option Z) :
  read_tail (tail_text limit) = Some limit.
Proof.
  destruct limit as [n |]; [| reflexivity].
  unfold read_tail, tail_text.
  set (more := str_of_int n ++ " FOR UPDATE SKIP LOCKED").
  change (" ORDER BY retries,config ASC LIMIT " ++ more)
    with (" ORDER BY retries,config ASC" ++ " LIMIT " ++ more).
  rewrite (strip_prefix_app " ORDER BY retries,config ASC" (" LIMIT " ++ more)).
  assert (Hne : String.eqb (" LIMIT " ++ more) " FOR UPDATE SKIP LOCKED"
                = false) by reflexivity.
  rewrite Hne, (strip_prefix_app " LIMIT " more). unfold more.
  rewrite read_int_str by reflexivity.
  rewrite String.eqb_refl. reflexivity.
Qed.

Lemma show_select_text (q : Select) :
  sel_conds q <> [] ->
  show_select q
  = "WHERE " ++ String.concat " AND " (map show_cond (sel_conds q))
    ++ tail_text (sel_limit q).
Proof.
  intros Hne. unfold show_select, tail_text.
  destruct (conds_text_starts (sel_conds q) Hne) as (a & t & E).
  rewrite E. cbv zeta.
  destruct (sel_limit q); rewrite string_app_assoc; reflexivity.
Qed.

(** The store reads a statement with plain values as it was written. *)
Lemma read_statement_show (q : Select) :
  sel_conds q <> [] -> forallb cond_plain (sel_conds q) = true ->
  read_statement (show_select q) = Some q.
Proof.
  intros Hne Hplain. rewrite (show_select_text q Hne).
  unfold read_statement.
  rewrite (strip_prefix_app "WHERE "
             (String.concat " AND " (map show_cond (sel_conds q))
              ++ tail_text (sel_limit q))).
  assert (Ht : exists r, tail_text (sel_limit q) = String " " (String "O" r)).
  { unfold tail_text. destruct (sel_limit q); eexists; reflexivity. }
  destruct Ht as [r Ht].
  rewrite Ht at 1 2.
  rewrite (read_conds_text (sel_conds q) r Hne Hplain).
  - rewrite <- Ht, read_tail_text. destruct q; reflexivity.
  - rewrite string_length_app.
    pose proof (length_conds_text (sel_conds q)). lia.
Qed.

Lemma plain_name_no_quote (s : string) : plain_name s = true -> no_quote s = true.
Proof.
  induction s as [| c s IH]; simpl; [reflexivity |]. intros H.
  repeat (apply andb_true_iff in H; destruct H as [H ?]).
  rewrite IH by assumption.
  repeat (apply andb_true_iff; split); assumption || reflexivity.
Qed.

Lemma claim_conds_plain max_job_retries find_state label session_id fin_steps :
  plain_values find_state label fin_steps = true ->
  forallb cond_plain
          (claim_conds max_job_retries find_state label session_id fin_steps)
  = true.
Proof.
  unfold plain_values, claim_conds. intros H.
  apply andb_true_iff in H. destruct H as [H Hstep].
  apply andb_true_iff in H. destruct H as [Hstates Hlabel].
  assert (Hs : forallb no_quote find_state = true).
  { rewrite forallb_forall in *. intros x Hx.
    apply plain_name_no_quote, Hstates, Hx. }
  destruct (truthy_str label) as [l |];
    destruct fin_steps as [[| step steps] |]; simpl;
    rewrite ?Hlabel, ?Hs, ?Hstep; reflexivity.
Qed.

Lemma claim_conds_eligible max_job_retries sess find_state label session_id
    fin_steps (j : Job) :
  forallb (fun c => eval_cond c j)
          (claim_conds max_job_retries find_state label session_id fin_steps)
  && negb (is_locked sess j)
  = eligible max_job_retries sess find_state label session_id fin_steps j.
Proof.
  unfold claim_conds, eligible.
  destruct (truthy_str label) as [l |];
    destruct fin_steps as [[| step steps] |]; simpl; btauto.
Qed.

Lemma claim_statement_ok max_job_retries find_state label session_id fin_steps
    limit :
  statement_ok
    (mkSelect (claim_conds max_job_retries find_state label session_id
                           fin_steps) limit)
  = claim_accepted find_state limit.
Proof.
  unfold statement_ok, claim_conds, claim_accepted.
  destruct (truthy_str label) as [l |];
    destruct fin_steps as [[| step steps] |];
    destruct find_state; reflexivity.
Qed.

(** The text a claim sends is that of its conditions. *)
Lemma get_job_objs_text foreign max_job_retries sess find_state label
    session_id claim_num fin_steps :
  get_job_objs foreign max_job_retries sess find_state label session_id
               claim_num fin_steps
  = gen_select_objs foreign sess
      (show_select
         (mkSelect (claim_conds max_job_retries find_state label session_id
                                fin_steps)
                   (truthy_int claim_num))).
Proof.
  unfold get_job_objs, compose_work_objs, claim_conds, show_select.
  destruct (truthy_str label) as [l |];
    destruct fin_steps as [[| step steps] |];
    destruct (truthy_int claim_num); reflexivity.
Qed.

Lemma filter_ext_eq {A : Type} (f g : A -> bool) (l : list A) :
  (forall x, f x = g x) -> filter f l = filter g l.
Proof.
  intros H. induction l as [| a l IH]; simpl; [reflexivity |].
  rewrite H, IH. reflexivity.
Qed.

(** What a claim with plain values answers: nothing when the store raises or
    rejects the statement, and otherwise the eligible rows in claim order,
    cut at the batch size. *)
Lemma get_job_objs_answer foreign max_job_retries sess find_state label
    session_id claim_num fin_steps :
  plain_values find_state label fin_steps = true ->
  fst (get_job_objs foreign max_job_retries sess find_state label session_id
                    claim_num fin_steps)
  = match fst (next_fault sess) with
    | Some _ => None
    | None =>
        if claim_accepted find_state (truthy_int claim_num) then
          Some (apply_limit (truthy_int claim_num)
                  (order_by_retries_config
                     (filter (eligible max_job_retries sess find_state label
                                       session_id fin_steps)
                             (job_table (working sess)))))
        else None
    end.
Proof.
  intros Hplain. rewrite get_job_objs_text.
  unfold gen_select_objs, get_job_rows, execute.
  rewrite read_statement_show;
    [| unfold claim_conds; simpl; destruct (truthy_str label); discriminate
     | apply claim_conds_plain; exact Hplain ].
  unfold execute_select. rewrite claim_statement_ok. cbn [sel_conds sel_limit].
  assert (Hm : forall sess', working sess' = working sess ->
                             locked sess' = locked sess ->
            matching_rows sess'
              (claim_conds max_job_retries find_state label session_id
                           fin_steps)
            = filter (eligible max_job_retries sess find_state label session_id
                               fin_steps) (job_table (working sess))).
  { intros sess' Hw Hl. unfold matching_rows. rewrite Hw.
    apply filter_ext_eq. intros j. rewrite <- claim_conds_eligible.
    unfold is_locked. rewrite Hl. reflexivity. }
  unfold next_fault.
  destruct (faults sess) as [| [e |] rest]; simpl;
    try reflexivity;
    (destruct (claim_accepted find_state (truthy_int claim_num)); simpl;
     [rewrite db_rows_to_obj_same, Hm; reflexivity | reflexivity]).
Qed.

Lemma claimed_rows_answer foreign max_job_retries sess find_state label
    session_id claim_num fin_steps :
  plain_values find_state label fin_steps = true ->
  let rows := claimed_rows
                (fst (get_job_objs foreign max_job_retries sess find_state
                                   label session_id claim_num fin_steps)) in
  rows = []
  \/ rows = apply_limit (truthy_int claim_num)
              (order_by_retries_config
                 (filter (eligible max_job_retries sess find_state label
                                   session_id fin_steps)
                         (job_table (working sess)))).
Proof.
  intros Hplain. cbv zeta. rewrite get_job_objs_answer by exact Hplain.
  destruct (fst (next_fault sess)); [left; reflexivity |].
  destruct (claim_accepted _ _); [right | left]; reflexivity.
Qed.

End ClaimFacts.


(** The statement a claim sends, for session 1, the states of an evaluation,
    the label [tune], a batch of 3 and the step [miopen_find_eval], and what
    the store reads it as. *)
Example claim_statement_text :
  forall foreign sess,
    get_job_objs foreign 10 sess ["new"; "compiled"] (Some "tune") 1 (Some 3)
                 (Some ["miopen_find_eval"])
    = gen_select_objs foreign sess
        "WHERE session=1 AND valid=1 AND reason='tune' AND retries<10 AND state in ('new', 'compiled') AND fin_step like '%miopen_find_eval%' ORDER BY retries,config ASC LIMIT 3 FOR UPDATE SKIP LOCKED"
    /\ read_statement
         "WHERE session=1 AND valid=1 AND reason='tune' AND retries<10 AND state in ('new', 'compiled') AND fin_step like '%miopen_find_eval%' ORDER BY retries,config ASC LIMIT 3 FOR UPDATE SKIP LOCKED"
       = Some (mkSelect [CondSession 1; CondValid; CondReason "tune";
                         CondRetries 10; CondStateIn ["new"; "compiled"];
                         CondFinStepLike "miopen_find_eval"] (Some 3)).
Proof.
  intros foreign sess. split; [reflexivity | vm_compute; reflexivity].
Qed.




(** C4, as the code has it.  When the label, the fin step and the names of
    the states hold no quote and no backslash (and the names are of
    printable characters), every job row a claim returns is valid, belongs
    to the given session, is in one of the acceptable states, is strictly
    below the retry ceiling, has the label as its reason when a label is
    given, and passes the fin-step filter: its fin step matches [%step%] for
    the given step, or is [not_fin] when no step is given. *)
Theorem claimed_rows_satisfy_filters :
  forall foreign max_job_retries sess find_state label session_id claim_num
         fin_steps j,
    plain_values find_state label fin_steps = true ->
    In j (claimed_rows (fst (get_job_objs foreign max_job_retries sess
                                          find_state label session_id
                                          claim_num fin_steps))) ->
    valid j = 1
    /\ session j = session_id
    /\ In (state j) find_state
    /\ retries j < max_job_retries
    /\ (forall l, truthy_str label = Some l -> reason j = l)
    /\ match fin_steps with
       | Some (step :: _) => sql_like ("%" ++ step ++ "%") (fin_step j) = true
       | _ => fin_step j = "not_fin"
       end.
Proof.
  intros foreign max_job_retries sess find_state label session_id claim_num
         fin_steps j Hplain Hin.
  destruct (claimed_rows_answer foreign max_job_retries sess find_state label
              session_id claim_num fin_steps Hplain) as [H | H];
    cbv zeta in H; rewrite H in Hin; [destruct Hin |].
  apply In_apply_limit, In_order_by, filter_In in Hin.
  destruct Hin as [_ Hel]. unfold eligible in Hel.
  repeat (apply andb_true_iff in Hel; destruct Hel as [Hel ?]).
  repeat split.
  - apply Z.eqb_eq. assumption.
  - apply Z.eqb_eq. assumption.
  - match goal with
    | Hs : existsb _ find_state = true |- _ =>
        apply existsb_exists in Hs; destruct Hs as (st & Hst & Heq);
        apply String.eqb_eq in Heq; rewrite Heq; exact Hst
    end.
  - apply Z.ltb_lt. assumption.
  - intros l Hl.
    match goal with
    | Hr : match truthy_str label with _ => _ end = true |- _ =>
        rewrite Hl in Hr; apply String.eqb_eq; exact Hr
    end.
  - destruct fin_steps as [[| step steps] |];
      try (apply String.eqb_eq); assumption.
Qed.

Lemma claimed_rows_satisfy_filters_witness :
  valid (eval_job 2 2 0) = 1
  /\ session (eval_job 2 2 0) = 1
  /\ In (state (eval_job 2 2 0)) ["new"; "compiled"]
  /\ retries (eval_job 2 2 0) < 3
  /\ (forall l, truthy_str (Some "tune") = Some l -> reason (eval_job 2 2 0) = l)
  /\ sql_like ("%" ++ "miopen_find_eval" ++ "%") (fin_step (eval_job 2 2 0))
     = true.
Proof.
  apply (claimed_rows_satisfy_filters strict_store 3
           (session_of (three_jobs 1 2 3))
           ["new"; "compiled"] (Some "tune") 1 (Some 3)
           (Some ["miopen_find_eval"]) (eval_job 2 2 0)).
  - reflexivity.
  - vm_compute. left. reflexivity.
Defined.

(** C4 as stated fails for a label with a quote in it: the label
    [tune' AND valid=1 AND reason='tune] ends the quoted text early, the
    store reads [reason='tune' AND valid=1 AND reason='tune'], and the claim
    returns rows whose reason is [tune], not the label.  It fails for a fin
    step with a quote in the same way: after the step
    [miopen_find_eval%' AND fin_step like '%miopen] the store reads two
    patterns, and the claim returns rows whose fin step does not match the
    step. *)
Lemma quoted_label_claims_other_reason :
  (let label := "tune' AND valid=1 AND reason='tune" in
   let rows :=
     claimed_rows (fst (get_job_objs strict_store 3
                                     (session_of (three_jobs 1 2 3))
                                     ["new"; "compiled"] (Some label) 1
                                     (Some 3) (Some ["miopen_find_eval"]))) in
   In (eval_job 2 2 0) rows
   /\ truthy_str (Some label) = Some label
   /\ reason (eval_job 2 2 0) <> label)
  /\ (let step := "miopen_find_eval%' AND fin_step like '%miopen" in
      let rows :=
        claimed_rows (fst (get_job_objs strict_store 3
                                        (session_of (three_jobs 1 2 3))
                                        ["new"; "compiled"] (Some "tune") 1
                                        (Some 3) (Some [step]))) in
      In (eval_job 2 2 0) rows
      /\ sql_like ("%" ++ step ++ "%") (fin_step (eval_job 2 2 0)) = false).
Proof.
  cbv zeta. split.
  - split; [vm_compute; left; reflexivity |].
    split; [reflexivity | discriminate].
  - split; [vm_compute; left; reflexivity | vm_compute; reflexivity].
Qed.




(* ===================================================================== *)
(** * Properties of result ingestion *)
(* ===================================================================== *)

Section IngestionFacts.

Lemma lookup_job_id (t : Tables) (jid : Z) (row : Job) :
  lookup_job t jid = Some row -> id row = jid.
Proof.
  unfold lookup_job. intros H. apply find_some in H.
  destruct H as [_ H]. apply Z.eqb_eq. exact H.
Qed.

Lemma find_map_keep_id (upd : Job -> Job) (jid : Z) (l : list Job) :
  (forall row, id (upd row) = id row) ->
  find (fun j => id j =? jid) (map upd l)
  = option_map upd (find (fun j => id j =? jid) l).
Proof.
  intros Hid. induction l as [| a l IH]; simpl; [reflexivity |].
  rewrite Hid. destruct (id a =? jid); [reflexivity | exact IH].
Qed.

Lemma set_job_state_synced sess job st incr res :
  working (set_job_state sess job st incr res)
  = committed (set_job_state sess job st incr res).
Proof. reflexivity. Qed.

Lemma set_job_state_lookup sess job st incr res jid :
  lookup_job (committed (set_job_state sess job st incr res)) jid
  = option_map
      (fun row =>
         if id row =? id job then
           with_state row st (if incr then retries job + 1 else retries row) res
         else row)
      (lookup_job (working sess) jid).
Proof.
  unfold set_job_state, lookup_job. simpl.
  apply find_map_keep_id. intros row.
  destruct (id row =? id job); reflexivity.
Qed.

Lemma set_job_state_same sess job st incr res row :
  lookup_job (working sess) (id job) = Some row ->
  lookup_job (committed (set_job_state sess job st incr res)) (id job)
  = Some (with_state row st (if incr then retries job + 1 else retries row) res).
Proof.
  intros H. rewrite set_job_state_lookup, H. simpl.
  rewrite (lookup_job_id _ _ _ H), Z.eqb_refl. reflexivity.
Qed.

Lemma set_job_state_other sess job st incr res jid :
  jid <> id job ->
  lookup_job (committed (set_job_state sess job st incr res)) jid
  = lookup_job (working sess) jid.
Proof.
  intros Hne. rewrite set_job_state_lookup.
  destruct (lookup_job (working sess) jid) as [row |] eqn:E; [| reflexivity].
  simpl. rewrite (lookup_job_id _ _ _ E).
  destruct (jid =? id job) eqn:E'; [apply Z.eqb_eq in E'; contradiction |].
  reflexivity.
Qed.

Lemma set_job_state_other_tables sess job st incr res :
  find_db_table (committed (set_job_state sess job st incr res))
  = find_db_table (working sess)
  /\ fin_cache_table (committed (set_job_state sess job st incr res))
     = fin_cache_table (working sess)
  /\ results_table (committed (set_job_state sess job st incr res))
     = results_table (working sess).
Proof. repeat split. Qed.

Lemma rollback_in_transaction (f : Tables -> Tables) (sess : DbSession) :
  rollback (in_transaction f sess) = rollback sess.
Proof. reflexivity. Qed.

Lemma errored_after_rollback sess job :
  rolled_back_to_errored sess job
    (set_job_state (rollback sess) job "errored" false "").
Proof.
  unfold rolled_back_to_errored. repeat split.
  - intros row Hrow. eexists. split.
    + apply set_job_state_same. exact Hrow.
    + split; reflexivity.
  - intros jid Hne. apply set_job_state_other. exact Hne.
Qed.

(** C1, as the code has it.  When the store raises a transient (operational)
    error during the update of an eval-result ingestion, the transaction is
    rolled back, so that what the ingestion wrote is gone, and the job is
    then recorded as [errored] in a transaction of its own: its state becomes
    [errored], its retries stay as they were, and the ingestion returns
    [True].  The ingestion of compile results does the same. *)
Theorem transient_error_rolls_back_then_sets_errored :
  forall sess fin_json context ing,
    truthy_json fin_json = true ->
    outcome ing = inl OperationalError ->
    (json_has "miopen_find_eval_result" fin_json
     || json_has "miopen_perf_eval_result" fin_json = true ->
     exists after,
       process_eval_results sess fin_json context ing = (Return true, after)
       /\ rolled_back_to_errored sess (ctx_job context) after)
    /\ (exists after,
          process_compile_results sess fin_json context ing
          = (Return true, after)
          /\ rolled_back_to_errored sess (ctx_job context) after).
Proof.
  intros sess fin_json context ing Hjson Hout. split.
  - intros Hkey. eexists. split.
    + unfold process_eval_results. rewrite Hjson, Hkey, Hout.
      rewrite rollback_in_transaction. reflexivity.
    + apply errored_after_rollback.
  - eexists. split.
    + unfold process_compile_results. rewrite Hjson, Hout.
      destruct (json_has "miopen_find_compile_result" fin_json
                || json_has "miopen_perf_compile_result" fin_json);
        rewrite ?rollback_in_transaction; reflexivity.
    + apply errored_after_rollback.
Qed.

Lemma transient_error_rolls_back_then_sets_errored_witness :
  (json_has "miopen_find_eval_result" eval_payload
   || json_has "miopen_perf_eval_result" eval_payload = true ->
   exists after,
     process_eval_results claimed_session eval_payload claimed_context
                          contention = (Return true, after)
     /\ rolled_back_to_errored claimed_session (ctx_job claimed_context) after)
  /\ (exists after,
        process_compile_results claimed_session eval_payload claimed_context
                                contention = (Return true, after)
        /\ rolled_back_to_errored claimed_session (ctx_job claimed_context)
                                  after).
Proof.
  apply transient_error_rolls_back_then_sets_errored; reflexivity.
Defined.

(** C1 as stated fails: the job claimed in state [eval_start] is in state
    [errored] after an ingestion during which the store raised a contention
    error. *)
Lemma transient_error_changes_state :
  let after :=
    snd (process_eval_results claimed_session eval_payload claimed_context
                              contention) in
  lookup_job (committed claimed_session) 7 = Some claimed_job
  /\ exists row,
       lookup_job (committed after) 7 = Some row
       /\ state row = "errored"
       /\ state row <> state claimed_job.
Proof.
  split; [reflexivity |].
  eexists. split; [reflexivity |]. split; [reflexivity | discriminate].
Qed.

Lemma ingest_eval_failed sess jid row run :
  lookup_job (working sess) jid = Some row ->
  eval_failed run = true ->
  exists res,
    working (ingest_eval sess jid run) = committed (ingest_eval sess jid run)
    /\ lookup_job (committed (ingest_eval sess jid run)) jid
       = Some (if retries row >=? MAX_ERRORED_JOB_RETRIES - 1
               then with_state row "errored" (retries row) res
               else with_state row "compiled" (retries row + 1) res).
Proof.
  intros Hrow Hfail. pose proof (lookup_job_id _ _ _ Hrow) as Hid.
  subst jid.
  assert (Hstep : forall s res,
            lookup_job (working s) (id row) = Some row ->
            let s' := if retries row >=? MAX_ERRORED_JOB_RETRIES - 1
                      then set_job_state s row "errored" false res
                      else set_job_state s row "compiled" true res in
            working s' = committed s'
            /\ lookup_job (committed s') (id row)
               = Some (if retries row >=? MAX_ERRORED_JOB_RETRIES - 1
                       then with_state row "errored" (retries row) res
                       else with_state row "compiled" (retries row + 1) res)).
  { intros s res Hs.
    destruct (retries row >=? MAX_ERRORED_JOB_RETRIES - 1); cbv zeta;
      (split; [reflexivity | apply set_job_state_same; exact Hs]). }
  unfold ingest_eval. rewrite Hrow.
  unfold eval_failed, is_eval_result in Hfail.
  destruct run as [fin_json ing].
  cbn [fst snd] in *.
  unfold process_eval_results. cbn [ctx_job].
  destruct (truthy_json fin_json); cbn [negb orb andb] in Hfail.
  - apply andb_true_iff in Hfail. destruct Hfail as [Hkey Hout].
    rewrite Hkey.
    destruct (outcome ing) as [e | [[|] res]]; try discriminate.
    exists res. cbn [snd negb]. apply Hstep. exact Hrow.
  - exists "". cbn [snd]. apply Hstep. exact Hrow.
Qed.

Lemma ingest_eval_succeeded sess jid row run :
  lookup_job (working sess) jid = Some row ->
  eval_succeeded run = true ->
  exists res,
    working (ingest_eval sess jid run) = committed (ingest_eval sess jid run)
    /\ lookup_job (committed (ingest_eval sess jid run)) jid
       = Some (with_state row "evaluated" (retries row) res).
Proof.
  intros Hrow Hok. pose proof (lookup_job_id _ _ _ Hrow) as Hid.
  unfold ingest_eval. rewrite Hrow.
  unfold eval_succeeded, is_eval_result in Hok.
  destruct run as [fin_json ing]. simpl in *.
  unfold process_eval_results. simpl.
  apply andb_true_iff in Hok. destruct Hok as [Hk Hout].
  apply andb_true_iff in Hk. destruct Hk as [Hjson Hkey].
  rewrite Hjson, Hkey.
  destruct (outcome ing) as [e | [[|] res]]; try discriminate.
  exists res. simpl. split; [reflexivity |].
  unfold clean_cache_table, lookup_job. simpl.
  rewrite find_map_keep_id
    by (intros r; destruct (id r =? id row); reflexivity).
  fold (lookup_job (working sess) jid). rewrite Hrow. simpl.
  rewrite Hid, Z.eqb_refl. reflexivity.
Qed.

(** C2, as the code has it.  A failed evaluation of a job whose retries are
    below 2 (the ceiling of 3 less one) puts the job back to [compiled] and
    adds one to its retries; a failed evaluation of a job whose retries have
    reached 2 moves it to [errored] and leaves its retries as they are; a
    successful evaluation moves it to [evaluated].  So a job that starts
    with no retries and fails three times in a row ends [errored] with
    retries 2, and one that fails twice and then succeeds ends [evaluated]
    with retries 2. *)
Theorem eval_retry_ceiling :
  forall sess jid row,
    lookup_job (working sess) jid = Some row ->
    (forall run,
       eval_failed run = true ->
       exists row',
         lookup_job (committed (ingest_eval sess jid run)) jid = Some row'
         /\ (retries row < MAX_ERRORED_JOB_RETRIES - 1 ->
             state row' = "compiled" /\ retries row' = retries row + 1)
         /\ (MAX_ERRORED_JOB_RETRIES - 1 <= retries row ->
             state row' = "errored" /\ retries row' = retries row))
    /\ (forall run,
          eval_succeeded run = true ->
          exists row',
            lookup_job (committed (ingest_eval sess jid run)) jid = Some row'
            /\ state row' = "evaluated" /\ retries row' = retries row)
    /\ (retries row = 0 ->
        forall r1 r2 r3,
          eval_failed r1 = true -> eval_failed r2 = true ->
          eval_failed r3 = true ->
          exists row',
            lookup_job (committed (ingest_evals sess jid [r1; r2; r3])) jid
            = Some row'
            /\ state row' = "errored" /\ retries row' = 2)
    /\ (retries row = 0 ->
        forall r1 r2 r3,
          eval_failed r1 = true -> eval_failed r2 = true ->
          eval_succeeded r3 = true ->
          exists row',
            lookup_job (committed (ingest_evals sess jid [r1; r2; r3])) jid
            = Some row'
            /\ state row' = "evaluated" /\ retries row' = 2).
Proof.
  intros sess jid row Hrow.
  assert (Hone : forall s r run,
            lookup_job (working s) jid = Some r ->
            eval_failed run = true ->
            exists r',
              lookup_job (working (ingest_eval s jid run)) jid = Some r'
              /\ (retries r < 2 ->
                  state r' = "compiled" /\ retries r' = retries r + 1)
              /\ (2 <= retries r ->
                  state r' = "errored" /\ retries r' = retries r)).
  { intros s r run Hr Hf.
    destruct (ingest_eval_failed s jid r run Hr Hf) as (res & Hsync & Hl).
    rewrite Hsync, Hl. change (MAX_ERRORED_JOB_RETRIES - 1) with 2.
    eexists. split; [reflexivity |].
    destruct (retries r >=? 2) eqn:E.
    - apply Z.geb_le in E. split; [lia | intros _; split; reflexivity].
    - rewrite Z.geb_leb in E. apply Z.leb_gt in E.
      split; [intros _; split; reflexivity | lia]. }
  assert (Htwo : retries row = 0 ->
            forall r1 r2,
              eval_failed r1 = true -> eval_failed r2 = true ->
              exists r',
                lookup_job
                  (working (ingest_eval (ingest_eval sess jid r1) jid r2)) jid
                = Some r'
                /\ retries r' = 2).
  { intros H0 r1 r2 H1 H2.
    destruct (Hone sess row r1 Hrow H1) as (ra & Hla & Ha & _).
    destruct (Ha ltac:(lia)) as [_ Hra].
    destruct (Hone _ ra r2 Hla H2) as (rb & Hlb & Hb & _).
    destruct (Hb ltac:(lia)) as [_ Hrb].
    exists rb. split; [exact Hlb | lia]. }
  repeat split.
  - intros run Hf.
    destruct (ingest_eval_failed sess jid row run Hrow Hf) as (res & Hsync & Hl).
    destruct (Hone sess row run Hrow Hf) as (r' & Hl' & H).
    exists r'. rewrite <- Hsync. split; [exact Hl' | exact H].
  - intros run Hs.
    destruct (ingest_eval_succeeded sess jid row run Hrow Hs)
      as (res & _ & Hl).
    eexists. split; [exact Hl | split; reflexivity].
  - intros H0 r1 r2 r3 H1 H2 H3.
    destruct (Htwo H0 r1 r2 H1 H2) as (rb & Hlb & Hrb).
    destruct (ingest_eval_failed _ jid rb r3 Hlb H3) as (res & _ & Hl).
    destruct (Hone _ rb r3 Hlb H3) as (rc & Hlc & _ & Hc).
    destruct (Hc ltac:(lia)) as [Hst Hrc].
    exists rc. unfold ingest_evals. cbn [fold_left].
    destruct (ingest_eval_failed _ jid rb r3 Hlb H3) as (res' & Hsync & _).
    rewrite <- Hsync. split; [exact Hlc | split; [exact Hst | lia]].
  - intros H0 r1 r2 r3 H1 H2 H3.
    destruct (Htwo H0 r1 r2 H1 H2) as (rb & Hlb & Hrb).
    destruct (ingest_eval_succeeded _ jid rb r3 Hlb H3) as (res & _ & Hl).
    eexists. unfold ingest_evals. cbn [fold_left].
    split; [exact Hl | split; [reflexivity | exact Hrb]].
Qed.

Lemma eval_retry_ceiling_witness :
  exists row',
    lookup_job
      (committed (ingest_evals claimed_session 7 [failure; failure; success]))
      7 = Some row'
    /\ state row' = "evaluated" /\ retries row' = 2.
Proof.
  apply (proj2 (proj2 (proj2
           (eval_retry_ceiling claimed_session 7 claimed_job eq_refl))));
    reflexivity.
Defined.

(** C2 as stated fails: after three failed evaluations in a row the job is
    [errored] with retries 2, not 3. *)
Lemma three_failures_leave_two_retries :
  exists row,
    lookup_job
      (committed (ingest_evals claimed_session 7 [failure; failure; failure]))
      7 = Some row
    /\ state row = "errored"
    /\ retries row = 2
    /\ retries row <> 3.
Proof.
  eexists. split; [reflexivity |].
  split; [reflexivity |]. split; [reflexivity | discriminate].
Qed.

End IngestionFacts.

(* ===================================================================== *)
(** * Properties of the retry helper *)
(* ===================================================================== *)

Section RetryFacts.

Context {C A : Type}.
Variable callback : C.
Variable actuator : C -> World -> Completion A * World.

Lemma randint_range (a b : Z) (w : World) :
  a <= b -> a <= fst (randint a b w) <= b.
Proof.
  intros Hab. unfold randint. destruct (entropy w) as [| r rest]; simpl.
  - lia.
  - pose proof (Z.mod_pos_bound r (b - a + 1) ltac:(lia)). lia.
Qed.

Lemma backoff_effects (w : World) :
  exists secs,
    1 <= secs <= 30
    /\ events (backoff w)
       = (events w ++ [Warned "DB contention sleeping"; RolledBack; Slept secs])%list
    /\ db (backoff w) = rollback (db w).
Proof.
  unfold backoff.
  set (w1 := session_rollback (emit (Warned "DB contention sleeping") w)).
  pose proof (randint_range 1 30 w1 ltac:(lia)) as Hr.
  destruct (randint 1 30 w1) as [secs w2] eqn:E. simpl in Hr.
  exists secs. split; [exact Hr |].
  unfold randint in E. subst w1.
  destruct (entropy _) as [| r rest] eqn:Ee in E; injection E as <- <-; simpl;
    rewrite <- !app_assoc; split; reflexivity.
Qed.

Lemma loop_after_failures (k todo : nat) (w wk : World) :
  after_failures k w callback actuator = Some wk ->
  session_retry_loop (k + todo) w callback actuator
  = session_retry_loop todo wk callback actuator.
Proof.
  revert w. induction k as [| k IH]; intros w H; simpl in *.
  - injection H as <-. reflexivity.
  - destruct (actuator callback w) as [[v | e] w']; try discriminate.
    destruct e; try discriminate; apply IH; exact H.
Qed.

Lemma after_failures_next (k : nat) (w wk w' : World) :
  after_failures k w callback actuator = Some wk ->
  actuator callback wk = (Raise OperationalError, w')
  \/ actuator callback wk = (Raise PymysqlOperationalError, w') ->
  after_failures (S k) w callback actuator = Some (backoff w').
Proof.
  revert w. induction k as [| k IH]; intros w H Hact.
  - simpl in H. injection H as <-. simpl.
    destruct Hact as [-> | ->]; reflexivity.
  - simpl in H. change (after_failures (S (S k)) w callback actuator)
      with (match actuator callback w with
            | (Raise OperationalError, w0) =>
                after_failures (S k) (backoff w0) callback actuator
            | (Raise PymysqlOperationalError, w0) =>
                after_failures (S k) (backoff w0) callback actuator
            | _ => None
            end).
    destruct (actuator callback w) as [[v | e] w0]; try discriminate.
    destruct e; try discriminate; apply IH; assumption.
Qed.

End RetryFacts.

(** C5.  [session_retry] on an integrity error rolls back and returns [False]
    at once, with no further attempt; on a transient operational error it
    rolls back, sleeps a random 1 to 30 seconds and goes on to the next
    attempt, as long as attempts are left of the fixed number; when all the
    attempts have failed it returns [False]; and on the first attempt that
    succeeds it returns what the callback returned. *)
Theorem session_retry_policy :
  forall (C A : Type) (NUM_SQL_RETRIES : nat) (w : World) (callback : C)
         (actuator : C -> World -> Completion A * World),
    (forall k wk w',
       (k < NUM_SQL_RETRIES)%nat ->
       after_failures k w callback actuator = Some wk ->
       actuator callback wk = (Raise IntegrityError, w') ->
       session_retry NUM_SQL_RETRIES w callback actuator
       = (Return PyFalse, session_rollback (emit (Errored "Query failed") w')))
    /\ (forall k wk w',
          (k < NUM_SQL_RETRIES)%nat ->
          after_failures k w callback actuator = Some wk ->
          actuator callback wk = (Raise OperationalError, w')
          \/ actuator callback wk = (Raise PymysqlOperationalError, w') ->
          after_failures (S k) w callback actuator = Some (backoff w')
          /\ exists secs,
               1 <= secs <= 30
               /\ events (backoff w')
                  = (events w' ++ [Warned "DB contention sleeping"; RolledBack;
                                   Slept secs])%list
               /\ db (backoff w') = rollback (db w'))
    /\ (forall wN,
          after_failures NUM_SQL_RETRIES w callback actuator = Some wN ->
          session_retry NUM_SQL_RETRIES w callback actuator
          = (Return PyFalse, emit (Errored "All retries have failed.") wN))
    /\ (forall k wk v w',
          (k < NUM_SQL_RETRIES)%nat ->
          after_failures k w callback actuator = Some wk ->
          actuator callback wk = (Return v, w') ->
          session_retry NUM_SQL_RETRIES w callback actuator
          = (Return (Value v), w')).
Proof.
  intros C A N w callback actuator. unfold session_retry.
  repeat split.
  - intros k wk w' Hk Hfail Hact.
    replace N with (k + S (N - S k))%nat by lia.
    rewrite (loop_after_failures callback actuator k _ w wk Hfail).
    simpl. rewrite Hact. reflexivity.
  - apply (after_failures_next callback actuator k w wk w'); assumption.
  - apply backoff_effects.
  - intros wN Hfail.
    replace N with (N + 0)%nat at 1 by lia.
    rewrite (loop_after_failures callback actuator N _ w wN Hfail).
    reflexivity.
  - intros k wk v w' Hk Hfail Hact.
    replace N with (k + S (N - S k))%nat by lia.
    rewrite (loop_after_failures callback actuator k _ w wk Hfail).
    simpl. rewrite Hact. reflexivity.
Qed.

Lemma session_retry_policy_witness :
  exists w',
    session_retry 3
      (world_with (mkTables [] [] [] [])
                  [Some OperationalError; Some PymysqlOperationalError; None])
      one_statement call_it
    = (Return (Value true), w')
    /\ sleeps (events w') = [12; 8]
    /\ rollbacks (events w') = 2%nat.
Proof.
  eexists. split.
  - eapply (proj2 (proj2 (proj2
              (session_retry_policy _ _ 3
                 (world_with (mkTables [] [] [] [])
                    [Some OperationalError; Some PymysqlOperationalError; None])
                 one_statement call_it))) 2%nat);
      [lia | reflexivity | reflexivity].
  - split; reflexivity.
Defined.

(* ===================================================================== *)
(** * Properties of the rocMLIR worker *)
(* ===================================================================== *)

Section WorkerFacts.

Lemma lookup_job_In (t : Tables) (row : Job) :
  In row (job_table t) -> exists r, lookup_job t (id row) = Some r.
Proof.
  unfold lookup_job. induction (job_table t) as [| a l IH]; simpl.
  - intros [].
  - intros [-> | H].
    + rewrite Z.eqb_refl. eauto.
    + destruct (id a =? id row); [eauto | apply IH; exact H].
Qed.

Lemma worker_set_job_state_row (w : World) (job : Job) (st res : string) :
  (exists r, lookup_job (working (db w)) (id job) = Some r) ->
  let w' := worker_set_job_state w job st res in
  (exists r', lookup_job (working (db w')) (id job) = Some r' /\ state r' = st)
  /\ working (db w') = committed (db w')
  /\ results_table (committed (db w')) = results_table (working (db w))
  /\ events w' = (events w ++ [JobStateSet st])%list.
Proof.
  intros [r Hr]. cbv zeta. unfold worker_set_job_state.
  cbn [db emit with_db events entropy].
  split; [| repeat split].
  exists (with_state r st (retries r) res). split.
  - exact (set_job_state_same (db w) job st false res r Hr).
  - reflexivity.
Qed.

Lemma get_job_claimed (wk : Worker) (find_state set_state : string)
    (w w1 : World) (job : Job) :
  get_job wk find_state set_state w = (Some job, w1) ->
  (exists r, lookup_job (working (db w1)) (id job) = Some r)
  /\ working (db w1) = committed (db w1)
  /\ events w1 = events w.
Proof.
  unfold get_job, select_objs, rows_or_none, execute_select.
  destruct (next_fault (db w)) as [[e |] sess'] eqn:Ef.
  - discriminate.
  - cbn [statement_ok sel_conds sel_limit forallb andb Z.leb Z.compare].
    rewrite db_rows_to_obj_same.
    destruct (apply_limit _ _) as [| row rows] eqn:Erows; [discriminate |].
    intros H. injection H as <- <-. simpl.
    assert (Hin : In row (job_table (working sess'))).
    { assert (Hr : In row (row :: rows)) by (left; reflexivity).
      rewrite <- Erows in Hr.
      apply In_apply_limit in Hr. apply (proj1 (In_order_by _ _)) in Hr.
      unfold matching_rows in Hr. apply filter_In in Hr. tauto. }
    destruct (lookup_job_In _ _ Hin) as [r Hr].
    split; [| split; reflexivity].
    exists (with_state r set_state (retries r) "").
    exact (set_job_state_same _ row set_state false "" r Hr).
Qed.

End WorkerFacts.

(** C6.  When the command of a job ends with exit code 0, [step] sets the job
    to [completed] before the result is parsed; and when the parse finds no
    usable data (no perf config, the perf config [None], or tflops [-inf]),
    no result row is inserted, the update of the result table reports success
    at its first attempt, nothing is retried, and the job stays [completed]. *)
Theorem unusable_result_is_tolerated :
  forall NUM_SQL_RETRIES wk parse run_cmd w job w1 cmd_output p,
    (0 < NUM_SQL_RETRIES)%nat ->
    get_job wk "new" "running" w = (Some job, w1) ->
    run_cmd 0%nat = Return (0, cmd_output) ->
    parse (replace_char ":" "\:" cmd_output) = Return p ->
    bad_data p = true ->
    exists w2 w',
      step NUM_SQL_RETRIES wk parse run_cmd w = (Return true, w')
      /\ (exists row,
            lookup_job (committed (db w2)) (id job) = Some row
            /\ state row = "completed")
      /\ process_result NUM_SQL_RETRIES wk job parse
                        (replace_char ":" "\:" cmd_output) w2
         = (Return (Value true), w')
      /\ results_table (committed (db w')) = results_table (committed (db w1))
      /\ (exists row,
            lookup_job (committed (db w')) (id job) = Some row
            /\ state row = "completed")
      /\ events w'
         = (events w ++ [JobStateSet "running"; RanCommand 0;
                         JobStateSet "completed"; ParsedResult;
                         Warned "Bad data, skipping"])%list.
Proof.
  intros NUM wk parse run_cmd w job w1 cmd_output p HN Hget Hrun Hparse Hbad.
  destruct (get_job_claimed _ _ _ _ _ _ Hget) as (Hrow1 & Hsync1 & Hev1).
  set (wa := worker_set_job_state w1 job "running" "").
  destruct (worker_set_job_state_row w1 job "running" "" Hrow1)
    as ((ra & Hra & _) & Hsynca & Hresa & Heva).
  fold wa in Hra, Hsynca, Hresa, Heva.
  set (wb := emit (RanCommand 0) wa).
  set (string := replace_char ":" "\:" cmd_output).
  set (w2 := worker_set_job_state wb job "completed" string).
  assert (Hrowb : exists r, lookup_job (working (db wb)) (id job) = Some r)
    by (exists ra; exact Hra).
  destruct (worker_set_job_state_row wb job "completed" string Hrowb)
    as ((rc & Hrc & Hstc) & Hsync2 & Hres2 & Hev2).
  fold w2 in Hrc, Hsync2, Hres2, Hev2.
  set (w' := emit (Warned "Bad data, skipping") (emit ParsedResult w2)).
  assert (Hupd : update_result_table wk job parse string w2 = (Return true, w')).
  { unfold update_result_table. fold string in Hparse.
    rewrite Hparse, Hbad. reflexivity. }
  assert (Hproc : process_result NUM wk job parse string w2
                  = (Return (Value true), w')).
  { unfold process_result, session_retry.
    destruct NUM as [| n]; [lia |]. simpl. rewrite Hupd. reflexivity. }
  exists w2, w'. repeat split.
  - unfold step. rewrite Hget. fold wa.
    change (retrying 3 0 (attempt NUM wk job parse run_cmd) wa)
      with (match attempt NUM wk job parse run_cmd 0 wa with
            | (Return _, wx) => (Return tt, wx)
            | (Raise e, wx) =>
                let (secs, wy) := randint 5 30 wx in
                retrying 2 1 (attempt NUM wk job parse run_cmd) (sleep secs wy)
            end).
    unfold attempt. rewrite Hrun. fold wb. simpl negb. cbv iota.
    fold string. fold w2. rewrite Hproc. reflexivity.
  - exists rc. rewrite <- Hsync2. split; assumption.
  - exact Hproc.
  - change (results_table (committed (db w')))
      with (results_table (committed (db w2))).
    rewrite Hres2. change (working (db wb)) with (working (db wa)).
    rewrite Hsynca, Hresa. rewrite Hsync1. reflexivity.
  - exists rc. change (committed (db w')) with (committed (db w2)).
    rewrite <- Hsync2. split; assumption.
  - change (events w')
      with ((events w2 ++ [ParsedResult]) ++ [Warned "Bad data, skipping"])%list.
    rewrite Hev2. change (events wb) with (events wa ++ [RanCommand 0])%list.
    rewrite Heva, Hev1. rewrite <- !app_assoc. reflexivity.
Qed.

Lemma unusable_result_is_tolerated_witness :
  exists w2 w',
    step 10 roc_worker parse_nothing run_ok roc_world = (Return true, w')
    /\ (exists row,
          lookup_job (committed (db w2)) 5 = Some row
          /\ state row = "completed")
    /\ process_result 10 roc_worker
         (mkJob 5 9 1 "new" 1 0 "" "not_fin" "") parse_nothing
         (replace_char ":" "\:" "arch: gfx90a") w2
       = (Return (Value true), w')
    /\ results_table (committed (db w')) = []
    /\ (exists row,
          lookup_job (committed (db w')) 5 = Some row
          /\ state row = "completed")
    /\ events w'
       = [JobStateSet "running"; RanCommand 0; JobStateSet "completed";
          ParsedResult; Warned "Bad data, skipping"].
Proof.
  apply (unusable_result_is_tolerated 10 roc_worker parse_nothing run_ok
           roc_world (mkJob 5 9 1 "new" 1 0 "" "not_fin" "")
           (snd (get_job roc_worker "new" "running" roc_world))
           "arch: gfx90a" (mkParsed "gfx90a" "104" "" None "0.0")).
  - lia.
  - reflexivity.
  - reflexivity.
  - reflexivity.
  - reflexivity.
Defined.

(* ===================================================================== *)
(** * Properties of argument checking and of the composition *)
(* ===================================================================== *)

Section ComposerFacts.

Lemma split_without_separator (c : ascii) (s : string) :
  contains (String c EmptyString) s = false -> split_on c s = [s].
Proof.
  induction s as [| d s IH]; simpl; [reflexivity |].
  destruct (ascii_dec c d) as [<- | Hne].
  { assert (Hp : prefix "" s = true) by (destruct s; reflexivity).
    rewrite Hp. discriminate. }
  simpl. intros H. rewrite (IH H).
  destruct (Ascii.eqb d c) eqn:E; [| reflexivity].
  apply Ascii.eqb_eq in E. congruence.
Qed.

Lemma str_in_In (x : string) (l : list string) : str_in x l = true <-> In x l.
Proof.
  unfold str_in. rewrite existsb_exists. split.
  - intros (y & Hy & Heq). apply String.eqb_eq in Heq. subst. exact Hy.
  - intros H. exists x. split; [exact H | apply String.eqb_refl].
Qed.

Lemma ceil_div_100_bounds (n : nat) :
  100 * (ceil_div_100 n - 1) < Z.of_nat n <= 100 * ceil_div_100 n.
Proof.
  unfold ceil_div_100.
  pose proof (Z.div_mod (Z.of_nat n) 100 ltac:(lia)) as Hdm.
  pose proof (Z.mod_pos_bound (Z.of_nat n) 100 ltac:(lia)) as Hb.
  destruct (Z.of_nat n mod 100 =? 0) eqn:E.
  - apply Z.eqb_eq in E. lia.
  - apply Z.eqb_neq in E. lia.
Qed.

Lemma under_proc_lim (k : Z) (len_rows : nat) :
  over_proc_lim k len_rows = false -> k <= ceil_div_100 len_rows.
Proof.
  unfold over_proc_lim. intros H. apply Z.ltb_ge in H.
  pose proof (ceil_div_100_bounds len_rows). lia.
Qed.

Lemma length_pop (a : Z) (l : list Z) :
  List.length (removelast (a :: l)) = List.length l.
Proof.
  revert a. induction l as [| b l IH]; intros a; [reflexivity |].
  change (removelast (a :: b :: l)) with (a :: removelast (b :: l)).
  cbn [List.length]. rewrite IH. reflexivity.
Qed.

Lemma pop_to_limit_under (todo : nat) (l : list Z) (len_rows : nat) :
  (List.length l <= todo)%nat ->
  over_proc_lim (Z.of_nat (List.length (pop_to_limit todo l len_rows))) len_rows
  = false.
Proof.
  revert l. induction todo as [| todo IH]; intros l Hl; simpl.
  - replace (List.length l) with 0%nat by lia.
    unfold over_proc_lim. apply Z.ltb_ge. lia.
  - destruct (over_proc_lim (Z.of_nat (List.length l)) len_rows) eqn:E;
      [| exact E].
    apply IH. destruct l as [| a l]; [simpl; lia |].
    rewrite length_pop. simpl in Hl. lia.
Qed.

End ComposerFacts.

(** C10.  When the fin-steps argument passes [check_fin_args], the resulting
    list of fin steps has exactly one element, the argument itself, which is
    a member of the fin-step enumeration; a value with a comma is rejected
    with the parser error for multiple steps, and a step that is not in the
    enumeration is rejected with a parser error. *)
Theorem check_fin_args_single_step :
  forall valid_fin_steps fin_steps,
    (forall f_steps,
       check_fin_args valid_fin_steps fin_steps = Return f_steps ->
       f_steps = [fin_steps]
       /\ List.length f_steps = 1%nat
       /\ In fin_steps valid_fin_steps
       /\ contains "," fin_steps = false)
    /\ (contains "," fin_steps = true ->
        check_fin_args valid_fin_steps fin_steps
        = Raise (ParserError "Multiple fin_steps currently not supported"))
    /\ (contains "," fin_steps = false ->
        ~ In fin_steps valid_fin_steps ->
        exists msg,
          check_fin_args valid_fin_steps fin_steps = Raise (ParserError msg))
    /\ (contains "," fin_steps = false ->
        In fin_steps valid_fin_steps ->
        check_fin_args valid_fin_steps fin_steps = Return [fin_steps]).
Proof.
  intros valid_fin_steps fin_steps. unfold check_fin_args.
  destruct (contains "," fin_steps) eqn:Ec.
  - split; [intros f_steps H; discriminate |].
    split; [reflexivity |].
    split; intros H; discriminate.
  - rewrite (split_without_separator "," fin_steps Ec). simpl.
    rewrite andb_true_r.
    destruct (str_in fin_steps valid_fin_steps) eqn:Ein.
    + apply str_in_In in Ein.
      split; [intros f_steps H; injection H as <-; tauto |].
      split; [intros H; discriminate |].
      split; [intros _ Hn; contradiction | reflexivity].
    + assert (Hn : ~ In fin_steps valid_fin_steps).
      { intros H. apply str_in_In in H. congruence. }
      split; [intros f_steps H; discriminate |].
      split; [intros H; discriminate |].
      split; [intros _ _; eexists; reflexivity | intros _ H; contradiction].
Qed.

Lemma check_fin_args_single_step_witness :
  check_fin_args session_fin_steps "miopen_find_eval"
  = Return ["miopen_find_eval"]
  /\ check_fin_args session_fin_steps "miopen_find_compile,miopen_find_eval"
     = Raise (ParserError "Multiple fin_steps currently not supported")
  /\ exists msg,
       check_fin_args session_fin_steps "tune" = Raise (ParserError msg).
Proof.
  split; [| split].
  - apply (proj2 (proj2 (proj2
             (check_fin_args_single_step session_fin_steps
                                         "miopen_find_eval")))).
    + reflexivity.
    + simpl. tauto.
  - apply (proj1 (proj2
             (check_fin_args_single_step session_fin_steps
                "miopen_find_compile,miopen_find_eval"))).
    reflexivity.
  - apply (proj1 (proj2 (proj2
             (check_fin_args_single_step session_fin_steps "tune")))).
    + reflexivity.
    + simpl. intros H.
      repeat (destruct H as [H | H]; [discriminate |]). exact H.
Defined.

(** C8.  In a composition that runs the update of the applicability, the
    worker ids kept for a machine number at most ceil(pending / 100), where
    pending is the number of config rows the query finds for that machine
    before any worker is launched; and on the process slots of a machine the
    cap never fails. *)
Theorem applicability_worker_cap :
  forall args machine,
    update_applicability args = true ->
    (forall worker_ids,
       machine_worker_ids args machine = Return worker_ids ->
       len worker_ids <= ceil_div_100 (cfg_rows machine))
    /\ (fin_steps args = None ->
        exists l,
          machine_worker_ids args machine = Return (IdList l)
          /\ Z.of_nat (List.length l) <= ceil_div_100 (cfg_rows machine)).
Proof.
  intros args machine Happ.
  assert (Hcap : forall worker_ids,
            machine_worker_ids args machine = Return worker_ids ->
            len worker_ids <= ceil_div_100 (cfg_rows machine)).
  { intros worker_ids. unfold machine_worker_ids. rewrite Happ.
    match goal with
    | |- match ?ids with _ => _ end = _ -> _ => destruct ids as [l | stop]
    end.
    - intros H. injection H as <-. apply under_proc_lim.
      apply pop_to_limit_under. lia.
    - destruct (over_proc_lim (len (IdRange stop)) (cfg_rows machine)) eqn:E;
        [discriminate |].
      intros H. injection H as <-. apply under_proc_lim. exact E. }
  split; [exact Hcap |].
  intros Hfs.
  assert (Hret : machine_worker_ids args machine
                 = Return (IdList (pop_to_limit
                                     (List.length (num_procs machine))
                                     (num_procs machine) (cfg_rows machine)))).
  { unfold machine_worker_ids. rewrite Hfs, Happ. reflexivity. }
  eexists. split; [exact Hret |].
  apply (Hcap _ Hret).
Qed.

Lemma applicability_worker_cap_witness :
  machine_worker_ids applic_args busy_machine = Return (IdList [0; 1])
  /\ len (IdList [0; 1]) <= ceil_div_100 (cfg_rows busy_machine)
  /\ ceil_div_100 (cfg_rows busy_machine) = 2.
Proof.
  split; [reflexivity |]. split; [| reflexivity].
  apply (proj1 (applicability_worker_cap applic_args busy_machine eq_refl)).
  reflexivity.
Defined.

Section CompositionLoop.

Variable args : Args.
Hypothesis no_restart : restart_machine args = false.

Lemma compose_loop_reaches_empty (before : list Machine) (machine : Machine)
    (after : list Machine) (worker_ids : WorkerIds)
    (worker_lst : list Launched) (fin_work_done : bool) :
  (forall m, In m before ->
             exists ids, machine_worker_ids args m = Return ids /\ len ids <> 0) ->
  machine_worker_ids args machine = Return worker_ids ->
  len worker_ids = 0 ->
  update_solvers args && negb fin_work_done = false \/ before = [] ->
  fst (compose_loop args (before ++ machine :: after) worker_lst fin_work_done)
  = Return None.
Proof.
  revert worker_lst.
  induction before as [| b before IH]; intros worker_lst Hbefore Hids Hlen Hreach.
  - simpl. rewrite no_restart, Hids, Hlen. reflexivity.
  - destruct Hreach as [Hsolv | Hnil]; [| discriminate].
    simpl. rewrite no_restart.
    destruct (Hbefore b (or_introl eq_refl)) as (ids & Hb & Hne).
    rewrite Hb. destruct (len ids =? 0) eqn:E; [apply Z.eqb_eq in E; lia |].
    rewrite Hsolv.
    destruct (launch_all args b (ids_of ids) worker_lst) as [wl effs].
    specialize (IH wl (fun m Hm => Hbefore m (or_intror Hm)) Hids Hlen
                   (or_introl Hsolv)).
    destruct (compose_loop args (before ++ machine :: after) wl fin_work_done)
      as [r effs'].
    exact IH.
Qed.

End CompositionLoop.

(** C7, as the code has it.  When the composition loop comes to a machine
    (not flagged for restart) that yields no worker id, the whole composition
    returns [None], whatever workers it has launched on the machines before
    and whatever machines come after.  The loop comes to every machine of
    the list, except in an update of the solvers, where it ends at the first
    machine that yields worker ids and returns the worker list, which is
    empty. *)
Theorem empty_machine_fails_composition :
  forall args before machine after worker_ids,
    restart_machine args = false ->
    (forall m, In m before ->
               exists ids, machine_worker_ids args m = Return ids /\ len ids <> 0) ->
    machine_worker_ids args machine = Return worker_ids ->
    len worker_ids = 0 ->
    (update_solvers args = false \/ before = [] ->
     fst (compose_worker_list args (before ++ machine :: after)) = Return None)
    /\ (update_solvers args = true -> before <> [] ->
        fst (compose_worker_list args (before ++ machine :: after))
        = Return (Some [])).
Proof.
  intros args before machine after worker_ids Hres Hbefore Hids Hlen.
  unfold compose_worker_list. split.
  - intros Hreach.
    apply (compose_loop_reaches_empty args Hres before machine after worker_ids);
      try assumption.
    destruct Hreach as [-> | ->]; [left; reflexivity | right; reflexivity].
  - intros Hsolv Hne. destruct before as [| b before]; [congruence |].
    simpl. rewrite Hres.
    destruct (Hbefore b (or_introl eq_refl)) as (ids & Hb & Hn).
    rewrite Hb. destruct (len ids =? 0) eqn:E; [apply Z.eqb_eq in E; lia |].
    rewrite Hsolv. reflexivity.
Qed.

Lemma empty_machine_fails_composition_witness :
  fst (compose_worker_list applic_args [busy_machine; idle_machine])
  = Return None
  /\ snd (compose_worker_list applic_args [busy_machine; idle_machine]) = [].
Proof.
  split; [| reflexivity].
  apply (empty_machine_fails_composition applic_args [busy_machine]
           idle_machine [] (IdList [])).
  - reflexivity.
  - intros m [<- | []]. exists (IdList [0; 1]). split; [reflexivity |].
    discriminate.
  - reflexivity.
  - reflexivity.
  - left. reflexivity.
Defined.

(** C7 as stated fails: in an update of the solvers the composition ends at
    the first machine, so a later machine without worker ids does not make
    it return [None]. *)
Lemma solver_update_ignores_empty_machine :
  restart_machine solver_args = false
  /\ In idle_machine [busy_machine; idle_machine]
  /\ machine_worker_ids solver_args idle_machine = Return (IdList [])
  /\ len (IdList []) = 0
  /\ compose_worker_list solver_args [busy_machine; idle_machine]
     = (Return (Some []), [FinWork 1])
  /\ fst (compose_worker_list solver_args [busy_machine; idle_machine])
     <> Return None.
Proof.
  repeat split; try reflexivity.
  - right. left. reflexivity.
  - discriminate.
Qed.


(* ===================================================================== *)
(** * Further properties of the retry helper *)
(* ===================================================================== *)

(** X1.  An exception that [session_retry] has no handler for (one that is
    neither an operational nor an integrity error) comes out of it as it is,
    from the attempt that raised it: there is no rollback, no sleep and no
    further attempt. *)
Theorem session_retry_passes_other_exceptions :
  forall (C A : Type) (NUM_SQL_RETRIES : nat) (w : World) (callback : C)
         (actuator : C -> World -> Completion A * World) k wk e w',
    (k < NUM_SQL_RETRIES)%nat ->
    after_failures k w callback actuator = Some wk ->
    actuator callback wk = (Raise e, w') ->
    retry_handles e = false ->
    session_retry NUM_SQL_RETRIES w callback actuator = (Raise e, w').
Proof.
  intros C A N w callback actuator k wk e w' Hk Hfail Hact He.
  unfold session_retry.
  replace N with (k + S (N - S k))%nat by lia.
  rewrite (loop_after_failures callback actuator k _ w wk Hfail).
  simpl. rewrite Hact. destruct e; try discriminate; reflexivity.
Qed.

Lemma session_retry_passes_other_exceptions_witness :
  exists w',
    session_retry 3
      (world_with (mkTables [] [] [] [])
                  [Some OperationalError; Some DataError; None])
      one_statement call_it
    = (Raise DataError, w')
    /\ rollbacks (events w') = 1%nat
    /\ sleeps (events w') = [12].
Proof.
  eexists. split.
  - eapply (session_retry_passes_other_exceptions _ _ 3
              (world_with (mkTables [] [] [] [])
                 [Some OperationalError; Some DataError; None])
              one_statement call_it 1%nat);
      [lia | reflexivity | reflexivity | reflexivity].
  - split; reflexivity.
Defined.

Section ResultInsert.

Variable wk : Worker.
Variable job : Job.
Variable parse : string -> Completion ParseOutput.
Variable result_str : string.
Variable p : ParseOutput.
Hypothesis parsed : parse result_str = Return p.
Hypothesis usable : bad_data p = false.

Lemma update_result_table_usable (w : World) :
  update_result_table wk job parse result_str w
  = match next_fault (db w) with
    | (Some e, sess) => (Raise e, with_db sess (emit ParsedResult w))
    | (None, sess) =>
        (Return true,
         with_db (commit (in_transaction
                            (with_results
                               (fun l => l ++ [result_row wk job p])%list)
                            sess))
                 (emit ParsedResult w))
    end.
Proof.
  unfold update_result_table. rewrite parsed, usable. reflexivity.
Qed.

Lemma rollbacks_app (l l' : list Event) :
  rollbacks (l ++ l') = (rollbacks l + rollbacks l')%nat.
Proof.
  unfold rollbacks. rewrite filter_app, length_app. reflexivity.
Qed.

Lemma sleeps_app (l l' : list Event) :
  sleeps (l ++ l') = (sleeps l ++ sleeps l')%list.
Proof. unfold sleeps. apply flat_map_app. Qed.

Lemma insert_after_contention (k todo : nat) :
  forall (w : World) (rest : list (option Exn)),
    faults (db w) = (repeat (Some OperationalError) k ++ None :: rest)%list ->
    working (db w) = committed (db w) ->
    exists w',
      session_retry_loop (k + S todo) w (update_result_table wk job parse)
                         (fun func => func result_str)
      = (Return (Value true), w')
      /\ committed (db w')
         = with_results (fun l => l ++ [result_row wk job p])%list
                        (committed (db w))
      /\ working (db w') = committed (db w')
      /\ faults (db w') = rest
      /\ rollbacks (events w') = (rollbacks (events w) + k)%nat
      /\ List.length (sleeps (events w'))
         = (List.length (sleeps (events w)) + k)%nat.
Proof.
  induction k as [| k IH]; intros w rest Hf Hsync.
  - simpl. rewrite update_result_table_usable.
    unfold next_fault. simpl in Hf. rewrite Hf.
    eexists. split; [reflexivity |]. simpl.
    rewrite Hsync, rollbacks_app, sleeps_app, length_app.
    unfold rollbacks. simpl. repeat split; lia.
  - cbn [Nat.add session_retry_loop]. rewrite update_result_table_usable.
    unfold next_fault. simpl in Hf. rewrite Hf. cbv beta iota.
    set (w1 := with_db _ (emit ParsedResult w)).
    destruct (backoff_effects w1) as (secs & Hsecs & Hev & Hdb).
    destruct (IH (backoff w1) rest) as (w' & Hrun & Hc & Hs & Hfa & Hrb & Hsl).
    + rewrite Hdb. reflexivity.
    + rewrite Hdb. reflexivity.
    + exists w'. split; [exact Hrun |].
      split; [rewrite Hc, Hdb; reflexivity |].
      split; [exact Hs |]. split; [exact Hfa |].
      rewrite Hrb, Hsl, Hev. subst w1. cbn [events emit with_db].
      rewrite !rollbacks_app, !sleeps_app, !length_app.
      unfold rollbacks. simpl. split; lia.
Qed.

End ResultInsert.

(** X2.  When the store answers the insert of a usable result with [k]
    contention errors and then carries it out, with [k] below the number of
    attempts, [process_result] returns [True] and exactly one result row has
    been added: the one of the parsed result, for the worker's session and
    the job's config.  It rolled back and slept [k] times. *)
Theorem process_result_inserts_once :
  forall NUM_SQL_RETRIES wk job parse result_str p k rest w,
    parse result_str = Return p ->
    bad_data p = false ->
    (k < NUM_SQL_RETRIES)%nat ->
    faults (db w) = (repeat (Some OperationalError) k ++ None :: rest)%list ->
    working (db w) = committed (db w) ->
    exists w',
      process_result NUM_SQL_RETRIES wk job parse result_str w
      = (Return (Value true), w')
      /\ results_table (committed (db w'))
         = (results_table (committed (db w)) ++ [result_row wk job p])%list
      /\ job_table (committed (db w')) = job_table (committed (db w))
      /\ rollbacks (events w') = (rollbacks (events w) + k)%nat
      /\ List.length (sleeps (events w'))
         = (List.length (sleeps (events w)) + k)%nat.
Proof.
  intros N wk job parse result_str p k rest w Hparse Hgood Hk Hf Hsync.
  destruct (insert_after_contention wk job parse result_str p Hparse Hgood
              k (N - S k) w rest Hf Hsync)
    as (w' & Hrun & Hc & _ & _ & Hrb & Hsl).
  exists w'. unfold process_result, session_retry.
  replace N with (k + S (N - S k))%nat at 1 by lia.
  rewrite Hrun. simpl. rewrite Hc. repeat split; assumption.
Qed.

Lemma process_result_inserts_once_witness :
  exists w',
    process_result 10 roc_worker (mkJob 5 9 1 "completed" 1 0 "" "not_fin" "")
                   parse_fine "out"
                   (world_with (mkTables [] [] [] [])
                      [Some OperationalError; Some OperationalError; None])
    = (Return (Value true), w')
    /\ results_table (committed (db w'))
       = [mkResults 1 1 "gfx90a" 9 "conv -n 256" "v2:64,64,4" "51.2"]
    /\ job_table (committed (db w')) = []
    /\ rollbacks (events w') = 2%nat
    /\ List.length (sleeps (events w')) = 2%nat.
Proof.
  apply (process_result_inserts_once 10 roc_worker
           (mkJob 5 9 1 "completed" 1 0 "" "not_fin" "") parse_fine "out"
           (mkParsed "gfx90a" "104" "conv -n 256" (Some "v2:64,64,4") "51.2")
           2 [] (world_with (mkTables [] [] [] [])
                   [Some OperationalError; Some OperationalError; None]));
    try reflexivity.
  lia.
Defined.

Lemma process_result_after_integrity_error
    NUM_SQL_RETRIES wk job parse result_str p rest w :
  parse result_str = Return p ->
  bad_data p = false ->
  (0 < NUM_SQL_RETRIES)%nat ->
  faults (db w) = Some IntegrityError :: rest ->
  exists w',
    process_result NUM_SQL_RETRIES wk job parse result_str w
    = (Return PyFalse, w')
    /\ committed (db w') = committed (db w)
    /\ working (db w') = committed (db w)
    /\ faults (db w') = rest
    /\ events w'
       = (events w ++ [ParsedResult; Errored "Query failed"; RolledBack;
                       Warned "RocMLIR:  Unable to update database"])%list.
Proof.
  intros Hparse Hgood HN Hf.
  unfold process_result, session_retry.
  destruct NUM_SQL_RETRIES as [| n]; [lia |]. cbn [session_retry_loop].
  rewrite (update_result_table_usable wk job parse result_str p Hparse Hgood).
  unfold next_fault. rewrite Hf.
  eexists. split; [reflexivity |]. simpl.
  rewrite <- !app_assoc. repeat split.
Qed.

Lemma process_result_lets_through
    NUM_SQL_RETRIES wk job parse result_str p e rest w :
  parse result_str = Return p ->
  bad_data p = false ->
  (0 < NUM_SQL_RETRIES)%nat ->
  faults (db w) = Some e :: rest ->
  retry_handles e = false ->
  exists w',
    process_result NUM_SQL_RETRIES wk job parse result_str w = (Raise e, w')
    /\ committed (db w') = committed (db w)
    /\ working (db w') = working (db w)
    /\ faults (db w') = rest
    /\ events w' = (events w ++ [ParsedResult])%list.
Proof.
  intros Hparse Hgood HN Hf He.
  unfold process_result, session_retry.
  destruct NUM_SQL_RETRIES as [| n]; [lia |]. cbn [session_retry_loop].
  rewrite (update_result_table_usable wk job parse result_str p Hparse Hgood).
  unfold next_fault. rewrite Hf.
  eexists. split.
  - destruct e; try discriminate; reflexivity.
  - repeat split.
Qed.

(** X3.  When the store answers the insert of a usable result with an
    integrity error (the row is there already), [process_result] gives up at
    once: it returns [False], no row has been added, the transaction is
    rolled back, and the warning that the database could not be updated is
    logged. *)
Theorem process_result_integrity_error :
  forall NUM_SQL_RETRIES wk job parse result_str p rest w,
    parse result_str = Return p ->
    bad_data p = false ->
    (0 < NUM_SQL_RETRIES)%nat ->
    faults (db w) = Some IntegrityError :: rest ->
    exists w',
      process_result NUM_SQL_RETRIES wk job parse result_str w
      = (Return PyFalse, w')
      /\ committed (db w') = committed (db w)
      /\ working (db w') = committed (db w)
      /\ faults (db w') = rest
      /\ events w'
         = (events w ++ [ParsedResult; Errored "Query failed"; RolledBack;
                         Warned "RocMLIR:  Unable to update database"])%list.
Proof.
  intros. eapply process_result_after_integrity_error; eassumption.
Qed.

Lemma process_result_integrity_error_witness :
  exists w',
    process_result 10 roc_worker (mkJob 5 9 1 "completed" 1 0 "" "not_fin" "")
                   parse_fine "out"
                   (world_with (mkTables [] [] [] []) [Some IntegrityError])
    = (Return PyFalse, w')
    /\ committed (db w') = mkTables [] [] [] []
    /\ working (db w') = mkTables [] [] [] []
    /\ faults (db w') = []
    /\ events w'
       = [ParsedResult; Errored "Query failed"; RolledBack;
          Warned "RocMLIR:  Unable to update database"].
Proof.
  apply (process_result_integrity_error 10 roc_worker
           (mkJob 5 9 1 "completed" 1 0 "" "not_fin" "") parse_fine "out"
           (mkParsed "gfx90a" "104" "conv -n 256" (Some "v2:64,64,4") "51.2")
           [] (world_with (mkTables [] [] [] []) [Some IntegrityError]));
    try reflexivity.
  lia.
Defined.


(* ===================================================================== *)
(** * Further properties of the rocMLIR worker *)
(* ===================================================================== *)

Section StepFacts.

Variable NUM_SQL_RETRIES : nat.
Variable wk : Worker.
Variable parse : string -> Completion ParseOutput.
Variable run_cmd : nat -> Completion (Z * string).

Lemma step_claimed (w w1 : World) (job : Job) :
  get_job wk "new" "running" w = (Some job, w1) ->
  step NUM_SQL_RETRIES wk parse run_cmd w
  = match retrying 3 0 (attempt NUM_SQL_RETRIES wk job parse run_cmd)
                   (worker_set_job_state w1 job "running" "") with
    | (Return _, w2) => (Return true, w2)
    | (Raise exc, w2) =>
        (Return true,
         worker_set_job_state w2 job "error"
           (replace_char "'" "\'" (str_exn exc)))
    end.
Proof. intros H. unfold step. rewrite H. reflexivity. Qed.

Lemma retrying_more (n idx : nat)
    (body : nat -> World -> Completion unit * World) (w : World) :
  retrying (S (S n)) idx body w
  = match body idx w with
    | (Return _, w') => (Return tt, w')
    | (Raise e, w') =>
        let (secs, w'') := randint 5 30 w' in
        retrying (S n) (S idx) body (sleep secs w'')
    end.
Proof. reflexivity. Qed.

Lemma retrying_last (idx : nat)
    (body : nat -> World -> Completion unit * World) (w : World) :
  retrying 1 idx body w
  = match body idx w with
    | (Return _, w') => (Return tt, w')
    | (Raise e, w') => (Raise e, w')
    end.
Proof. reflexivity. Qed.

Lemma randint_effects (a b : Z) (w : World) :
  a <= b ->
  a <= fst (randint a b w) <= b
  /\ db (snd (randint a b w)) = db w
  /\ events (snd (randint a b w)) = events w.
Proof.
  intros Hab. split; [apply randint_range; exact Hab |].
  unfold randint. destruct (entropy w); split; reflexivity.
Qed.

Lemma attempt_exit_code (job : Job) (idx : nat) (w : World) retcode cmd_output :
  run_cmd idx = Return (retcode, cmd_output) ->
  retcode <> 0 ->
  attempt NUM_SQL_RETRIES wk job parse run_cmd idx w
  = (Return tt,
     worker_set_job_state (emit (RanCommand idx) w) job "error"
       ("Error code " ++ str_of_int retcode ++ ", output "
        ++ replace_char "'" "\'" cmd_output)).
Proof.
  intros Hrun Hne. unfold attempt. rewrite Hrun.
  destruct (retcode =? 0) eqn:E; [apply Z.eqb_eq in E; contradiction |].
  reflexivity.
Qed.

Lemma attempt_value_error (job : Job) (idx : nat) (w : World) verr :
  run_cmd idx = Raise (ValueError verr) ->
  attempt NUM_SQL_RETRIES wk job parse run_cmd idx w
  = (Return tt, worker_set_job_state (emit (RanCommand idx) w) job "error" verr).
Proof. intros Hrun. unfold attempt. rewrite Hrun. reflexivity. Qed.

Lemma attempt_raises (job : Job) (idx : nat) (w : World) e :
  run_cmd idx = Raise e ->
  (forall verr, e <> ValueError verr) ->
  attempt NUM_SQL_RETRIES wk job parse run_cmd idx w
  = (Raise e, emit (RanCommand idx) w).
Proof.
  intros Hrun Hne. unfold attempt. rewrite Hrun.
  destruct e; try reflexivity. exfalso. apply (Hne msg). reflexivity.
Qed.

Lemma attempt_exit_zero (job : Job) (idx : nat) (w : World) cmd_output :
  run_cmd idx = Return (0, cmd_output) ->
  attempt NUM_SQL_RETRIES wk job parse run_cmd idx w
  = match process_result NUM_SQL_RETRIES wk job parse
            (replace_char ":" "\:" cmd_output)
            (worker_set_job_state (emit (RanCommand idx) w) job "completed"
               (replace_char ":" "\:" cmd_output)) with
    | (Return _, w') => (Return tt, w')
    | (Raise e, w') => (Raise e, w')
    end.
Proof. intros Hrun. unfold attempt. rewrite Hrun. reflexivity. Qed.

Lemma worker_set_job_state_text (w : World) (job : Job) (st res : string) :
  (exists r, lookup_job (working (db w)) (id job) = Some r) ->
  let w' := worker_set_job_state w job st res in
  (exists r',
     lookup_job (committed (db w')) (id job) = Some r'
     /\ state r' = st /\ result r' = res)
  /\ working (db w') = committed (db w')
  /\ results_table (committed (db w')) = results_table (working (db w))
  /\ faults (db w') = faults (db w)
  /\ events w' = (events w ++ [JobStateSet st])%list.
Proof.
  intros [r Hr]. cbv zeta. unfold worker_set_job_state.
  cbn [db emit with_db events entropy].
  split; [| repeat split].
  exists (with_state r st (retries r) res). split.
  - exact (set_job_state_same (db w) job st false res r Hr).
  - split; reflexivity.
Qed.

End StepFacts.

(** X4.  When the command of a claimed job ends with an exit code other than
    0, [step] records the job as [error] with the text
    [Error code <code>, output <output>], the quotes of the output escaped;
    the command is run once, its output is not parsed, no result row is
    added, and [step] returns [True]. *)
Theorem failed_command_sets_error :
  forall NUM_SQL_RETRIES wk parse run_cmd w job w1 retcode cmd_output,
    get_job wk "new" "running" w = (Some job, w1) ->
    run_cmd 0%nat = Return (retcode, cmd_output) ->
    retcode <> 0 ->
    exists w',
      step NUM_SQL_RETRIES wk parse run_cmd w = (Return true, w')
      /\ (exists row,
            lookup_job (committed (db w')) (id job) = Some row
            /\ state row = "error"
            /\ result row
               = "Error code " ++ str_of_int retcode ++ ", output "
                 ++ replace_char "'" "\'" cmd_output)
      /\ results_table (committed (db w')) = results_table (committed (db w1))
      /\ events w'
         = (events w ++ [JobStateSet "running"; RanCommand 0;
                         JobStateSet "error"])%list.
Proof.
  intros N wk parse run_cmd w job w1 retcode cmd_output Hget Hrun Hne.
  destruct (get_job_claimed _ _ _ _ _ _ Hget) as (Hrow1 & Hsync1 & Hev1).
  rewrite (step_claimed N wk parse run_cmd w w1 job Hget).
  set (wa := worker_set_job_state w1 job "running" "").
  destruct (worker_set_job_state_text w1 job "running" "" Hrow1)
    as ((ra & Hra & _) & Hsynca & Hresa & _ & Heva).
  fold wa in Hra, Hsynca, Hresa, Heva.
  rewrite retrying_more, (attempt_exit_code N wk parse run_cmd job 0 wa
                            retcode cmd_output Hrun Hne).
  set (wb := emit (RanCommand 0) wa).
  assert (Hrowb : exists r, lookup_job (working (db wb)) (id job) = Some r).
  { exists ra. change (working (db wb)) with (working (db wa)).
    rewrite Hsynca. exact Hra. }
  destruct (worker_set_job_state_text wb job "error"
              ("Error code " ++ str_of_int retcode ++ ", output "
               ++ replace_char "'" "\'" cmd_output) Hrowb)
    as (Hrowc & _ & Hresc & _ & Hevc).
  eexists. split; [reflexivity |].
  split; [exact Hrowc |]. split.
  - rewrite Hresc. change (working (db wb)) with (working (db wa)).
    rewrite Hsynca, Hresa, Hsync1. reflexivity.
  - rewrite Hevc. change (events wb) with (events wa ++ [RanCommand 0])%list.
    rewrite Heva, Hev1, <- !app_assoc. reflexivity.
Qed.

Lemma failed_command_sets_error_witness :
  exists w',
    step 10 roc_worker parse_fine run_fails roc_world = (Return true, w')
    /\ (exists row,
          lookup_job (committed (db w')) 5 = Some row
          /\ state row = "error"
          /\ result row = "Error code 2, output can\'t tune")
    /\ results_table (committed (db w')) = []
    /\ events w' = [JobStateSet "running"; RanCommand 0; JobStateSet "error"].
Proof.
  apply (failed_command_sets_error 10 roc_worker parse_fine run_fails
           roc_world (mkJob 5 9 1 "new" 1 0 "" "not_fin" "")
           (snd (get_job roc_worker "new" "running" roc_world)) 2 "can't tune").
  - reflexivity.
  - reflexivity.
  - discriminate.
Defined.


(** X5.  When [run_cmd] raises a [ValueError] (more than one config for the
    job, a config type without support), [step] records the job as [error]
    with the text of the exception and does not run the command again: a
    [ValueError] is not retried. *)
Theorem value_error_is_not_retried :
  forall NUM_SQL_RETRIES wk parse run_cmd w job w1 verr,
    get_job wk "new" "running" w = (Some job, w1) ->
    run_cmd 0%nat = Raise (ValueError verr) ->
    exists w',
      step NUM_SQL_RETRIES wk parse run_cmd w = (Return true, w')
      /\ (exists row,
            lookup_job (committed (db w')) (id job) = Some row
            /\ state row = "error" /\ result row = verr)
      /\ events w'
         = (events w ++ [JobStateSet "running"; RanCommand 0;
                         JobStateSet "error"])%list.
Proof.
  intros N wk parse run_cmd w job w1 verr Hget Hrun.
  destruct (get_job_claimed _ _ _ _ _ _ Hget) as (Hrow1 & Hsync1 & Hev1).
  rewrite (step_claimed N wk parse run_cmd w w1 job Hget).
  set (wa := worker_set_job_state w1 job "running" "").
  destruct (worker_set_job_state_text w1 job "running" "" Hrow1)
    as ((ra & Hra & _) & Hsynca & _ & _ & Heva).
  fold wa in Hra, Hsynca, Heva.
  rewrite retrying_more,
    (attempt_value_error N wk parse run_cmd job 0 wa verr Hrun).
  set (wb := emit (RanCommand 0) wa).
  assert (Hrowb : exists r, lookup_job (working (db wb)) (id job) = Some r).
  { exists ra. change (working (db wb)) with (working (db wa)).
    rewrite Hsynca. exact Hra. }
  destruct (worker_set_job_state_text wb job "error" verr Hrowb)
    as (Hrowc & _ & _ & _ & Hevc).
  eexists. split; [reflexivity |]. split; [exact Hrowc |].
  rewrite Hevc. change (events wb) with (events wa ++ [RanCommand 0])%list.
  rewrite Heva, Hev1, <- !app_assoc. reflexivity.
Qed.

Lemma value_error_is_not_retried_witness :
  exists w',
    step 10 roc_worker parse_fine run_value_error roc_world = (Return true, w')
    /\ (exists row,
          lookup_job (committed (db w')) 5 = Some row
          /\ state row = "error"
          /\ result row = "More than one config matching ID 9")
    /\ events w' = [JobStateSet "running"; RanCommand 0; JobStateSet "error"].
Proof.
  apply (value_error_is_not_retried 10 roc_worker parse_fine run_value_error
           roc_world (mkJob 5 9 1 "new" 1 0 "" "not_fin" "")
           (snd (get_job roc_worker "new" "running" roc_world))
           "More than one config matching ID 9");
    reflexivity.
Defined.

(** X6.  When [run_cmd] raises another exception at each attempt, [step] runs
    the command three times, sleeps between 5 and 30 seconds after the first
    and after the second attempt, and then records the job as [error] with
    the text of the exception of the last attempt, its quotes escaped.  It
    returns [True]: the exception does not leave [step]. *)
Theorem exception_is_retried_three_times :
  forall NUM_SQL_RETRIES wk parse run_cmd w job w1 e0 e1 e2,
    get_job wk "new" "running" w = (Some job, w1) ->
    run_cmd 0%nat = Raise e0 -> (forall verr, e0 <> ValueError verr) ->
    run_cmd 1%nat = Raise e1 -> (forall verr, e1 <> ValueError verr) ->
    run_cmd 2%nat = Raise e2 -> (forall verr, e2 <> ValueError verr) ->
    exists w' s1 s2,
      step NUM_SQL_RETRIES wk parse run_cmd w = (Return true, w')
      /\ 5 <= s1 <= 30 /\ 5 <= s2 <= 30
      /\ events w'
         = (events w ++ [JobStateSet "running"; RanCommand 0; Slept s1;
                         RanCommand 1; Slept s2; RanCommand 2;
                         JobStateSet "error"])%list
      /\ (exists row,
            lookup_job (committed (db w')) (id job) = Some row
            /\ state row = "error"
            /\ result row = replace_char "'" "\'" (str_exn e2)).
Proof.
  intros N wk parse run_cmd w job w1 e0 e1 e2 Hget H0 Hn0 H1 Hn1 H2 Hn2.
  destruct (get_job_claimed _ _ _ _ _ _ Hget) as (Hrow1 & Hsync1 & Hev1).
  rewrite (step_claimed N wk parse run_cmd w w1 job Hget).
  set (wa := worker_set_job_state w1 job "running" "").
  destruct (worker_set_job_state_text w1 job "running" "" Hrow1)
    as ((ra & Hra & _) & Hsynca & _ & _ & Heva).
  fold wa in Hra, Hsynca, Heva.
  rewrite retrying_more, (attempt_raises N wk parse run_cmd job 0 wa e0 H0 Hn0).
  set (wb := emit (RanCommand 0) wa).
  destruct (randint_effects 5 30 wb ltac:(lia)) as (Hs1 & Hd1 & He1).
  destruct (randint 5 30 wb) as [s1 wc]. cbn [fst snd] in Hs1, Hd1, He1.
  rewrite retrying_more,
    (attempt_raises N wk parse run_cmd job 1 (sleep s1 wc) e1 H1 Hn1).
  set (wd := emit (RanCommand 1) (sleep s1 wc)).
  destruct (randint_effects 5 30 wd ltac:(lia)) as (Hs2 & Hd2 & He2).
  destruct (randint 5 30 wd) as [s2 we]. cbn [fst snd] in Hs2, Hd2, He2.
  rewrite retrying_last,
    (attempt_raises N wk parse run_cmd job 2 (sleep s2 we) e2 H2 Hn2).
  set (wf := emit (RanCommand 2) (sleep s2 we)).
  assert (Hdb : db wf = db wa).
  { change (db wf) with (db we). rewrite Hd2.
    change (db wd) with (db wc). rewrite Hd1. reflexivity. }
  assert (Hrowf : exists r, lookup_job (working (db wf)) (id job) = Some r).
  { exists ra. rewrite Hdb, Hsynca. exact Hra. }
  destruct (worker_set_job_state_text wf job "error"
              (replace_char "'" "\'" (str_exn e2)) Hrowf)
    as (Hrowg & _ & _ & _ & Hevg).
  eexists. exists s1, s2. split; [reflexivity |].
  split; [exact Hs1 |]. split; [exact Hs2 |]. split; [| exact Hrowg].
  rewrite Hevg.
  change (events wf) with ((events we ++ [Slept s2]) ++ [RanCommand 2])%list.
  rewrite He2.
  change (events wd) with ((events wc ++ [Slept s1]) ++ [RanCommand 1])%list.
  rewrite He1.
  change (events wb) with (events wa ++ [RanCommand 0])%list.
  rewrite Heva, Hev1, <- !app_assoc. reflexivity.
Qed.

Lemma exception_is_retried_three_times_witness :
  exists w' s1 s2,
    step 10 roc_worker parse_fine run_no_script roc_world = (Return true, w')
    /\ 5 <= s1 <= 30 /\ 5 <= s2 <= 30
    /\ events w'
       = [JobStateSet "running"; RanCommand 0; Slept s1; RanCommand 1;
          Slept s2; RanCommand 2; JobStateSet "error"]
    /\ (exists row,
          lookup_job (committed (db w')) 5 = Some row
          /\ state row = "error"
          /\ result row
             = "tuningRunner.py not found;  wrong directory or missing setup").
Proof.
  apply (exception_is_retried_three_times 10 roc_worker parse_fine
           run_no_script roc_world (mkJob 5 9 1 "new" 1 0 "" "not_fin" "")
           (snd (get_job roc_worker "new" "running" roc_world))
           (OtherError "tuningRunner.py not found;  wrong directory or missing setup")
           (OtherError "tuningRunner.py not found;  wrong directory or missing setup")
           (OtherError "tuningRunner.py not found;  wrong directory or missing setup"));
    try reflexivity; discriminate.
Defined.


(** X7.  [step] does not look at what [process_result] returns: when the
    command succeeded and the insert of its usable result meets an integrity
    error, the job stays [completed], no result row is added, nothing is run
    again, and [step] returns [True]. *)
Theorem failed_insert_leaves_job_completed :
  forall NUM_SQL_RETRIES wk parse run_cmd w job w1 cmd_output p rest,
    (0 < NUM_SQL_RETRIES)%nat ->
    get_job wk "new" "running" w = (Some job, w1) ->
    faults (db w1) = Some IntegrityError :: rest ->
    run_cmd 0%nat = Return (0, cmd_output) ->
    parse (replace_char ":" "\:" cmd_output) = Return p ->
    bad_data p = false ->
    exists w',
      step NUM_SQL_RETRIES wk parse run_cmd w = (Return true, w')
      /\ (exists row,
            lookup_job (committed (db w')) (id job) = Some row
            /\ state row = "completed"
            /\ result row = replace_char ":" "\:" cmd_output)
      /\ results_table (committed (db w')) = results_table (committed (db w1))
      /\ events w'
         = (events w ++ [JobStateSet "running"; RanCommand 0;
                         JobStateSet "completed"; ParsedResult;
                         Errored "Query failed"; RolledBack;
                         Warned "RocMLIR:  Unable to update database"])%list.
Proof.
  intros N wk parse run_cmd w job w1 cmd_output p rest HN Hget Hf Hrun Hparse
         Hgood.
  destruct (get_job_claimed _ _ _ _ _ _ Hget) as (Hrow1 & Hsync1 & Hev1).
  rewrite (step_claimed N wk parse run_cmd w w1 job Hget).
  set (wa := worker_set_job_state w1 job "running" "").
  destruct (worker_set_job_state_text w1 job "running" "" Hrow1)
    as ((ra & Hra & _) & Hsynca & Hresa & Hfa & Heva).
  fold wa in Hra, Hsynca, Hresa, Hfa, Heva.
  rewrite retrying_more,
    (attempt_exit_zero N wk parse run_cmd job 0 wa cmd_output Hrun).
  set (wb := emit (RanCommand 0) wa).
  set (text := replace_char ":" "\:" cmd_output) in *.
  assert (Hrowb : exists r, lookup_job (working (db wb)) (id job) = Some r).
  { exists ra. change (working (db wb)) with (working (db wa)).
    rewrite Hsynca. exact Hra. }
  set (w2 := worker_set_job_state wb job "completed" text).
  destruct (worker_set_job_state_text wb job "completed" text Hrowb)
    as (Hrowc & Hsync2 & Hres2 & Hf2 & Hev2).
  fold w2 in Hrowc, Hsync2, Hres2, Hf2, Hev2.
  assert (Hfaults : faults (db w2) = Some IntegrityError :: rest).
  { rewrite Hf2. change (faults (db wb)) with (faults (db wa)).
    rewrite Hfa. exact Hf. }
  destruct (process_result_after_integrity_error N wk job parse text p rest w2
              Hparse Hgood HN Hfaults)
    as (w' & Hproc & Hc & _ & _ & Hev).
  rewrite Hproc. exists w'. split; [reflexivity |].
  rewrite Hc. split; [exact Hrowc |]. split.
  - rewrite Hres2. change (working (db wb)) with (working (db wa)).
    rewrite Hsynca, Hresa, Hsync1. reflexivity.
  - rewrite Hev, Hev2.
    change (events wb) with (events wa ++ [RanCommand 0])%list.
    rewrite Heva, Hev1, <- !app_assoc. reflexivity.
Qed.

Lemma failed_insert_leaves_job_completed_witness :
  exists w',
    step 10 roc_worker parse_fine run_ok (roc_world_with [Some IntegrityError])
    = (Return true, w')
    /\ (exists row,
          lookup_job (committed (db w')) 5 = Some row
          /\ state row = "completed"
          /\ result row = "arch\: gfx90a")
    /\ results_table (committed (db w')) = []
    /\ events w'
       = [JobStateSet "running"; RanCommand 0; JobStateSet "completed";
          ParsedResult; Errored "Query failed"; RolledBack;
          Warned "RocMLIR:  Unable to update database"].
Proof.
  apply (failed_insert_leaves_job_completed 10 roc_worker parse_fine run_ok
           (roc_world_with [Some IntegrityError])
           (mkJob 5 9 1 "new" 1 0 "" "not_fin" "")
           (snd (get_job roc_worker "new" "running"
                         (roc_world_with [Some IntegrityError])))
           "arch: gfx90a"
           (mkParsed "gfx90a" "104" "conv -n 256" (Some "v2:64,64,4") "51.2")
           []);
    try reflexivity.
  lia.
Defined.

(** X8.  The insert of the result is part of the attempt: when it raises an
    exception that [session_retry] does not handle (a data error, say),
    [step] sleeps and runs the command of the job again, although the job was
    recorded as [completed]; when the second insert goes through, the job is
    [completed] with one result row, that of the second run. *)
Theorem unhandled_insert_error_reruns_command :
  forall NUM_SQL_RETRIES wk parse run_cmd w job w1 e rest out0 out1 p0 p1,
    (0 < NUM_SQL_RETRIES)%nat ->
    get_job wk "new" "running" w = (Some job, w1) ->
    faults (db w1) = Some e :: None :: rest ->
    retry_handles e = false ->
    run_cmd 0%nat = Return (0, out0) ->
    parse (replace_char ":" "\:" out0) = Return p0 -> bad_data p0 = false ->
    run_cmd 1%nat = Return (0, out1) ->
    parse (replace_char ":" "\:" out1) = Return p1 -> bad_data p1 = false ->
    exists w' secs,
      step NUM_SQL_RETRIES wk parse run_cmd w = (Return true, w')
      /\ 5 <= secs <= 30
      /\ events w'
         = (events w ++ [JobStateSet "running"; RanCommand 0;
                         JobStateSet "completed"; ParsedResult; Slept secs;
                         RanCommand 1; JobStateSet "completed";
                         ParsedResult])%list
      /\ (exists row,
            lookup_job (committed (db w')) (id job) = Some row
            /\ state row = "completed"
            /\ result row = replace_char ":" "\:" out1)
      /\ results_table (committed (db w'))
         = (results_table (committed (db w1)) ++ [result_row wk job p1])%list.
Proof.
  intros N wk parse run_cmd w job w1 e rest out0 out1 p0 p1 HN Hget Hf He
         Hrun0 Hparse0 Hgood0 Hrun1 Hparse1 Hgood1.
  destruct (get_job_claimed _ _ _ _ _ _ Hget) as (Hrow1 & Hsync1 & Hev1).
  rewrite (step_claimed N wk parse run_cmd w w1 job Hget).
  set (wa := worker_set_job_state w1 job "running" "").
  destruct (worker_set_job_state_text w1 job "running" "" Hrow1)
    as ((ra & Hra & _) & Hsynca & Hresa & Hfa & Heva).
  fold wa in Hra, Hsynca, Hresa, Hfa, Heva.
  rewrite retrying_more,
    (attempt_exit_zero N wk parse run_cmd job 0 wa out0 Hrun0).
  set (wb := emit (RanCommand 0) wa).
  set (text0 := replace_char ":" "\:" out0) in *.
  assert (Hrowb : exists r, lookup_job (working (db wb)) (id job) = Some r).
  { exists ra. change (working (db wb)) with (working (db wa)).
    rewrite Hsynca. exact Hra. }
  set (w2 := worker_set_job_state wb job "completed" text0).
  destruct (worker_set_job_state_text wb job "completed" text0 Hrowb)
    as ((rc & Hrc & _) & Hsync2 & Hres2 & Hf2 & Hev2).
  fold w2 in Hrc, Hsync2, Hres2, Hf2, Hev2.
  assert (Hfaults : faults (db w2) = Some e :: None :: rest).
  { rewrite Hf2. change (faults (db wb)) with (faults (db wa)).
    rewrite Hfa. exact Hf. }
  destruct (process_result_lets_through N wk job parse text0 p0 e (None :: rest)
              w2 Hparse0 Hgood0 HN Hfaults He)
    as (w3 & Hproc & Hc3 & Hw3 & Hf3 & Hev3).
  rewrite Hproc.
  destruct (randint_effects 5 30 w3 ltac:(lia)) as (Hs & Hd & Hes).
  destruct (randint 5 30 w3) as [secs w4]. cbn [fst snd] in Hs, Hd, Hes.
  cbv beta iota.
  rewrite retrying_more,
    (attempt_exit_zero N wk parse run_cmd job 1 (sleep secs w4) out1 Hrun1).
  set (w5 := emit (RanCommand 1) (sleep secs w4)).
  set (text1 := replace_char ":" "\:" out1) in *.
  assert (Hdb5 : db w5 = db w3) by (change (db w5) with (db w4); exact Hd).
  assert (Hrow5 : exists r, lookup_job (working (db w5)) (id job) = Some r).
  { exists rc. rewrite Hdb5, Hw3, Hsync2. exact Hrc. }
  set (w6 := worker_set_job_state w5 job "completed" text1).
  destruct (worker_set_job_state_text w5 job "completed" text1 Hrow5)
    as (Hrow6 & Hsync6 & Hres6 & Hf6 & Hev6).
  fold w6 in Hrow6, Hsync6, Hres6, Hf6, Hev6.
  assert (Hfaults6 : faults (db w6) = (repeat (Some OperationalError) 0
                                       ++ None :: rest)%list).
  { rewrite Hf6, Hdb5, Hf3. reflexivity. }
  destruct (insert_after_contention wk job parse text1 p1 Hparse1 Hgood1
              0 (N - 1) w6 rest Hfaults6 Hsync6)
    as (w7 & Hrun & Hc7 & _ & _ & _ & _).
  assert (Hproc7 : process_result N wk job parse text1 w6
                   = (Return (Value true), w7)).
  { unfold process_result, session_retry.
    replace N with (0 + S (N - 1))%nat at 1 by lia. rewrite Hrun. reflexivity. }
  rewrite Hproc7. exists w7, secs. split; [reflexivity |].
  split; [exact Hs |].
  assert (Hev7 : events w7 = (events w6 ++ [ParsedResult])%list).
  { pose proof Hrun as Hrun'. cbn [Nat.add session_retry_loop] in Hrun'.
    rewrite (update_result_table_usable wk job parse text1 p1 Hparse1 Hgood1)
      in Hrun'.
    unfold next_fault in Hrun'. rewrite Hfaults6 in Hrun'.
    cbn [repeat app] in Hrun'. injection Hrun' as <-. reflexivity. }
  split; [| split].
  - rewrite Hev7, Hev6.
    change (events w5) with ((events w4 ++ [Slept secs]) ++ [RanCommand 1])%list.
    rewrite Hes, Hev3, Hev2.
    change (events wb) with (events wa ++ [RanCommand 0])%list.
    rewrite Heva, Hev1, <- !app_assoc. reflexivity.
  - rewrite Hc7. exact Hrow6.
  - rewrite Hc7. cbn [with_results results_table]. rewrite Hres6, Hdb5, Hw3.
    rewrite Hsync2, Hres2. change (working (db wb)) with (working (db wa)).
    rewrite Hsynca, Hresa, Hsync1. reflexivity.
Qed.

Lemma unhandled_insert_error_reruns_command_witness :
  exists w' secs,
    step 10 roc_worker parse_fine run_ok (roc_world_with [Some DataError; None])
    = (Return true, w')
    /\ 5 <= secs <= 30
    /\ events w'
       = [JobStateSet "running"; RanCommand 0; JobStateSet "completed";
          ParsedResult; Slept secs; RanCommand 1; JobStateSet "completed";
          ParsedResult]
    /\ (exists row,
          lookup_job (committed (db w')) 5 = Some row
          /\ state row = "completed"
          /\ result row = "arch\: gfx90a")
    /\ results_table (committed (db w'))
       = [mkResults 1 1 "gfx90a" 9 "conv -n 256" "v2:64,64,4" "51.2"].
Proof.
  apply (unhandled_insert_error_reruns_command 10 roc_worker parse_fine run_ok
           (roc_world_with [Some DataError; None])
           (mkJob 5 9 1 "new" 1 0 "" "not_fin" "")
           (snd (get_job roc_worker "new" "running"
                         (roc_world_with [Some DataError; None])))
           DataError [] "arch: gfx90a" "arch: gfx90a"
           (mkParsed "gfx90a" "104" "conv -n 256" (Some "v2:64,64,4") "51.2")
           (mkParsed "gfx90a" "104" "conv -n 256" (Some "v2:64,64,4") "51.2"));
    try reflexivity.
  lia.
Defined.


(* ===================================================================== *)
(** * Further properties of the composition *)
(* ===================================================================== *)

Section ComposeFacts.

Variable args : Args.

Lemma over_proc_lim_ceil (k : Z) (len_rows : nat) :
  over_proc_lim k len_rows = true <-> ceil_div_100 len_rows < k.
Proof.
  unfold over_proc_lim. rewrite Z.ltb_lt.
  pose proof (ceil_div_100_bounds len_rows). lia.
Qed.

Lemma pop_to_limit_firstn (todo : nat) (l : list Z) (len_rows : nat) :
  (List.length l <= todo)%nat ->
  pop_to_limit todo l len_rows
  = firstn (Z.to_nat (ceil_div_100 len_rows)) l.
Proof.
  revert l. induction todo as [| todo IH]; intros l Hl; simpl.
  - destruct l; [| simpl in Hl; lia]. rewrite firstn_nil. reflexivity.
  - destruct (over_proc_lim (Z.of_nat (List.length l)) len_rows) eqn:E.
    + apply over_proc_lim_ceil in E.
      pose proof (ceil_div_100_bounds len_rows) as Hb.
      destruct l as [| a l]; [simpl in E; lia |].
      rewrite IH by (rewrite length_pop; simpl in Hl; lia).
      rewrite removelast_firstn_len, firstn_firstn.
      f_equal. simpl List.length in *. lia.
    + assert (Hle : ~ ceil_div_100 len_rows < Z.of_nat (List.length l)).
      { intros H. apply over_proc_lim_ceil in H. congruence. }
      rewrite firstn_all2; [reflexivity | lia].
Qed.

Lemma launch_all_applicability (machine : Machine) (ids : list Z)
    (worker_lst : list Launched) :
  update_applicability args = true ->
  launch_all args machine ids worker_lst
  = ((worker_lst
      ++ map (fun g => mkLaunched (machine_id machine) g ["applicability"]) ids)%list,
     []).
Proof.
  intros Happ. revert worker_lst.
  induction ids as [| g ids IH]; intros worker_lst; simpl.
  - rewrite app_nil_r. reflexivity.
  - unfold launch_worker. rewrite Happ, IH, <- app_assoc. reflexivity.
Qed.

Lemma launch_all_keeps_list (machine : Machine) (ids : list Z)
    (worker_lst : list Launched) :
  update_applicability args = false ->
  fst (launch_all args machine ids worker_lst) = worker_lst.
Proof.
  intros Happ. revert worker_lst.
  induction ids as [| g ids IH]; intros worker_lst; simpl; [reflexivity |].
  unfold launch_worker. rewrite Happ.
  destruct (check_status args).
  - destruct (negb (status_ok machine g)); [| reflexivity].
    specialize (IH worker_lst).
    destruct (launch_all args machine ids worker_lst). exact IH.
  - destruct (init_session args); [reflexivity |].
    destruct (execute_cmd args) as [[| c cmd] |]; reflexivity.
Qed.

Lemma launch_all_status (machine : Machine) (ids : list Z)
    (worker_lst : list Launched) :
  update_applicability args = false ->
  check_status args = true ->
  snd (launch_all args machine ids worker_lst)
  = map (CheckStatus (machine_id machine)) (until_ok (status_ok machine) ids).
Proof.
  intros Happ Hst. revert worker_lst.
  induction ids as [| g ids IH]; intros worker_lst; simpl; [reflexivity |].
  unfold launch_worker. rewrite Happ, Hst.
  destruct (status_ok machine g); simpl; [reflexivity |].
  specialize (IH worker_lst).
  destruct (launch_all args machine ids worker_lst). simpl in *.
  rewrite IH. reflexivity.
Qed.

Lemma launch_all_once (machine : Machine) (g : Z) (ids : list Z)
    (worker_lst : list Launched) :
  update_applicability args = false ->
  check_status args = false ->
  snd (launch_all args machine (g :: ids) worker_lst)
  = snd (launch_worker args machine g worker_lst).
Proof.
  intros Happ Hst. simpl. unfold launch_worker. rewrite Happ, Hst.
  destruct (init_session args); [reflexivity |].
  destruct (execute_cmd args) as [[| c cmd] |]; reflexivity.
Qed.

Lemma slots_worker_ids (machine : Machine) :
  fin_steps args = None ->
  update_applicability args = false ->
  machine_worker_ids args machine = Return (IdList (num_procs machine)).
Proof.
  intros Hfs Happ. unfold machine_worker_ids. rewrite Hfs, Happ. reflexivity.
Qed.

(** The loop outside the updates of solvers and applicability: every machine
    is handled in turn and the worker list stays as it is. *)
Lemma compose_loop_no_launch (machines : list Machine)
    (worker_lst : list Launched) (fin_work_done : bool) :
  restart_machine args = false ->
  update_solvers args = false ->
  update_applicability args = false ->
  fin_steps args = None ->
  (forall m, In m machines -> num_procs m <> []) ->
  compose_loop args machines worker_lst fin_work_done
  = (Return (Some worker_lst),
     flat_map (fun m => snd (launch_all args m (num_procs m) worker_lst))
              machines).
Proof.
  intros Hres Hsolv Happ Hfs.
  induction machines as [| m ms IH]; intros Hall; [reflexivity |].
  cbn [compose_loop flat_map]. rewrite Hres, (slots_worker_ids m Hfs Happ).
  assert (Hne : (len (IdList (num_procs m)) =? 0) = false).
  { apply Z.eqb_neq. simpl.
    destruct (num_procs m) eqn:E; [| simpl; lia].
    exfalso. apply (Hall m (or_introl eq_refl)). exact E. }
  rewrite Hne, Hsolv. cbn [andb ids_of].
  pose proof (launch_all_keeps_list m (num_procs m) worker_lst Happ) as Hk.
  destruct (launch_all args m (num_procs m) worker_lst) as [wl effs].
  cbn [fst snd] in *. subst wl.
  rewrite IH by (intros x Hx; apply Hall; right; exact Hx).
  reflexivity.
Qed.

Lemma compose_loop_applicability (machines : list Machine)
    (worker_lst : list Launched) :
  restart_machine args = false ->
  update_solvers args = false ->
  update_applicability args = true ->
  fin_steps args = None ->
  (forall m, In m machines -> num_procs m <> [] /\ (0 < cfg_rows m)%nat) ->
  compose_loop args machines worker_lst false
  = (Return
       (Some (worker_lst
              ++ flat_map
                   (fun m =>
                      map (fun g => mkLaunched (machine_id m) g ["applicability"])
                          (firstn (Z.to_nat (ceil_div_100 (cfg_rows m)))
                                  (num_procs m)))
                   machines)%list),
     []).
Proof.
  intros Hres Hsolv Happ Hfs. revert worker_lst.
  induction machines as [| m ms IH]; intros worker_lst Hall.
  - simpl. rewrite app_nil_r. reflexivity.
  - cbn [compose_loop flat_map]. rewrite Hres.
    unfold machine_worker_ids. rewrite Hfs, Happ.
    rewrite pop_to_limit_firstn by lia.
    destruct (Hall m (or_introl eq_refl)) as [Hprocs Hrows].
    assert (Hne : (len (IdList (firstn (Z.to_nat (ceil_div_100 (cfg_rows m)))
                                       (num_procs m))) =? 0) = false).
    { apply Z.eqb_neq. simpl. rewrite length_firstn.
      pose proof (ceil_div_100_bounds (cfg_rows m)).
      destruct (num_procs m); [congruence |]. simpl List.length. lia. }
    rewrite Hne, Hsolv. cbn [andb ids_of].
    rewrite (launch_all_applicability m _ worker_lst Happ).
    rewrite IH by (intros x Hx; apply Hall; right; exact Hx).
    rewrite <- app_assoc. reflexivity.
Qed.

Lemma compose_loop_restart (machines : list Machine)
    (worker_lst : list Launched) (fin_work_done : bool) :
  restart_machine args = true ->
  compose_loop args machines worker_lst fin_work_done
  = (Return (Some worker_lst),
     map (fun m => RestartServer (machine_id m)) machines).
Proof.
  intros Hres. induction machines as [| m ms IH]; [reflexivity |].
  cbn [compose_loop map]. rewrite Hres, IH. reflexivity.
Qed.

End ComposeFacts.


(** X9.  With the restart flag, the composition restarts every machine of the
    list, in order, and does nothing else: it asks no machine for worker
    ids, launches no worker, and returns the empty worker list, also for
    machines without worker ids. *)
Theorem restart_only_restarts :
  forall args machines,
    restart_machine args = true ->
    compose_worker_list args machines
    = (Return (Some []), map (fun m => RestartServer (machine_id m)) machines).
Proof.
  intros args machines Hres. apply compose_loop_restart. exact Hres.
Qed.

Lemma restart_only_restarts_witness :
  compose_worker_list restart_args [busy_machine; idle_machine]
  = (Return (Some []), [RestartServer 1; RestartServer 2]).
Proof.
  apply (restart_only_restarts restart_args [busy_machine; idle_machine]).
  reflexivity.
Defined.

(** X10.  In an update of the applicability over machines that all have
    process slots and pending configs, the composition returns, machine by
    machine in the order of the list, one applicability worker for each of
    the first ceil(pending / 100) process slots of the machine. *)
Theorem applicability_workers_launched :
  forall args machines,
    restart_machine args = false ->
    update_solvers args = false ->
    update_applicability args = true ->
    fin_steps args = None ->
    (forall m, In m machines -> num_procs m <> [] /\ (0 < cfg_rows m)%nat) ->
    compose_worker_list args machines
    = (Return
         (Some (flat_map
                  (fun m =>
                     map (fun g => mkLaunched (machine_id m) g ["applicability"])
                         (firstn (Z.to_nat (ceil_div_100 (cfg_rows m)))
                                 (num_procs m)))
                  machines)),
       []).
Proof.
  intros args machines Hres Hsolv Happ Hfs Hall.
  unfold compose_worker_list.
  rewrite (compose_loop_applicability args machines [] Hres Hsolv Happ Hfs Hall).
  reflexivity.
Qed.

Lemma applicability_workers_launched_witness :
  compose_worker_list applic_args [busy_machine; gpu_machine]
  = (Return (Some [mkLaunched 1 0 ["applicability"];
                   mkLaunched 1 1 ["applicability"];
                   mkLaunched 3 0 ["applicability"];
                   mkLaunched 3 1 ["applicability"]]),
     []).
Proof.
  apply (applicability_workers_launched applic_args [busy_machine; gpu_machine]);
    try reflexivity.
  intros m [<- | [<- | []]]; simpl; split; try discriminate; lia.
Defined.

(** X11.  A new session and a command to execute are handled once per
    machine, on the first process slot of the machine, not once per slot:
    the composition adds one session per machine, or runs the command, with
    [ 2>&1 ] after it, once per machine, and returns the empty worker
    list. *)
Theorem one_action_per_machine :
  forall args machines,
    restart_machine args = false ->
    update_solvers args = false ->
    update_applicability args = false ->
    check_status args = false ->
    fin_steps args = None ->
    (forall m, In m machines -> num_procs m <> []) ->
    fst (compose_worker_list args machines) = Return (Some [])
    /\ (init_session args = true ->
        snd (compose_worker_list args machines)
        = map (fun m => AddSession (machine_id m) (hd 0 (num_procs m))) machines)
    /\ (init_session args = false ->
        forall c cmd,
          execute_cmd args = Some (String c cmd) ->
          snd (compose_worker_list args machines)
          = map (fun m => ExecCommand (machine_id m) (hd 0 (num_procs m))
                                      (String c cmd ++ " 2>&1 "))
                machines).
Proof.
  intros args machines Hres Hsolv Happ Hst Hfs Hall.
  unfold compose_worker_list.
  rewrite (compose_loop_no_launch args machines [] false Hres Hsolv Happ Hfs Hall).
  split; [reflexivity |]. cbn [snd].
  split.
  - intros Hinit. induction machines as [| m ms IH]; [reflexivity |].
    cbn [flat_map map].
    rewrite IH by (intros x Hx; apply Hall; right; exact Hx).
    destruct (num_procs m) as [| g ids] eqn:E;
      [exfalso; apply (Hall m (or_introl eq_refl)); exact E |].
    rewrite (launch_all_once args m g ids [] Happ Hst).
    unfold launch_worker. rewrite Happ, Hst, Hinit. reflexivity.
  - intros Hinit c cmd Hcmd. induction machines as [| m ms IH]; [reflexivity |].
    cbn [flat_map map].
    rewrite IH by (intros x Hx; apply Hall; right; exact Hx).
    destruct (num_procs m) as [| g ids] eqn:E;
      [exfalso; apply (Hall m (or_introl eq_refl)); exact E |].
    rewrite (launch_all_once args m g ids [] Happ Hst).
    unfold launch_worker. rewrite Happ, Hst, Hinit, Hcmd. reflexivity.
Qed.

Lemma one_action_per_machine_witness :
  snd (compose_worker_list exec_args [busy_machine; gpu_machine])
  = [ExecCommand 1 0 "uptime 2>&1 "; ExecCommand 3 0 "uptime 2>&1 "]
  /\ snd (compose_worker_list session_args [busy_machine; gpu_machine])
     = [AddSession 1 0; AddSession 3 0].
Proof.
  split.
  - apply (proj2 (proj2 (one_action_per_machine exec_args
                           [busy_machine; gpu_machine] eq_refl eq_refl eq_refl
                           eq_refl eq_refl
                           ltac:(intros m [<- | [<- | []]]; discriminate)))
             eq_refl "u"%char "ptime" eq_refl).
  - apply (proj1 (proj2 (one_action_per_machine session_args
                           [busy_machine; gpu_machine] eq_refl eq_refl eq_refl
                           eq_refl eq_refl
                           ltac:(intros m [<- | [<- | []]]; discriminate)))
             eq_refl).
Defined.

(** X12.  In a status check the process slots of a machine are checked in
    order up to and with the first slot whose check succeeds; the slots after
    it are not checked, and no worker is returned. *)
Theorem status_check_stops_at_first_success :
  forall args machines,
    restart_machine args = false ->
    update_solvers args = false ->
    update_applicability args = false ->
    check_status args = true ->
    fin_steps args = None ->
    (forall m, In m machines -> num_procs m <> []) ->
    compose_worker_list args machines
    = (Return (Some []),
       flat_map (fun m => map (CheckStatus (machine_id m))
                              (until_ok (status_ok m) (num_procs m)))
                machines).
Proof.
  intros args machines Hres Hsolv Happ Hst Hfs Hall.
  unfold compose_worker_list.
  rewrite (compose_loop_no_launch args machines [] false Hres Hsolv Happ Hfs Hall).
  f_equal. induction machines as [| m ms IH]; [reflexivity |].
  cbn [flat_map].
  rewrite IH by (intros x Hx; apply Hall; right; exact Hx).
  rewrite (launch_all_status args m (num_procs m) [] Happ Hst). reflexivity.
Qed.

Lemma status_check_stops_at_first_success_witness :
  compose_worker_list status_args [busy_machine; gpu_machine]
  = (Return (Some []),
     [CheckStatus 1 0; CheckStatus 3 0; CheckStatus 3 1]).
Proof.
  apply (status_check_stops_at_first_success status_args
           [busy_machine; gpu_machine]);
    try reflexivity.
  intros m [<- | [<- | []]]; discriminate.
Defined.

(** X13.  For an evaluation step the worker ids of a machine are its
    available GPUs, unless a GPU limit that is not 0 lies below their number:
    then the ids are 0 up to the limit less one, whatever the ids of the
    available GPUs are.  A limit of 0 counts as no limit, and with a positive
    limit there are never more ids than the limit. *)
Theorem eval_worker_ids_under_gpu_limit :
  forall args machine step steps,
    fin_steps args = Some (step :: steps) ->
    contains "eval" step = true ->
    update_applicability args = false ->
    (gpu_lim args = None \/ gpu_lim args = Some 0 ->
     machine_worker_ids args machine = Return (IdList (avail_gpus machine)))
    /\ (forall lim,
          gpu_lim args = Some lim -> lim <> 0 ->
          Z.of_nat (List.length (avail_gpus machine)) <= lim ->
          machine_worker_ids args machine = Return (IdList (avail_gpus machine)))
    /\ (forall lim,
          gpu_lim args = Some lim -> lim <> 0 ->
          lim < Z.of_nat (List.length (avail_gpus machine)) ->
          machine_worker_ids args machine = Return (IdRange lim)
          /\ ids_of (IdRange lim) = map Z.of_nat (seq 0 (Z.to_nat lim)))
    /\ (forall lim worker_ids,
          gpu_lim args = Some lim -> 0 < lim ->
          machine_worker_ids args machine = Return worker_ids ->
          len worker_ids <= lim).
Proof.
  intros args machine step steps Hfs Heval Happ.
  unfold machine_worker_ids. rewrite Hfs, Heval, Happ.
  split; [| split; [| split]].
  - intros [-> | ->]; reflexivity.
  - intros lim -> Hne Hle. simpl.
    destruct (lim =? 0) eqn:E; [apply Z.eqb_eq in E; contradiction |].
    destruct (lim <? _) eqn:E2; [apply Z.ltb_lt in E2; lia | reflexivity].
  - intros lim -> Hne Hlt. simpl.
    destruct (lim =? 0) eqn:E; [apply Z.eqb_eq in E; contradiction |].
    destruct (lim <? _) eqn:E2; [split; reflexivity | apply Z.ltb_ge in E2; lia].
  - intros lim worker_ids -> Hpos. simpl.
    destruct (lim =? 0) eqn:E; [apply Z.eqb_eq in E; lia |].
    destruct (lim <? _) eqn:E2; intros H; injection H as <-; simpl.
    + lia.
    + apply Z.ltb_ge in E2. exact E2.
Qed.

Lemma eval_worker_ids_under_gpu_limit_witness :
  machine_worker_ids eval_args gpu_machine = Return (IdRange 2)
  /\ ids_of (IdRange 2) = [0; 1].
Proof.
  apply (proj1 (proj2 (proj2
           (eval_worker_ids_under_gpu_limit eval_args gpu_machine
              "miopen_find_eval" [] eq_refl eq_refl eq_refl))) 2 eq_refl).
  - discriminate.
  - simpl. lia.
Defined.


(* ===================================================================== *)
(** * Properties of the arguments, the environment and the operation *)
(* ===================================================================== *)

Section SplitFacts.

Lemma prefix_empty (s : string) : prefix "" s = true.
Proof. destruct s; reflexivity. Qed.

Lemma contains_char_cons (c d : ascii) (s : string) :
  contains (String c "") (String d s)
  = (if Ascii.eqb d c then true else contains (String c "") s).
Proof.
  simpl. rewrite prefix_empty.
  destruct (ascii_dec c d) as [<- | Hne].
  - rewrite Ascii.eqb_refl. reflexivity.
  - destruct (Ascii.eqb d c) eqn:E; [| reflexivity].
    apply Ascii.eqb_eq in E. congruence.
Qed.

Lemma contains_char_app (c : ascii) (s t : string) :
  contains (String c "") (s ++ t)
  = contains (String c "") s || contains (String c "") t.
Proof.
  induction s as [| d s IH].
  - simpl. destruct t; reflexivity.
  - change (String d s ++ t) with (String d (s ++ t)).
    rewrite !contains_char_cons, IH.
    destruct (Ascii.eqb d c); reflexivity.
Qed.

Lemma split_on_nonempty (c : ascii) (s : string) : split_on c s <> [].
Proof.
  destruct s as [| d s]; simpl; [discriminate |].
  destruct (Ascii.eqb d c); [discriminate |].
  destruct (split_on c s); discriminate.
Qed.

Lemma split_on_pieces (c : ascii) (s : string) :
  forall piece, In piece (split_on c s) -> contains (String c "") piece = false.
Proof.
  induction s as [| d s IH]; simpl.
  - intros piece [<- | []]. reflexivity.
  - destruct (Ascii.eqb d c) eqn:E.
    + intros piece [<- | H]; [reflexivity | apply IH; exact H].
    + pose proof (split_on_nonempty c s) as Hne.
      destruct (split_on c s) as [| p ps]; [contradiction |].
      intros piece [<- | H].
      * rewrite contains_char_cons, E. apply IH. left. reflexivity.
      * apply IH. right. exact H.
Qed.

Lemma split_on_app (c : ascii) (piece s : string) :
  contains (String c "") piece = false ->
  split_on c (piece ++ String c s) = piece :: split_on c s.
Proof.
  induction piece as [| d piece IH]; intros H.
  - simpl. rewrite Ascii.eqb_refl. reflexivity.
  - rewrite contains_char_cons in H.
    change (String d piece ++ String c s) with (String d (piece ++ String c s)).
    cbn [split_on]. destruct (Ascii.eqb d c); [discriminate |].
    rewrite (IH H). reflexivity.
Qed.

(** Joining with a comma and a blank and splitting at commas gives the
    pieces back, all but the first with a blank before them. *)
Lemma split_join_comma_blank (piece : string) (pieces : list string) :
  (forall x, In x (piece :: pieces) -> contains "," x = false) ->
  split_on "," (String.concat ", " (piece :: pieces))
  = piece :: map (fun x => " " ++ x) pieces.
Proof.
  revert piece. induction pieces as [| q pieces IH]; intros piece Hall.
  - simpl. apply split_without_separator. apply Hall. left. reflexivity.
  - assert (Hjoin : String.concat ", " (piece :: q :: pieces)
                    = piece ++ String ","
                        (String.concat ", " ((" " ++ q) :: pieces))).
    { destruct pieces; reflexivity. }
    rewrite Hjoin, split_on_app by (apply Hall; left; reflexivity).
    rewrite IH; [reflexivity |].
    intros x [<- | Hx].
    + change (" " ++ q) with (String " " q).
      rewrite contains_char_cons. simpl Ascii.eqb. cbv iota.
      apply Hall. right. left. reflexivity.
    + apply Hall. right. right. exact Hx.
Qed.

End SplitFacts.

(** X14.  For a blacklist that [check_blacklist] accepts, which is not empty
    and names algorithms of the list only, [get_envmt] adds one entry per
    algorithm to the environment: [<name>=0] for the first, and for each of
    the others [ <name>=0] with a blank before the name, the blank of the
    [", "] the names were joined with. *)
Theorem blacklist_environment :
  forall MIOPEN_ALG_LIST blacklist names find_mode,
    check_blacklist MIOPEN_ALG_LIST blacklist = Return names ->
    exists name others,
      names = name :: others
      /\ (forall x, In x names -> In x MIOPEN_ALG_LIST)
      /\ get_envmt find_mode (Some names)
         = (get_envmt find_mode None
            ++ (name ++ "=0")%string
               :: map (fun x => (" " ++ x ++ "=0")%string) others)%list.
Proof.
  intros ALG blacklist names find_mode Hcheck.
  unfold check_blacklist in Hcheck.
  destruct (forallb _ _) eqn:Hall in Hcheck; [| discriminate].
  injection Hcheck as <-.
  pose proof (split_on_nonempty "," blacklist) as Hne.
  pose proof (split_on_pieces "," blacklist) as Hpieces.
  destruct (split_on "," blacklist) as [| name others]; [contradiction |].
  exists name, others. split; [reflexivity |]. split.
  - intros x Hx. rewrite forallb_forall in Hall.
    apply str_in_In. apply Hall. exact Hx.
  - unfold get_envmt. f_equal.
    change (map (fun arg => arg ++ "=0") (name :: others))
      with ((name ++ "=0") :: map (fun arg => arg ++ "=0") others).
    rewrite split_join_comma_blank.
    + rewrite map_map. reflexivity.
    + intros x Hx.
      assert (Hx' : exists y, In y (name :: others) /\ x = y ++ "=0").
      { destruct Hx as [<- | Hx]; [exists name; split; [left |]; reflexivity |].
        apply in_map_iff in Hx. destruct Hx as (y & <- & Hy).
        exists y. split; [right; exact Hy | reflexivity]. }
      destruct Hx' as (y & Hy & ->).
      rewrite contains_char_app, (Hpieces y Hy). reflexivity.
Qed.

Lemma blacklist_environment_witness :
  exists name others,
    ["miopenConvolutionAlgoGEMM"; "miopenConvolutionAlgoFFT"] = name :: others
    /\ (forall x,
          In x ["miopenConvolutionAlgoGEMM"; "miopenConvolutionAlgoFFT"] ->
          In x some_algorithms)
    /\ get_envmt (Some 1)
         (Some ["miopenConvolutionAlgoGEMM"; "miopenConvolutionAlgoFFT"])
       = (get_envmt (Some 1) None
          ++ (name ++ "=0")%string
             :: map (fun x => (" " ++ x ++ "=0")%string) others)%list.
Proof.
  apply (blacklist_environment some_algorithms
           "miopenConvolutionAlgoGEMM,miopenConvolutionAlgoFFT").
  reflexivity.
Defined.

(** X15.  The fin steps for which [has_tunable_operation] holds (with no
    subcommand and no shutdown of the workers) are those for which
    [update_operation] sets an operation: then [set_state] is
    [compile_start] for a compile step and [eval_start] otherwise, and the
    states to fetch hold [new], and [compiled] for an evaluation.  For all
    other fin steps [update_operation] leaves [set_state] and [operation] as
    they are. *)
Theorem tunable_operation_has_states :
  forall args t,
    (has_tunable_operation None false args = true ->
     In "new" (fetch_state (update_operation args t))
     /\ ((set_state (update_operation args t) = Some "compile_start"
          /\ operation (update_operation args t) = Some COMPILE)
         \/ (set_state (update_operation args t) = Some "eval_start"
             /\ operation (update_operation args t) = Some EVAL
             /\ In "compiled" (fetch_state (update_operation args t)))))
    /\ (has_tunable_operation None false args = false ->
        set_state (update_operation args t) = set_state t
        /\ operation (update_operation args t) = operation t).
Proof.
  intros args t.
  assert (Hadd : forall x s, In x (set_add x s)).
  { intros x s. unfold set_add. destruct (str_in x s) eqn:E.
    - apply str_in_In. exact E.
    - apply in_or_app. right. left. reflexivity. }
  assert (Hkeep : forall x y s, In x s -> In x (set_add y s)).
  { intros x y s H. unfold set_add. destruct (str_in y s); [exact H |].
    apply in_or_app. left. exact H. }
  unfold has_tunable_operation, update_operation, steps_have,
    MIOPEN_CELERY_STEPS.
  cbn [truthy_str existsb].
  destruct (fin_steps args) as [[| s l] |].
  - split; [discriminate |]. intros _.
    destruct (update_applicability args); split; reflexivity.
  - destruct (str_in "miopen_find_compile" (s :: l)),
             (str_in "miopen_perf_compile" (s :: l)),
             (str_in "miopen_find_eval" (s :: l)),
             (str_in "miopen_perf_eval" (s :: l));
      cbn [orb]; (split; [intros H; try discriminate H | try discriminate]);
      destruct (update_applicability args); cbn [fetch_state set_state operation];
      try (split; [solve [auto] | solve [auto 6]]);
      try (intros _; split; reflexivity).
  - split; [discriminate |]. intros _.
    destruct (update_applicability args); split; reflexivity.
Qed.

Lemma tunable_operation_has_states_witness :
  In "new" (fetch_state (update_operation eval_args fresh_tuning))
  /\ ((set_state (update_operation eval_args fresh_tuning)
       = Some "compile_start"
       /\ operation (update_operation eval_args fresh_tuning) = Some COMPILE)
      \/ (set_state (update_operation eval_args fresh_tuning)
          = Some "eval_start"
          /\ operation (update_operation eval_args fresh_tuning) = Some EVAL
          /\ In "compiled"
                (fetch_state (update_operation eval_args fresh_tuning)))).
Proof.
  apply (proj1 (tunable_operation_has_states eval_args fresh_tuning)).
  reflexivity.
Defined.


(* ===================================================================== *)
(** * Properties of the fin steps of the job loader *)
(* ===================================================================== *)

Section SortFacts.

Let le (a b : string) : Prop := String.leb a b = true.

Lemma string_compare_trans (a b c : string) :
  String.compare a b <> Gt -> String.compare b c <> Gt ->
  String.compare a c <> Gt.
Proof.
  revert b c. induction a as [| x a IH]; intros [| y b] [| z c]; simpl;
    try congruence.
  unfold Ascii.compare.
  destruct (N.compare_spec (N_of_ascii x) (N_of_ascii y)),
           (N.compare_spec (N_of_ascii y) (N_of_ascii z)),
           (N.compare_spec (N_of_ascii x) (N_of_ascii z));
    try congruence; try lia.
  apply IH.
Qed.

Lemma string_leb_trans (a b c : string) :
  String.leb a b = true -> String.leb b c = true -> String.leb a c = true.
Proof.
  unfold String.leb. intros Hab Hbc.
  pose proof (string_compare_trans a b c) as H.
  destruct (String.compare a b); try discriminate;
    destruct (String.compare b c); try discriminate;
    destruct (String.compare a c); try reflexivity;
    exfalso; apply H; congruence.
Qed.

Lemma In_insert_sorted (x y : string) (l : list string) :
  In y (insert_sorted x l) <-> y = x \/ In y l.
Proof.
  induction l as [| z l IH]; simpl.
  - intuition congruence.
  - destruct (String.leb x z); simpl; [intuition congruence |].
    rewrite IH. intuition congruence.
Qed.

Lemma In_sorted (x : string) (l : list string) : In x (sorted l) <-> In x l.
Proof.
  induction l as [| y l IH]; simpl; [tauto |].
  rewrite In_insert_sorted, IH. intuition congruence.
Qed.

Lemma insert_sorted_ascending (x : string) (l : list string) :
  StronglySorted le l -> StronglySorted le (insert_sorted x l).
Proof.
  induction 1 as [| y l Hl IH Hy]; simpl.
  - constructor; constructor.
  - destruct (String.leb x y) eqn:E.
    + constructor; [constructor; assumption |].
      constructor; [exact E |].
      rewrite Forall_forall in *. intros z Hz.
      exact (string_leb_trans x y z E (Hy z Hz)).
    + constructor; [exact IH |].
      rewrite Forall_forall in *. intros z Hz.
      apply In_insert_sorted in Hz. destruct Hz as [-> | Hz].
      * destruct (String.leb_total x y) as [H | H]; [congruence | exact H].
      * apply Hy. exact Hz.
Qed.

Lemma sorted_ascending (l : list string) : StronglySorted le (sorted l).
Proof.
  induction l as [| x l IH]; simpl; [constructor |].
  apply insert_sorted_ascending. exact IH.
Qed.

Lemma NoDup_insert_sorted (x : string) (l : list string) :
  ~ In x l -> NoDup l -> NoDup (insert_sorted x l).
Proof.
  induction l as [| y l IH]; simpl; intros Hx Hl.
  - constructor; [intros [] | constructor].
  - destruct (String.leb x y).
    + constructor; [exact Hx | exact Hl].
    + inversion Hl as [| ? ? Hy Hl']; subst. constructor.
      * rewrite In_insert_sorted. intros [-> | H]; [apply Hx; left; reflexivity |].
        apply Hy. exact H.
      * apply IH; [| exact Hl']. intros H. apply Hx. right. exact H.
Qed.

Lemma NoDup_sorted (l : list string) : NoDup l -> NoDup (sorted l).
Proof.
  induction 1 as [| x l Hx Hl IH]; simpl; [constructor |].
  apply NoDup_insert_sorted; [| exact IH].
  rewrite In_sorted. exact Hx.
Qed.

Lemma ascending_unique (l1 l2 : list string) :
  StronglySorted le l1 -> StronglySorted le l2 -> NoDup l1 -> NoDup l2 ->
  (forall x, In x l1 <-> In x l2) -> l1 = l2.
Proof.
  revert l2. induction l1 as [| a l1 IH]; intros [| b l2] S1 S2 N1 N2 Hsame.
  - reflexivity.
  - destruct (proj2 (Hsame b)). left. reflexivity.
  - destruct (proj1 (Hsame a)). left. reflexivity.
  - inversion S1 as [| ? ? S1' F1]; inversion S2 as [| ? ? S2' F2]; subst.
    inversion N1 as [| ? ? Ha N1']; inversion N2 as [| ? ? Hb N2']; subst.
    rewrite Forall_forall in F1, F2.
    assert (Hab : a = b).
    { destruct (proj1 (Hsame a) (or_introl eq_refl)) as [E | Hin2];
        [symmetry; exact E |].
      destruct (proj2 (Hsame b) (or_introl eq_refl)) as [E | Hin1];
        [exact E |].
      apply String.leb_antisym; [apply F1; exact Hin1 | apply F2; exact Hin2]. }
    subst b. f_equal. apply IH; try assumption.
    intros x. split; intros Hx.
    + destruct (proj1 (Hsame x) (or_intror Hx)) as [E | H]; [| exact H].
      subst x. contradiction.
    + destruct (proj2 (Hsame x) (or_intror Hx)) as [E | H]; [| exact H].
      subst x. contradiction.
Qed.

(** [sorted] of a set depends on its members only. *)
Lemma sorted_set (l1 l2 : list string) :
  (forall x, In x l1 <-> In x l2) ->
  sorted (nodup string_dec l1) = sorted (nodup string_dec l2).
Proof.
  intros Hsame. apply ascending_unique.
  - apply sorted_ascending.
  - apply sorted_ascending.
  - apply NoDup_sorted, NoDup_nodup.
  - apply NoDup_sorted, NoDup_nodup.
  - intros x. rewrite !In_sorted, !nodup_In. apply Hsame.
Qed.

End SortFacts.

Section LoaderFacts.

Lemma append_empty (s : string) : s ++ "" = s.
Proof. induction s as [| c s IH]; simpl; [| rewrite IH]; reflexivity. Qed.

Lemma append_assoc' (a b c : string) : (a ++ b) ++ c = a ++ b ++ c.
Proof. induction a as [| d a IH]; simpl; [| rewrite IH]; reflexivity. Qed.

Lemma concat_In (sep x : string) (l : list string) :
  In x l -> exists pre post, String.concat sep l = pre ++ x ++ post.
Proof.
  induction l as [| a l IH]; [intros [] |].
  destruct l as [| b l].
  - intros [-> | []]. exists "", "". simpl. rewrite append_empty. reflexivity.
  - intros [-> | Hx].
    + exists "", (sep ++ String.concat sep (b :: l)). reflexivity.
    + destruct (IH Hx) as (pre & post & E).
      exists (a ++ sep ++ pre), post.
      change (String.concat sep (a :: b :: l))
        with (a ++ sep ++ String.concat sep (b :: l)).
      rewrite E, !append_assoc'. reflexivity.
Qed.

Lemma sql_like_any (pat s : string) :
  sql_like (String "%" pat) s
  = sql_like pat s
    || match s with
       | EmptyString => false
       | String _ s' => sql_like (String "%" pat) s'
       end.
Proof. destruct s; reflexivity. Qed.

Lemma sql_like_percent (s : string) : sql_like "%" s = true.
Proof.
  induction s as [| c s IH]; [reflexivity |].
  rewrite sql_like_any, IH. apply orb_true_r.
Qed.

Lemma sql_like_self (x : string) : sql_like x x = true.
Proof.
  induction x as [| c x IH]; [reflexivity |].
  destruct (Ascii.eqb c "%") eqn:E.
  - apply Ascii.eqb_eq in E. subst c.
    rewrite sql_like_any, sql_like_any, IH. apply orb_true_r.
  - simpl. rewrite E. destruct (Ascii.eqb c "_"); [exact IH |].
    rewrite Ascii.eqb_refl. exact IH.
Qed.

Lemma sql_like_then_any (pat s post : string) :
  sql_like pat s = true -> sql_like (pat ++ "%") (s ++ post) = true.
Proof.
  revert s. induction pat as [| c pat IH]; intros s H.
  - destruct s; [| discriminate]. apply sql_like_percent.
  - destruct (Ascii.eqb c "%") eqn:E.
    + apply Ascii.eqb_eq in E. subst c.
      change (String "%" pat ++ "%") with (String "%" (pat ++ "%")).
      induction s as [| d s IHs].
      * rewrite sql_like_any in H. rewrite orb_false_r in H.
        rewrite sql_like_any, (IH "" H). reflexivity.
      * rewrite sql_like_any in H.
        change (String d s ++ post) with (String d (s ++ post)).
        rewrite sql_like_any.
        apply orb_true_iff in H. destruct H as [H | H].
        -- change (String d (s ++ post)) with (String d s ++ post).
           rewrite (IH _ H). reflexivity.
        -- rewrite (IHs H). apply orb_true_r.
    + simpl in H |- *. rewrite E in H |- *.
      destruct (Ascii.eqb c "_").
      * destruct s as [| d s]; [discriminate |]. simpl. apply IH. exact H.
      * destruct s as [| d s]; [discriminate |]. simpl.
        apply andb_true_iff in H. destruct H as [-> H]. apply IH. exact H.
Qed.

Lemma sql_like_any_then (pat pre s : string) :
  sql_like pat s = true -> sql_like (String "%" pat) (pre ++ s) = true.
Proof.
  intros H. induction pre as [| c pre IH].
  - simpl append. rewrite sql_like_any, H. reflexivity.
  - change (String c pre ++ s) with (String c (pre ++ s)).
    rewrite sql_like_any, IH. apply orb_true_r.
Qed.

(** A text that holds [x] is like [%x%]. *)
Lemma sql_like_inside (x pre post : string) :
  sql_like ("%" ++ x ++ "%") (pre ++ x ++ post) = true.
Proof.
  apply (sql_like_any_then (x ++ "%") pre (x ++ post)).
  apply sql_like_then_any, sql_like_self.
Qed.

Lemma nodup_not_empty (l : list string) : l <> [] -> nodup string_dec l <> [].
Proof.
  destruct l as [| x l]; [congruence |]. intros _ E.
  pose proof (proj2 (nodup_In string_dec (x :: l) x) (or_introl eq_refl)) as H.
  rewrite E in H. exact H.
Qed.

Lemma sorted_not_empty (l : list string) : l <> [] -> sorted l <> [].
Proof.
  destruct l as [| x l]; [congruence |]. intros _ E.
  pose proof (proj2 (In_sorted x (x :: l)) (or_introl eq_refl)) as H.
  rewrite E in H. exact H.
Qed.

(** The text for an argument that is not empty. *)
Lemma fin_step_str_given (s : string) :
  s <> "" ->
  fin_step_str (arg_fin_steps (Some s))
  = String.concat ","
      (sorted (nodup string_dec (map strip (split_on "," s)))).
Proof.
  intros Hs. destruct s as [| c s]; [congruence |].
  unfold arg_fin_steps, fin_step_str.
  assert (Hne : nodup string_dec (map strip (split_on "," (String c s))) <> []).
  { apply nodup_not_empty. intros E. apply map_eq_nil in E.
    exact (split_on_nonempty _ _ E). }
  destruct (nodup string_dec (map strip (split_on "," (String c s))));
    [congruence | reflexivity].
Qed.

Lemma lstrip_blank (s : string) :
  (forall c, In c (list_ascii_of_string s) -> is_space c = true) ->
  lstrip s = "".
Proof.
  induction s as [| c s IH]; simpl; intros H; [reflexivity |].
  rewrite (H c (or_introl eq_refl)). apply IH.
  intros d Hd. apply H. right. exact Hd.
Qed.

Lemma split_on_chars (c : ascii) (s piece : string) (d : ascii) :
  In piece (split_on c s) -> In d (list_ascii_of_string piece) ->
  In d (list_ascii_of_string s) /\ d <> c.
Proof.
  revert piece. induction s as [| e s IH]; simpl; intros piece.
  - intros [<- | []] [].
  - destruct (Ascii.eqb e c) eqn:E.
    + intros [<- | H] Hd; [destruct Hd |].
      destruct (IH piece H Hd). split; [right |]; assumption.
    + pose proof (split_on_nonempty c s) as Hne.
      destruct (split_on c s) as [| p ps]; [contradiction |].
      intros [<- | H] Hd.
      * destruct Hd as [<- | Hd].
        -- split; [left; reflexivity |]. intros ->.
           rewrite Ascii.eqb_refl in E. discriminate.
        -- destruct (IH p (or_introl eq_refl) Hd). split; [right |]; assumption.
      * destruct (IH piece (or_intror H) Hd). split; [right |]; assumption.
Qed.

Lemma nodup_all_same (x : string) (l : list string) :
  l <> [] -> (forall y, In y l -> y = x) -> nodup string_dec l = [x].
Proof.
  induction l as [| a l IH]; [congruence |]. intros _ Hall.
  pose proof (Hall a (or_introl eq_refl)) as ->.
  simpl. destruct (in_dec string_dec x l) as [Hin | Hout].
  - apply IH; [intros ->; destruct Hin |].
    intros y Hy. apply Hall. right. exact Hy.
  - destruct l as [| b l]; [reflexivity |].
    exfalso. apply Hout. left. apply Hall. right. left. reflexivity.
Qed.

End LoaderFacts.

(** X16.  The text [add_jobs] looks existing jobs up by depends only on which
    steps the [fin_steps] argument names: two arguments that give the same
    steps once blanks are stripped, in whatever order and however often,
    give the same text. *)
Theorem fin_step_text_ignores_order :
  forall s1 s2,
    s1 <> "" -> s2 <> "" ->
    (forall step, In step (map strip (split_on "," s1))
                  <-> In step (map strip (split_on "," s2))) ->
    fin_step_str (arg_fin_steps (Some s1))
    = fin_step_str (arg_fin_steps (Some s2)).
Proof.
  intros s1 s2 H1 H2 Hsame.
  rewrite (fin_step_str_given s1 H1), (fin_step_str_given s2 H2).
  f_equal. apply sorted_set. exact Hsame.
Qed.

Lemma fin_step_text_ignores_order_witness :
  fin_step_str (arg_fin_steps (Some "miopen_find_eval, miopen_find_compile"))
  = fin_step_str
      (arg_fin_steps
         (Some "miopen_find_compile ,miopen_find_eval,miopen_find_compile")).
Proof.
  apply (fin_step_text_ignores_order
           "miopen_find_eval, miopen_find_compile"
           "miopen_find_compile ,miopen_find_eval,miopen_find_compile").
  - discriminate.
  - discriminate.
  - intros step. cbv. tauto.
Defined.

(** X17.  A job whose [fin_step] is the text [add_jobs] builds for a
    [fin_steps] argument meets the fin-step condition of the claim,
    [fin_step like '%<step>%'], for every step the argument names. *)
Theorem loaded_steps_meet_claim_condition :
  forall s step j,
    s <> "" ->
    In step (map strip (split_on "," s)) ->
    fin_step j = fin_step_str (arg_fin_steps (Some s)) ->
    eval_cond (CondFinStepLike step) j = true.
Proof.
  intros s step j Hs Hstep Hj.
  unfold eval_cond. rewrite Hj, (fin_step_str_given s Hs).
  destruct (concat_In "," step
              (sorted (nodup string_dec (map strip (split_on "," s)))))
    as (pre & post & E).
  - apply In_sorted, nodup_In. exact Hstep.
  - rewrite E. apply sql_like_inside.
Qed.

Lemma loaded_steps_meet_claim_condition_witness :
  eval_cond (CondFinStepLike "miopen_find_eval")
    (mkJob 1 1 1 "new" 1 0 "" "miopen_find_compile,miopen_find_eval" "")
  = true.
Proof.
  apply (loaded_steps_meet_claim_condition
           "miopen_find_eval, miopen_find_compile").
  - discriminate.
  - left. reflexivity.
  - reflexivity.
Defined.

(** X18.  Without a [fin_steps] argument, or with the empty one, the text is
    [not_fin]; but for an argument of blanks and commas only, the set of
    steps holds the empty step, and the text is empty. *)
Theorem blank_fin_steps_text :
  fin_step_str (arg_fin_steps None) = "not_fin"
  /\ fin_step_str (arg_fin_steps (Some "")) = "not_fin"
  /\ forall s,
       s <> "" ->
       (forall c, In c (list_ascii_of_string s) ->
                  is_space c = true \/ c = ","%char) ->
       arg_fin_steps (Some s) = Some [""]
       /\ fin_step_str (arg_fin_steps (Some s)) = "".
Proof.
  split; [reflexivity |]. split; [reflexivity |].
  intros s Hs Hblank.
  assert (Hall : forall x, In x (map strip (split_on "," s)) -> x = "").
  { intros x Hx. apply in_map_iff in Hx. destruct Hx as (piece & <- & Hp).
    unfold strip. rewrite lstrip_blank; [reflexivity |].
    intros c Hc. destruct (split_on_chars _ _ _ _ Hp Hc) as [Hin Hne].
    destruct (Hblank c Hin); [assumption | contradiction]. }
  assert (Hset : nodup string_dec (map strip (split_on "," s)) = [""]).
  { apply nodup_all_same; [| exact Hall].
    intros E. apply map_eq_nil in E. exact (split_on_nonempty _ _ E). }
  split.
  - destruct s as [| c s]; [congruence |].
    unfold arg_fin_steps. rewrite Hset. reflexivity.
  - rewrite (fin_step_str_given s Hs), Hset. reflexivity.
Qed.

Lemma blank_fin_steps_text_witness :
  arg_fin_steps (Some " , ") = Some [""]
  /\ fin_step_str (arg_fin_steps (Some " , ")) = "".
Proof.
  apply (proj2 (proj2 blank_fin_steps_text) " , ").
  - discriminate.
  - intros c [<- | [<- | [<- | []]]]; [left | right | left]; reflexivity.
Defined.


(* ===================================================================== *)
(** * Properties of the statements from objects *)
(* ===================================================================== *)

Section InsertFacts.

Import DbUtility.

Variable decode : string -> Completion string.

Lemma dict_get_set_same (k v : string) (d : Dict) :
  dict_get (dict_set k v d) k = Return v.
Proof.
  unfold dict_get. induction d as [| [k' v'] d IH]; simpl.
  - rewrite String.eqb_refl. reflexivity.
  - destruct (String.eqb k' k) eqn:E; simpl.
    + rewrite String.eqb_refl. reflexivity.
    + rewrite E. exact IH.
Qed.

Lemma dict_get_set_other (k k' v : string) (d : Dict) :
  k <> k' -> dict_get (dict_set k v d) k' = dict_get d k'.
Proof.
  intros Hne. unfold dict_get.
  induction d as [| [k0 v0] d IH]; simpl.
  - destruct (String.eqb k k') eqn:E; [| reflexivity].
    apply String.eqb_eq in E. contradiction.
  - destruct (String.eqb k0 k) eqn:E; simpl.
    + apply String.eqb_eq in E. subst k0.
      destruct (String.eqb k k') eqn:E'; [| reflexivity].
      apply String.eqb_eq in E'. contradiction.
    + destruct (String.eqb k0 k'); [reflexivity | exact IH].
Qed.

(** What an attribute contributes to a statement. *)
Let attr_text (obj : Obj) (a v : string) : Prop :=
  exists val, getattr obj a = Return val /\ sql_text decode val = Return v.

Lemma attr_text_unique (obj : Obj) (a v v' : string) :
  attr_text obj a v -> attr_text obj a v' -> v = v'.
Proof.
  intros (val & Hg & Ht) (val' & Hg' & Ht'). congruence.
Qed.

(** The dictionary [get_attr_vals] builds holds, for each attribute of the
    list, the text of its value, and is otherwise as it was. *)
Lemma get_attr_vals_from_holds (obj : Obj) (attr_list vals : list string) :
  Forall2 (attr_text obj) attr_list vals ->
  forall d, exists d',
    get_attr_vals_from decode d obj attr_list = Return d'
    /\ Forall2 (fun a v => dict_get d' a = Return v) attr_list vals
    /\ (forall a, ~ In a attr_list -> dict_get d' a = dict_get d a).
Proof.
  induction 1 as [| a v attr_list vals Hav Hrest IH]; intros d.
  - exists d. split; [reflexivity |]. split; [constructor | reflexivity].
  - destruct Hav as (val & Hg & Ht).
    destruct (IH (dict_set a v d)) as (d' & Hrun & Hall & Hkeep).
    exists d'. split; [| split].
    + simpl. rewrite Hg. simpl. rewrite Ht. simpl. exact Hrun.
    + constructor; [| exact Hall].
      destruct (in_dec string_dec a attr_list) as [Hin | Hout].
      * clear - Hin Hrest Hall Hg Ht.
        induction Hrest as [| b w l ws Hbw Hl IHl]; [destruct Hin |].
        inversion Hall as [| ? ? ? ? Hb Hall']; subst.
        destruct Hin as [-> | Hin]; [| exact (IHl Hall' Hin)].
        rewrite Hb. f_equal.
        apply (attr_text_unique obj a); [exact Hbw |].
        exists val. split; assumption.
      * rewrite (Hkeep a Hout). apply dict_get_set_same.
    + intros b Hb. rewrite Hkeep by (intros H; apply Hb; right; exact H).
      apply dict_get_set_other. intros ->. apply Hb. left. reflexivity.
Qed.

Lemma values_of_holds (d : Dict) (attr_list vals : list string) :
  Forall2 (fun a v => dict_get d a = Return v) attr_list vals ->
  values_of d attr_list = Return vals.
Proof.
  induction 1 as [| a v l vs Hav Hl IH]; simpl; [reflexivity |].
  rewrite Hav. simpl. rewrite IH. reflexivity.
Qed.

Lemma list_remove_first (x : string) (before after : list string) :
  ~ In x before ->
  list_remove x (before ++ x :: after)%list = Return (before ++ after)%list.
Proof.
  induction before as [| y before IH]; simpl; intros Hx.
  - rewrite String.eqb_refl. reflexivity.
  - destruct (String.eqb y x) eqn:E.
    + apply String.eqb_eq in E. exfalso. apply Hx. left. exact E.
    + rewrite IH by (intros H; apply Hx; right; exact H). reflexivity.
Qed.

Lemma list_remove_absent (x : string) (l : list string) :
  ~ In x l ->
  list_remove x l = Raise (ValueError "list.remove(x): x not in list").
Proof.
  induction l as [| y l IH]; simpl; intros Hx; [reflexivity |].
  destruct (String.eqb y x) eqn:E.
  - apply String.eqb_eq in E. exfalso. apply Hx. left. exact E.
  - rewrite IH by (intros H; apply Hx; right; exact H). reflexivity.
Qed.

End InsertFacts.

(** X19.  [gen_insert_query] raises [ValueError] for a list of attributes
    without [id], whatever the object: the [id] is removed from the list
    before any attribute is read. *)
Theorem gen_insert_query_needs_id :
  forall decode obj attribs tablename,
    ~ In "id" attribs ->
    DbUtility.gen_insert_query decode obj attribs tablename
    = Raise (ValueError "list.remove(x): x not in list").
Proof.
  intros decode obj attribs tablename Hid.
  unfold DbUtility.gen_insert_query.
  rewrite (list_remove_absent "id" attribs Hid). reflexivity.
Qed.

Lemma gen_insert_query_needs_id_witness :
  DbUtility.gen_insert_query DbUtility.decode_ascii DbUtility.result_obj
    ["valid"; "session"; "config"] "rocmlir_results"
  = Raise (ValueError "list.remove(x): x not in list").
Proof.
  apply gen_insert_query_needs_id.
  intros [H | [H | [H | []]]]; discriminate H.
Defined.

(** X20.  For a list of attributes with [id] in it, [gen_insert_query]
    leaves the first [id] out and lists the other attributes in their order
    and, in the same order, the texts of their values: [NULL] for [None],
    the text between quotes for a string, a date or bytes, and [str] of any
    other value.  The object needs no [id], and an attribute named twice is
    listed twice with the same value. *)
Theorem gen_insert_query_text :
  forall decode obj before after tablename vals,
    ~ In "id" before ->
    Forall2 (fun a v => exists val,
               DbUtility.getattr obj a = Return val
               /\ DbUtility.sql_text decode val = Return v)
            (before ++ after)%list vals ->
    DbUtility.gen_insert_query decode obj (before ++ "id" :: after)%list
      tablename
    = Return ("INSERT INTO " ++ tablename
              ++ "(" ++ String.concat "," (before ++ after)%list ++ ")"
              ++ " SELECT " ++ String.concat "," vals ++ ";").
Proof.
  intros decode obj before after tablename vals Hid Hvals.
  unfold DbUtility.gen_insert_query.
  rewrite (list_remove_first "id" before after Hid). cbn [DbUtility.bind].
  unfold DbUtility.get_attr_vals.
  destruct (get_attr_vals_from_holds decode obj _ _ Hvals [])
    as (d' & Hrun & Hall & _).
  rewrite Hrun. cbn [DbUtility.bind].
  rewrite (values_of_holds d' _ _ Hall). reflexivity.
Qed.

Lemma gen_insert_query_text_witness :
  DbUtility.gen_insert_query DbUtility.decode_ascii DbUtility.result_obj
    ["valid"; "id"; "config"; "config_str"; "perf_config"; "config"]
    "rocmlir_results"
  = Return ("INSERT INTO rocmlir_results(valid,config,config_str,perf_config,config)"
            ++ " SELECT 1,3,NULL,'v2:64,64,8',3;").
Proof.
  apply (gen_insert_query_text DbUtility.decode_ascii DbUtility.result_obj
           ["valid"] ["config"; "config_str"; "perf_config"; "config"]
           "rocmlir_results" ["1"; "3"; "NULL"; "'v2:64,64,8'"; "3"]).
  - intros [H | []]. discriminate H.
  - repeat (constructor; [eexists; split; reflexivity |]). constructor.
Defined.
